(** * mapproxy.util: directory swap, cache cleanup, atomic write, timestamps

    A shallow embedding of [mapproxy/util/__init__.py] (Python 2).

    The functions of the module talk to the operating system only through
    [os], [shutil], [time] and [random].  The embedding therefore has three
    layers:

    - an interface [OS] of the primitives the module calls, over an abstract
      world; every primitive returns its result together with the next world,
      so that whatever another process does between two calls is part of the
      primitive's behaviour;
    - the module's functions, written once against that interface in a monad
      threading the world, the pending exception and the trace of calls made;
    - a concrete world, [TreeFS]: a directory tree with symbolic links as
      leaves, a disk quota, and a schedule of interference by other
      processes. *)

From Stdlib Require Import List String Ascii ZArith QArith Bool Lia Arith.
From Stdlib Require Import DecimalString.
Import ListNotations.
Close Scope Q_scope.
Open Scope string_scope.
Open Scope list_scope.
Open Scope nat_scope.

Set Implicit Arguments.
Set Warnings "-abstract-large-number".

(** ** Paths *)

(** A path is the list of its components below the file system root; Python's
    string paths are taken as normalised (no trailing separator, no [.] or
    [..]). *)
Definition path := list string.

(** [os.path.join(dirpath, name)] for a single component. *)
Definition join (dirpath : path) (name : string) : path := dirpath ++ [name].

(** [p + ext] on the path string: the suffix lands on the last component.
    This is the path the string names when the suffix holds no separator;
    with a separator in it the string names a path at or below [p]
    instead. *)
Fixpoint add_ext (p : path) (ext : string) : path :=
  match p with
  | [] => [ext]
  | [c] => [(c ++ ext)%string]
  | c :: p' => c :: add_ext p' ext
  end.

(** A suffix without a path separator. *)
Definition no_separator (ext : string) : bool :=
  forallb (fun c => negb (Ascii.eqb c "/")) (list_ascii_of_string ext).

Definition path_eqb (p q : path) : bool :=
  if list_eq_dec string_dec p q then true else false.

(** ** Errors *)

(** [NoErrno] stands for an [OSError] that Python code raises without an
    error number ([ex.errno] is [None]). *)
Inductive errno : Set :=
| ENOENT | EEXIST | ENOTEMPTY | ENOTDIR | EISDIR | EINVAL | EACCES | ENOSPC
| EBUSY | EBADF | NoErrno.

Definition errno_eq_dec (a b : errno) : {a = b} + {a <> b}.
Proof. decide equality. Defined.

Definition errno_eqb (a b : errno) : bool :=
  if errno_eq_dec a b then true else false.

(** Python 2 exception classes met in the module.  [OSError] and [IOError]
    are distinct classes there (siblings below [EnvironmentError]): the [os]
    functions raise the first, file objects raise the second. *)
Inductive exn : Set :=
| OSError (e : errno)
| IOError (e : errno)
| ValueError
| OverflowError.

(** ** Calls and traces *)

Inductive call : Type :=
| CExists (p : path)
| CIsdir (p : path)
| CIslink (p : path)
| CListdir (p : path)
| CLstat (p : path)
| CRename (src dst : path)
| CRemove (p : path)
| CUnlink (p : path)
| CRmdir (p : path)
| CRmtree (ignore_errors : bool) (p : path)
| CSleep (seconds : Q)
| CRandint (lo hi : Z)
| COpenExcl (p : path)
| COpenWb (p : path)
| CFdopen (fd : nat)
| CWrite (fd : nat) (data : string)
| CClose (fd : nat).

(** What a call gave back. *)
Inductive ret : Type :=
| RErr (e : errno)
| RUnit
| RBool (b : bool)
| RNames (l : list string)
| RInt (z : Z)
| RFd (fd : nat).

Definition event : Type := call * ret.
Definition trace := list event.

(** ** The monad: world, exception or starvation, trace *)

Inductive outcome (A : Type) : Type :=
| Done (a : A)
| Raised (e : exn)
| Starved.
Arguments Raised {A} e.
Arguments Starved {A}.

Definition M (W A : Type) : Type := W -> outcome A * W * trace.

Definition ret_ {W A} (a : A) : M W A := fun w => (Done a, w, []).

Definition bind {W A B} (m : M W A) (f : A -> M W B) : M W B :=
  fun w =>
    match m w with
    | (Done a, w1, t1) =>
        match f a w1 with
        | (o, w2, t2) => (o, w2, t1 ++ t2)
        end
    | (Raised e, w1, t1) => (Raised e, w1, t1)
    | (Starved, w1, t1) => (Starved, w1, t1)
    end.

Definition throw {W A} (e : exn) : M W A := fun w => (Raised e, w, []).
Definition starve {W A} : M W A := fun w => (Starved, w, []).

Declare Scope monad_scope.
Delimit Scope monad_scope with monad.
Notation "x <- m ;; k" := (bind m (fun x => k))
  (at level 61, m at next level, right associativity) : monad_scope.
Notation "m ;;; k" := (bind m (fun _ => k))
  (at level 61, right associativity) : monad_scope.
Open Scope monad_scope.

(** [try: m except OSError, ex: h ex]: only [OSError] is caught; the handler
    runs in the world the failed body left. *)
Definition catch_OSError {W A} (m : M W A) (h : errno -> M W A) : M W A :=
  fun w =>
    match m w with
    | (Raised (OSError e), w1, t1) =>
        match h e w1 with
        | (o, w2, t2) => (o, w2, t1 ++ t2)
        end
    | r => r
    end.

(** [for x in l: body x]. *)
Fixpoint for_each {W A} (l : list A) (body : A -> M W unit) : M W unit :=
  match l with
  | [] => ret_ tt
  | x :: l' => body x ;;; for_each l' body
  end.

Definition when_ {W} (b : bool) (m : M W unit) : M W unit :=
  if b then m else ret_ tt.

(** ** The operating system interface *)

(** Each field is one primitive: the world before, the result (an [errno] on
    failure where the primitive can fail) and the world after.
    [os.path.exists], [isdir] and [islink] never raise; [time.sleep] and
    [random.randint] neither. *)
Record OS (W : Type) : Type := {
  os_path_exists : path -> W -> bool * W;
  os_path_isdir : path -> W -> bool * W;
  os_path_islink : path -> W -> bool * W;
  os_listdir : path -> W -> (errno + list string) * W;
  os_lstat_mtime : path -> W -> (errno + Z) * W;
  os_rename : path -> path -> W -> (errno + unit) * W;
  os_remove : path -> W -> (errno + unit) * W;
  os_unlink : path -> W -> (errno + unit) * W;
  os_rmdir : path -> W -> (errno + unit) * W;
  shutil_rmtree : bool -> path -> W -> (errno + unit) * W;
  time_sleep : Q -> W -> W;
  random_randint : Z -> Z -> W -> Z * W;
  os_open_excl : path -> W -> (errno + nat) * W;
  open_wb : path -> W -> (errno + nat) * W;
  os_fdopen : nat -> W -> (errno + unit) * W;
  file_write : nat -> string -> W -> (errno + unit) * W;
  file_close : nat -> W -> (errno + unit) * W;
  platform_win : bool
}.

Section Program.

Context {W : Type} (os : OS W).

Local Abbreviation M := (M W).

(** *** Lifting the primitives: the call is recorded with its result, and a
    failure becomes the exception of the class Python raises there. *)

Definition total {A} (c : call) (r : A -> ret) (f : W -> A * W) : M A :=
  fun w => let '(a, w1) := f w in (Done a, w1, [(c, r a)]).

Definition fallible {A} (cls : errno -> exn) (c : call) (r : A -> ret)
    (f : W -> (errno + A) * W) : M A :=
  fun w =>
    match f w with
    | (inl e, w1) => (Raised (cls e), w1, [(c, RErr e)])
    | (inr a, w1) => (Done a, w1, [(c, r a)])
    end.

Definition runit (_ : unit) : ret := RUnit.

Definition path_exists (p : path) : M bool :=
  total (CExists p) RBool (os_path_exists os p).
Definition path_isdir (p : path) : M bool :=
  total (CIsdir p) RBool (os_path_isdir os p).
Definition path_islink (p : path) : M bool :=
  total (CIslink p) RBool (os_path_islink os p).
Definition listdir (p : path) : M (list string) :=
  fallible OSError (CListdir p) RNames (os_listdir os p).
Definition lstat_mtime (p : path) : M Z :=
  fallible OSError (CLstat p) RInt (os_lstat_mtime os p).
Definition rename (src dst : path) : M unit :=
  fallible OSError (CRename src dst) runit (os_rename os src dst).
Definition remove (p : path) : M unit :=
  fallible OSError (CRemove p) runit (os_remove os p).
Definition unlink (p : path) : M unit :=
  fallible OSError (CUnlink p) runit (os_unlink os p).
Definition rmdir (p : path) : M unit :=
  fallible OSError (CRmdir p) runit (os_rmdir os p).

(** [shutil.rmtree(p)]: the first error is raised. *)
Definition rmtree (p : path) : M unit :=
  fallible OSError (CRmtree false p) runit (shutil_rmtree os false p).

(** [shutil.rmtree(p, ignore_errors=True)]: nothing is raised. *)
Definition rmtree_ignore_errors (p : path) : M unit :=
  fun w =>
    match shutil_rmtree os true p w with
    | (inl e, w1) => (Done tt, w1, [(CRmtree true p, RErr e)])
    | (inr _, w1) => (Done tt, w1, [(CRmtree true p, RUnit)])
    end.

Definition sleep (seconds : Q) : M unit :=
  total (CSleep seconds) runit (fun w => (tt, time_sleep os seconds w)).
Definition randint (lo hi : Z) : M Z :=
  total (CRandint lo hi) RInt (random_randint os lo hi).
Definition open_excl (p : path) : M nat :=
  fallible OSError (COpenExcl p) RFd (os_open_excl os p).
Definition open_write_binary (p : path) : M nat :=
  fallible IOError (COpenWb p) RFd (open_wb os p).
Definition fdopen (fd : nat) : M unit :=
  fallible OSError (CFdopen fd) runit (os_fdopen os fd).
Definition write (fd : nat) (data : string) : M unit :=
  fallible IOError (CWrite fd data) runit (file_write os fd data).
Definition close (fd : nat) : M unit :=
  fallible IOError (CClose fd) runit (file_close os fd).

(** [with f: body]: the file is closed however the body ends; an exception
    of [close] replaces the body's. *)
Definition with_file (fd : nat) (body : M unit) : M unit :=
  fun w =>
    match body w with
    | (o, w1, t1) =>
        match close fd w1 with
        | (Done _, w2, t2) => (o, w2, t1 ++ t2)
        | (Raised e, w2, t2) => (Raised e, w2, t1 ++ t2)
        | (Starved, w2, t2) => (Starved, w2, t1 ++ t2)
        end
    end.

(** *** swap_dir *)

Definition occupied (e : errno) : bool :=
  errno_eqb e ENOTEMPTY || errno_eqb e EEXIST.

(** [2**rename_tries / 100.0]: the number of seconds as a rational.  The
    double that [time.sleep] gets is this quotient rounded to the nearest
    double, within one part in [2^53] of it. *)
Definition backoff (rename_tries : nat) : Q :=
  Qmake (2 ^ Z.of_nat rename_tries) 100.

(** The [while rename_tries < 10] loop, by the number [left] of iterations
    the guard still allows: [rename_tries = 10 - left]. *)
Fixpoint rename_loop (left : nat) (src_dir dst_dir : path) : M unit :=
  match left with
  | 0 => ret_ tt
  | S left' =>
      let rename_tries := 10 - left in
      success <- catch_OSError
        (rename src_dir dst_dir ;;; ret_ true)
        (fun e =>
           if occupied e then
             when_ (0 <? rename_tries) (sleep (backoff rename_tries)) ;;;
             rmtree dst_dir ;;;
             ret_ false
           else throw (OSError e)) ;;
      if success then ret_ tt else rename_loop left' src_dir dst_dir
  end.

Definition _force_rename_dir (src_dir dst_dir : path) : M unit :=
  rename_loop 10 src_dir dst_dir.

Definition swap_dir (src_dir dst_dir : path) (keep_old : bool)
    (backup_ext : string) : M unit :=
  let tmp_dir := add_ext dst_dir backup_ext in
  e <- path_exists dst_dir ;;
  when_ e (rename dst_dir tmp_dir) ;;;
  _force_rename_dir src_dir dst_dir ;;;
  e' <- path_exists tmp_dir ;;
  when_ (e' && negb keep_old) (rmtree tmp_dir).

(** *** cleanup_directory *)

Definition remove_dir_if_emtpy (directory : path) : M unit :=
  catch_OSError (rmdir directory)
    (fun e =>
       if negb (errno_eqb e ENOENT) && negb (errno_eqb e ENOTEMPTY)
       then throw (OSError e) else ret_ tt).

(** [os.walk(top, topdown=False)] of Python 2 with the consumer's loop body
    run at each [yield]: the entries of [top] are listed and sorted into
    directories and others first, then the directories that are no symbolic
    links are walked, and only then is [top] itself handed out, with the
    names listed at the start.  A failing [listdir] ends that branch
    silently ([onerror] is [None]).  The generator's depth is not bounded by
    the interface, hence the [fuel]. *)
Fixpoint classify (top : path) (names : list string)
    : M (list string * list string) :=
  match names with
  | [] => ret_ ([], [])
  | name :: names' =>
      d <- path_isdir (join top name) ;;
      r <- classify top names' ;;
      ret_ (if d then (name :: fst r, snd r) else (fst r, name :: snd r))
  end.

Fixpoint walk_bottom_up (fuel : nat) (top : path)
    (body : path -> list string -> list string -> M unit) : M unit :=
  match fuel with
  | 0 => starve
  | S fuel' =>
      listed <- catch_OSError (names <- listdir top ;; ret_ (Some names))
                              (fun _ => ret_ None) ;;
      match listed with
      | None => ret_ tt
      | Some names =>
          r <- classify top names ;;
          for_each (fst r) (fun name =>
            l <- path_islink (join top name) ;;
            if l then ret_ tt
            else walk_bottom_up fuel' (join top name) body) ;;;
          body top (fst r) (snd r)
      end
  end.

(** Lines 176 to 183: one file of the walk. *)
Definition handle_file (before_timestamp : Z) (file_handler : path -> M unit)
    (filename : path) : M unit :=
  catch_OSError
    (when_ (before_timestamp =? 0)%Z (file_handler filename) ;;;
     mtime <- lstat_mtime filename ;;
     when_ (mtime <? before_timestamp)%Z (file_handler filename))
    (fun e => if negb (errno_eqb e ENOENT) then throw (OSError e)
              else ret_ tt).

(** Lines 170 to 186: the body of the [for] loop over the walk. *)
Definition visit (directory : path) (before_timestamp : Z)
    (remove_empty_dirs : bool) (file_handler : path -> M unit)
    (dirpath : path) (dirnames filenames : list string) : M unit :=
  match filenames with
  | [] =>
      c <- (if remove_empty_dirs then
              names <- listdir dirpath ;;
              ret_ (match names with [] => true | _ => false end
                    && negb (path_eqb dirpath directory))
            else ret_ false) ;;
      when_ c (rmdir dirpath)
  | _ =>
      for_each filenames (fun filename =>
        handle_file before_timestamp file_handler (join dirpath filename)) ;;;
      when_ remove_empty_dirs (remove_dir_if_emtpy dirpath)
  end.

(** Lines 168 to 189: the general walk. *)
Definition general_walk (fuel : nat) (directory : path)
    (before_timestamp : Z) (remove_empty_dirs : bool)
    (file_handler : path -> M unit) : M unit :=
  e <- path_exists directory ;;
  when_ e
    (walk_bottom_up fuel directory
       (visit directory before_timestamp remove_empty_dirs file_handler) ;;;
     when_ remove_empty_dirs (remove_dir_if_emtpy directory)).

(** [file_handler=None] is [None]; an overriding handler is [Some h]. *)
Definition cleanup_directory (fuel : nat) (directory : path)
    (before_timestamp : Z) (remove_empty_dirs : bool)
    (file_handler : option (path -> M unit)) : M unit :=
  match file_handler with
  | None =>
      fast <- (if (before_timestamp =? 0)%Z && remove_empty_dirs
               then path_exists directory else ret_ false) ;;
      if fast then rmtree_ignore_errors directory
      else general_walk fuel directory before_timestamp remove_empty_dirs
             remove
  | Some h =>
      general_walk fuel directory before_timestamp remove_empty_dirs h
  end.

(** *** write_atomic *)

(** [str(n)] for the integers [randint] gives. *)
Definition str (n : Z) : string := NilZero.string_of_int (Z.to_int n).

(** The bare [raise] of line 230 raises the exception handled last.  In
    Python 2 that is the [OSError] of the [unlink] when the [unlink] has
    failed and the inner [except] has caught it, and the error of the body
    otherwise. *)
Definition write_atomic (filename : path) (data : string) : M unit :=
  if negb (platform_win os) then
    n <- randint 0 999999 ;;
    let path_tmp := add_ext filename (".tmp-" ++ str n)%string in
    catch_OSError
      (fd <- open_excl path_tmp ;;
       fdopen fd ;;;
       with_file fd (write fd data) ;;;
       rename path_tmp filename)
      (fun e =>
         last <- catch_OSError (unlink path_tmp ;;; ret_ e)
                   (fun e' => ret_ e') ;;
         throw (OSError last))
  else
    fd <- open_write_binary filename ;;
    with_file fd (write fd data).

End Program.

(** ** A concrete world: a directory tree *)

Module TreeFS.

(** What a symbolic link resolves to.  The tree does not hold the target
    itself: a link is a leaf, and the model never looks through it. *)
Inductive link_target : Set := Dangling | ToFile | ToDir.

Local Unset Elimination Schemes.
(** Directory entries are kept in creation order, which is the order
    [listdir] gives them in.  Directory time stamps are not maintained. *)
Inductive node : Type :=
| File (mtime : Z) (content : string)
| Link (mtime : Z) (target : link_target)
| Dir (mtime : Z) (entries : list (string * node)).
Local Set Elimination Schemes.

Definition entries := list (string * node).

Fixpoint assoc (name : string) (es : entries) : option node :=
  match es with
  | [] => None
  | (k, v) :: es' => if String.eqb name k then Some v else assoc name es'
  end.

Fixpoint remove_entry (name : string) (es : entries) : entries :=
  match es with
  | [] => []
  | (k, v) :: es' =>
      if String.eqb name k then remove_entry name es'
      else (k, v) :: remove_entry name es'
  end.

Fixpoint set_entry (name : string) (n : node) (es : entries) : entries :=
  match es with
  | [] => [(name, n)]
  | (k, v) :: es' =>
      if String.eqb name k then (k, n) :: es'
      else (k, v) :: set_entry name n es'
  end.

(** The node a path names, without following a final link ([lstat]). *)
Fixpoint resolve (p : path) (n : node) : errno + node :=
  match p with
  | [] => inr n
  | c :: p' =>
      match n with
      | Dir _ es =>
          match assoc c es with
          | Some m => resolve p' m
          | None => inl ENOENT
          end
      | _ => inl ENOTDIR
      end
  end.

(** Change the entries of the directory that holds [p], given the last
    component of [p].  The root is nobody's entry. *)
Fixpoint at_parent (p : path) (f : string -> entries -> errno + entries)
    (n : node) : errno + node :=
  match p with
  | [] => inl EBUSY
  | c :: p' =>
      match n with
      | Dir m es =>
          match p' with
          | [] =>
              match f c es with
              | inl e => inl e
              | inr es' => inr (Dir m es')
              end
          | _ =>
              match assoc c es with
              | Some sub =>
                  match at_parent p' f sub with
                  | inl e => inl e
                  | inr sub' => inr (Dir m (set_entry c sub' es))
                  end
              | None => inl ENOENT
              end
          end
      | _ => inl ENOTDIR
      end
  end.

Definition fs_exists (p : path) (fs : node) : bool :=
  match resolve p fs with
  | inr (Link _ Dangling) => false
  | inr _ => true
  | inl _ => false
  end.

Definition fs_isdir (p : path) (fs : node) : bool :=
  match resolve p fs with
  | inr (Dir _ _) => true
  | inr (Link _ ToDir) => true
  | _ => false
  end.

Definition fs_islink (p : path) (fs : node) : bool :=
  match resolve p fs with
  | inr (Link _ _) => true
  | _ => false
  end.

Definition fs_listdir (p : path) (fs : node) : errno + list string :=
  match resolve p fs with
  | inr (Dir _ es) => inr (map fst es)
  | inr _ => inl ENOTDIR
  | inl e => inl e
  end.

Definition fs_lstat_mtime (p : path) (fs : node) : errno + Z :=
  match resolve p fs with
  | inr (File m _) => inr m
  | inr (Link m _) => inr m
  | inr (Dir m _) => inr m
  | inl e => inl e
  end.

(** [os.remove] and [os.unlink]: files and links only. *)
Definition fs_remove (p : path) (fs : node) : errno + node :=
  at_parent p (fun name es =>
    match assoc name es with
    | Some (Dir _ _) => inl EISDIR
    | Some _ => inr (remove_entry name es)
    | None => inl ENOENT
    end) fs.

Definition fs_rmdir (p : path) (fs : node) : errno + node :=
  at_parent p (fun name es =>
    match assoc name es with
    | Some (Dir _ []) => inr (remove_entry name es)
    | Some (Dir _ (_ :: _)) => inl ENOTEMPTY
    | Some _ => inl ENOTDIR
    | None => inl ENOENT
    end) fs.

(** [shutil.rmtree] of Python 2.7: a symbolic link is refused, a path that
    cannot be listed fails in [listdir], and otherwise the whole subtree goes
    and the directory after it.  Nothing in this world makes a deletion fail
    half way, so the state the call leaves is the same with and without
    [ignore_errors]; the result says whether an error came up.  At the root
    the entries go and the final [rmdir] fails. *)
Definition fs_rmtree (p : path) (fs : node) : (errno + unit) * node :=
  match p with
  | [] =>
      match fs with
      | Dir m _ => (inl EBUSY, Dir m [])
      | Link _ _ => (inl NoErrno, fs)
      | File _ _ => (inl ENOTDIR, fs)
      end
  | _ =>
      match at_parent p (fun name es =>
              match assoc name es with
              | Some (Dir _ _) => inr (remove_entry name es)
              | Some (Link _ _) => inl NoErrno
              | Some (File _ _) => inl ENOTDIR
              | None => inl ENOENT
              end) fs with
      | inl e => (inl e, fs)
      | inr fs' => (inr tt, fs')
      end
  end.

(** The tree with the node at [p] replaced by [n']. *)
Fixpoint graft (p : path) (n' : node) (n : node) : node :=
  match p with
  | [] => n'
  | c :: p' =>
      match n with
      | Dir m es =>
          match assoc c es with
          | Some sub => Dir m (set_entry c (graft p' n' sub) es)
          | None => n
          end
      | _ => n
      end
  end.

(** Taking the entry of [p] out of its directory. *)
Definition prune (p : path) (n : node) : errno + node :=
  at_parent p (fun name es => inr (remove_entry name es)) n.

(** The depth of a tree: one for a directory without directories. *)
Fixpoint height (n : node) : nat :=
  match n with
  | Dir _ es =>
      S ((fix heights (es : list (string * node)) : nat :=
            match es with
            | [] => 0
            | (_, c) :: es' => Nat.max (height c) (heights es')
            end) es)
  | _ => 0
  end.

Fixpoint mem (c : string) (l : list string) : bool :=
  match l with
  | [] => false
  | x :: l' => String.eqb c x || mem c l'
  end.

Fixpoint distinct (l : list string) : bool :=
  match l with
  | [] => true
  | x :: l' => negb (mem x l') && distinct l'
  end.

(** A tree in which no directory holds a name twice and no symbolic link
    leads to a directory. *)
Fixpoint plain (n : node) : bool :=
  match n with
  | File _ _ => true
  | Link _ ToDir => false
  | Link _ _ => true
  | Dir _ es =>
      distinct (map fst es)
      && (fix all (es : list (string * node)) : bool :=
            match es with
            | [] => true
            | (_, c) :: es' => plain c && all es'
            end) es
  end.

Definition is_dir (n : node) : bool :=
  match n with Dir _ _ => true | _ => false end.

Fixpoint is_prefix (p q : path) : bool :=
  match p, q with
  | [], _ => true
  | c :: p', d :: q' => String.eqb c d && is_prefix p' q'
  | _ :: _, [] => false
  end.

(** POSIX [rename]: the source node moves as it is (a link is not
    followed); a directory replaces only an empty directory, a file or link
    only a file or link; a directory cannot move below itself. *)
Definition fs_rename (src dst : path) (fs : node) : errno + node :=
  match resolve src fs with
  | inl e => inl e
  | inr n =>
      if path_eqb src dst then inr fs
      else if is_prefix src dst then inl EINVAL
      else
        let fits :=
          match n, resolve dst fs with
          | Dir _ _, inr (Dir _ []) => inr tt
          | Dir _ _, inr (Dir _ (_ :: _)) => inl ENOTEMPTY
          | Dir _ _, inr _ => inl ENOTDIR
          | _, inr (Dir _ _) => inl EISDIR
          | _, _ => inr tt
          end in
        match fits with
        | inl e => inl e
        | inr _ =>
            match at_parent src (fun name es => inr (remove_entry name es)) fs
            with
            | inl e => inl e
            | inr fs1 =>
                at_parent dst (fun name es => inr (set_entry name n es)) fs1
            end
        end
  end.

(** The world: the tree, a count of the calls made, the free space on the
    device in bytes, the table of open descriptors (a descriptor is its
    index) and the integers [random] will give. *)
Record world : Type := {
  fs : node;
  tick : nat;
  free : nat;
  fds : list path;
  entropy : list Z
}.

Definition mk (f : node) : world :=
  {| fs := f; tick := 0; free := 4096; fds := []; entropy := [] |}.

Section Instance.

(** What other processes do to the tree after the call numbered [tick]. *)
Variable env : nat -> node -> node.

Definition step (w : world) (f : node) : world :=
  {| fs := env (tick w) f; tick := S (tick w); free := free w;
     fds := fds w; entropy := entropy w |}.

Definition query {A} (q : node -> A) (w : world) : A * world :=
  (q (fs w), step w (fs w)).

Definition update (u : node -> errno + node) (w : world)
    : (errno + unit) * world :=
  match u (fs w) with
  | inl e => (inl e, step w (fs w))
  | inr f => (inr tt, step w f)
  end.

Definition do_rmtree (p : path) (w : world) : (errno + unit) * world :=
  let '(r, f) := fs_rmtree p (fs w) in (r, step w f).

Definition do_randint (lo hi : Z) (w : world) : Z * world :=
  match entropy w with
  | [] => (lo, step w (fs w))
  | z :: zs =>
      ((lo + z mod (hi - lo + 1))%Z,
       {| fs := env (tick w) (fs w); tick := S (tick w); free := free w;
          fds := fds w; entropy := zs |})
  end.

(** [os.open(p, O_EXCL | O_CREAT | O_WRONLY)]. *)
Definition do_open_excl (p : path) (w : world) : (errno + nat) * world :=
  match resolve p (fs w) with
  | inr _ => (inl EEXIST, step w (fs w))
  | inl ENOTDIR => (inl ENOTDIR, step w (fs w))
  | inl _ =>
      match at_parent p (fun name es =>
              inr (set_entry name (File (Z.of_nat (tick w)) "") es)) (fs w)
      with
      | inl e => (inl e, step w (fs w))
      | inr f =>
          (inr (List.length (fds w)),
           {| fs := env (tick w) f; tick := S (tick w); free := free w;
              fds := fds w ++ [p]; entropy := entropy w |})
      end
  end.

(** [open(p, 'wb')]: the file is created or emptied. *)
Definition do_open_wb (p : path) (w : world) : (errno + nat) * world :=
  match resolve p (fs w) with
  | inr (Dir _ _) => (inl EISDIR, step w (fs w))
  | inr (Link _ _) => (inl EACCES, step w (fs w))
  | inl ENOTDIR => (inl ENOTDIR, step w (fs w))
  | _ =>
      match at_parent p (fun name es =>
              inr (set_entry name (File (Z.of_nat (tick w)) "") es)) (fs w)
      with
      | inl e => (inl e, step w (fs w))
      | inr f =>
          (inr (List.length (fds w)),
           {| fs := env (tick w) f; tick := S (tick w); free := free w;
              fds := fds w ++ [p]; entropy := entropy w |})
      end
  end.

Definition do_fdopen (fd : nat) (w : world) : (errno + unit) * world :=
  match nth_error (fds w) fd with
  | Some _ => (inr tt, step w (fs w))
  | None => (inl EBADF, step w (fs w))
  end.

(** Writing needs as many free bytes as the data has; a descriptor whose
    file has gone from its path writes to nowhere. *)
Definition do_write (fd : nat) (data : string) (w : world)
    : (errno + unit) * world :=
  match nth_error (fds w) fd with
  | None => (inl EBADF, step w (fs w))
  | Some p =>
      if free w <? String.length data then (inl ENOSPC, step w (fs w))
      else
        let f :=
          match resolve p (fs w) with
          | inr (File _ _) =>
              match at_parent p (fun name es =>
                      inr (set_entry name
                             (File (Z.of_nat (tick w)) data) es)) (fs w)
              with
              | inr f' => f'
              | inl _ => fs w
              end
          | _ => fs w
          end in
        (inr tt,
         {| fs := env (tick w) f; tick := S (tick w);
            free := free w - String.length data;
            fds := fds w; entropy := entropy w |})
  end.

Definition do_close (fd : nat) (w : world) : (errno + unit) * world :=
  match nth_error (fds w) fd with
  | Some _ => (inr tt, step w (fs w))
  | None => (inl EBADF, step w (fs w))
  end.

Definition TreeOS (win : bool) : OS world := {|
  os_path_exists := fun p => query (fs_exists p);
  os_path_isdir := fun p => query (fs_isdir p);
  os_path_islink := fun p => query (fs_islink p);
  os_listdir := fun p => query (fs_listdir p);
  os_lstat_mtime := fun p => query (fs_lstat_mtime p);
  os_rename := fun src dst => update (fs_rename src dst);
  os_remove := fun p => update (fs_remove p);
  os_unlink := fun p => update (fs_remove p);
  os_rmdir := fun p => update (fs_rmdir p);
  shutil_rmtree := fun _ p => do_rmtree p;
  time_sleep := fun _ w => step w (fs w);
  random_randint := do_randint;
  os_open_excl := do_open_excl;
  open_wb := do_open_wb;
  os_fdopen := do_fdopen;
  file_write := do_write;
  file_close := do_close;
  platform_win := win
|}.

End Instance.

(** No other process touches the tree. *)
Definition quiet : nat -> node -> node := fun _ f => f.

Definition posix : OS world := TreeOS quiet false.

(** *** Runs on a tree nobody else touches *)

(** [m] returns [a] from [w] and leaves the tree [f]. *)
Definition runs {A} (m : M world A) (w : world) (a : A) (f : node) : Prop :=
  exists w' t, m w = (Done a, w', t) /\ fs w' = f.

(** [m] raises [e] from [w] and leaves the tree [f]. *)
Definition fails {A} (m : M world A) (w : world) (e : exn) (f : node)
    : Prop :=
  exists w' t, m w = (Raised e, w', t) /\ fs w' = f.

(** The entries left when the names are taken out one by one. *)
Definition remove_all (names : list string) (es : entries) : entries :=
  fold_left (fun es c => remove_entry c es) names es.

(** What the walk of the directory at [p] leaves, with [fuel]: its entry
    gone, or, for the root of the walk when it holds no files, the
    directory emptied. *)
Definition walk_ok (directory : path) (fuel : nat) : Prop :=
  forall (p : path) (w : world) (m : Z) (es : entries),
    resolve p (fs w) = inr (Dir m es) ->
    plain (Dir m es) = true ->
    height (Dir m es) <= fuel ->
    List.length directory <= List.length p ->
    p <> [] ->
    exists f',
      runs (walk_bottom_up posix fuel p
              (visit posix directory 0 true (remove posix))) w tt f'
      /\ (prune p (fs w) = inr f'
          \/ (p = directory /\ f' = graft p (Dir m []) (fs w))).

End TreeFS.

(** ** Timestamps *)

Module Timestamp.

(** The fields of a [datetime.datetime] that [timetuple()] keeps. *)
Record datetime : Set := {
  year : nat; month : nat; day : nat;
  hour : nat; minute : nat; second : nat
}.

(** The argument of [timestamp_from_isodate]: a [datetime] or a string. *)
Inductive isodate : Set :=
| IsDatetime (d : datetime)
| IsString (s : string).

(** *** [datetime.datetime.strptime(s, "%Y-%m-%dT%H:%M:%S")]

    CPython turns the format into a regular expression, one group of
    alternatives per directive, compiles it ignoring case, matches it at the
    start of the string, refuses text left over, and passes the numbers to
    the [datetime] constructor, which checks the calendar. *)

Inductive cclass : Set := Digits (lo hi : nat) | Space.

Definition digit_of (c : ascii) : option nat :=
  let n := nat_of_ascii c in
  if (48 <=? n) && (n <=? 57) then Some (n - 48) else None.

(** One alternative against the head of [s]: the number read, and the rest. *)
Fixpoint match_alt (a : list cclass) (s : list ascii) (acc : nat)
    : option (nat * list ascii) :=
  match a with
  | [] => Some (acc, s)
  | c :: a' =>
      match s with
      | [] => None
      | x :: s' =>
          match c with
          | Digits lo hi =>
              match digit_of x with
              | Some d =>
                  if (lo <=? d) && (d <=? hi)
                  then match_alt a' s' (10 * acc + d) else None
              | None => None
              end
          | Space =>
              if Ascii.eqb x " " then match_alt a' s' acc else None
          end
      end
  end.

(** A group: the alternatives in order, backtracking into the next one when
    the rest of the expression [k] fails. *)
Fixpoint directive {R} (alts : list (list cclass))
    (k : nat -> list ascii -> option R) (s : list ascii) : option R :=
  match alts with
  | [] => None
  | a :: alts' =>
      match match_alt a s 0 with
      | Some (v, s') =>
          match k v s' with
          | Some r => Some r
          | None => directive alts' k s
          end
      | None => directive alts' k s
      end
  end.

Definition lower (c : ascii) : ascii :=
  let n := nat_of_ascii c in
  if (65 <=? n) && (n <=? 90) then ascii_of_nat (n + 32) else c.

Definition literal {R} (c : ascii) (k : list ascii -> option R)
    (s : list ascii) : option R :=
  match s with
  | x :: s' => if Ascii.eqb (lower x) (lower c) then k s' else None
  | [] => None
  end.

(** [\d\d\d\d] *)
Definition re_Y := [[Digits 0 9; Digits 0 9; Digits 0 9; Digits 0 9]].
(** [1[0-2]|0[1-9]|[1-9]] *)
Definition re_m := [[Digits 1 1; Digits 0 2]; [Digits 0 0; Digits 1 9];
                    [Digits 1 9]].
(** [3[0-1]|[1-2]\d|0[1-9]|[1-9]| [1-9]] *)
Definition re_d := [[Digits 3 3; Digits 0 1]; [Digits 1 2; Digits 0 9];
                    [Digits 0 0; Digits 1 9]; [Digits 1 9];
                    [Space; Digits 1 9]].
(** [2[0-3]|[0-1]\d|\d] *)
Definition re_H := [[Digits 2 2; Digits 0 3]; [Digits 0 1; Digits 0 9];
                    [Digits 0 9]].
(** [[0-5]\d|\d] *)
Definition re_M := [[Digits 0 5; Digits 0 9]; [Digits 0 9]].
(** [6[0-1]|[0-5]\d|\d] *)
Definition re_S := [[Digits 6 6; Digits 0 1]; [Digits 0 5; Digits 0 9];
                    [Digits 0 9]].

Definition format_regex (s : list ascii) : option (datetime * list ascii) :=
  directive re_Y (fun Y =>
  literal "-" (
  directive re_m (fun m =>
  literal "-" (
  directive re_d (fun d =>
  literal "T" (
  directive re_H (fun H =>
  literal ":" (
  directive re_M (fun Mi =>
  literal ":" (
  directive re_S (fun S rest =>
    Some ({| year := Y; month := m; day := d;
             hour := H; minute := Mi; second := S |}, rest)))))))))))) s.

Definition is_leap (y : nat) : bool :=
  (y mod 4 =? 0) && (negb (y mod 100 =? 0) || (y mod 400 =? 0)).

Definition days_in_month (y m : nat) : nat :=
  match m with
  | 2 => if is_leap y then 29 else 28
  | 4 | 6 | 9 | 11 => 30
  | _ => 31
  end.

(** The checks of the [datetime] constructor. *)
Definition valid (d : datetime) : bool :=
  (1 <=? year d) && (year d <=? 9999) &&
  (1 <=? month d) && (month d <=? 12) &&
  (1 <=? day d) && (day d <=? days_in_month (year d) (month d)) &&
  (hour d <=? 23) && (minute d <=? 59) && (second d <=? 59).

Definition strptime (s : string) : exn + datetime :=
  match format_regex (list_ascii_of_string s) with
  | None => inl ValueError
  | Some (d, []) => if valid d then inr d else inl ValueError
  | Some (_, _ :: _) => inl ValueError
  end.

(** [time.mktime] depends on the time zone of the process and on the
    platform's range of years: it is a parameter. *)
Definition timestamp_from_isodate (mktime : datetime -> exn + Z)
    (arg : isodate) : exn + Z :=
  match arg with
  | IsDatetime date => mktime date
  | IsString s =>
      match strptime s with
      | inl e => inl e
      | inr date => mktime date
      end
  end.

(** [mktime] in a zone without offset to UTC, by the days since 1970. *)
Definition days_from_civil (y m d : Z) : Z :=
  (let y' := if m <=? 2 then y - 1 else y in
   let era := y' / 400 in
   let yoe := y' - era * 400 in
   let mp := if m <=? 2 then m + 9 else m - 3 in
   let doy := (153 * mp + 2) / 5 + d - 1 in
   let doe := yoe * 365 + yoe / 4 - yoe / 100 + doy in
   era * 146097 + doe - 719468)%Z.

Definition mktime_utc (d : datetime) : exn + Z :=
  inr (days_from_civil (Z.of_nat (year d)) (Z.of_nat (month d))
         (Z.of_nat (day d)) * 86400
       + Z.of_nat (hour d) * 3600 + Z.of_nat (minute d) * 60
       + Z.of_nat (second d))%Z.

(** The shape [YYYY-MM-DDTHH:MM:SS]: nineteen characters, digits but for the
    five separators. *)
Definition is_digit (c : ascii) : bool :=
  match digit_of c with Some _ => true | None => false end.

Definition exact_shape (s : string) : bool :=
  match list_ascii_of_string s with
  | [y1; y2; y3; y4; s1; m1; m2; s2; d1; d2; t; h1; h2; s3; n1; n2; s4;
     c1; c2] =>
      forallb is_digit [y1; y2; y3; y4; m1; m2; d1; d2; h1; h2; n1; n2;
                        c1; c2]
      && Ascii.eqb s1 "-" && Ascii.eqb s2 "-" && Ascii.eqb t "T"
      && Ascii.eqb s3 ":" && Ascii.eqb s4 ":"
  | _ => false
  end.

(** [d] written in that shape, every field padded with zeros. *)
Definition digit_char (n : nat) : ascii := ascii_of_nat (48 + n mod 10).

Definition two (n : nat) : list ascii :=
  [digit_char (n / 10); digit_char n].

Definition four (n : nat) : list ascii :=
  [digit_char (n / 1000); digit_char (n / 100); digit_char (n / 10);
   digit_char n].

Definition isoformat (d : datetime) : string :=
  string_of_list_ascii
    (four (year d) ++ "-"%char :: two (month d) ++ "-"%char :: two (day d)
     ++ "T"%char :: two (hour d) ++ ":"%char :: two (minute d)
     ++ ":"%char :: two (second d)).

(** The number of colons of a string. *)
Definition colons (s : list ascii) : nat :=
  List.length (filter (fun c => Ascii.eqb c ":") s).

End Timestamp.

(** ** The strings [strptime] takes *)

Module Shape.

Import Timestamp.

(** The text of a field of one or two characters: the number [n] written
    with one digit, with two digits, or, where [blank] allows it, with a
    blank and a digit. *)
Definition written (lo hi : nat) (blank : bool) (cs : list ascii) (n : nat)
    : Prop :=
  (lo <= n <= 9 /\ cs = [digit_char n])
  \/ (lo <= n <= hi /\ cs = two n)
  \/ (blank = true /\ 1 <= n <= 9 /\ cs = [" "%char; digit_char n]).

(** [s] writes the date and time [d]: four digits for the year, the other
    fields with one or two digits (the day also with a blank and a digit),
    [-], [-], [T] or [t], [:] and [:] between them, nothing before and
    nothing after, and [d] is a date and time of the calendar. *)
Definition takes (s : string) (d : datetime) : Prop :=
  exists mc dc t Hc Mc Sc,
    list_ascii_of_string s
    = four (year d) ++ "-"%char :: mc ++ "-"%char :: dc ++ t :: Hc
      ++ ":"%char :: Mc ++ ":"%char :: Sc
    /\ (t = "T"%char \/ t = "t"%char)
    /\ written 1 12 false mc (month d)
    /\ written 1 31 true dc (day d)
    /\ written 0 23 false Hc (hour d)
    /\ written 0 59 false Mc (minute d)
    /\ written 0 59 false Sc (second d)
    /\ valid d = true.

End Shape.

(** ** Reading traces *)

Definition is_rename_of (src dst : path) (ev : event) : bool :=
  match ev with
  | (CRename s d, _) => path_eqb s src && path_eqb d dst
  | _ => false
  end.

(** How often the rename of [src] onto [dst] was tried. *)
Definition attempts (src dst : path) (t : trace) : nat :=
  List.length (filter (is_rename_of src dst) t).

(** The naps taken, in order. *)
Definition sleeps (t : trace) : list Q :=
  flat_map (fun ev : event =>
              match ev with (CSleep q, _) => [q] | _ => [] end) t.

Definition is_rmdir (ev : event) : bool :=
  match ev with (CRmdir _, _) => true | _ => false end.

Definition is_unlink (ev : event) : bool :=
  match ev with (CUnlink _, _) => true | _ => false end.

(** The nap before the removal that follows failure number [rename_tries]
    (counted from zero): none after the first failure. *)
Definition pause (rename_tries : nat) : trace :=
  if 0 <? rename_tries then [(CSleep (backoff rename_tries), RUnit)] else [].

(** The runs of the retry loop with [left] attempts to go, by outcome and
    trace: out of attempts; renamed; a rename error that is no occupancy
    error; a removal that fails; or a removal and what the remaining
    attempts do. *)
Inductive loop_run (src dst : path) : nat -> outcome unit -> trace -> Prop :=
| LoopExhausted :
    loop_run src dst 0 (Done tt) []
| LoopRenamed left :
    loop_run src dst (S left) (Done tt) [(CRename src dst, RUnit)]
| LoopFatal left e :
    occupied e = false ->
    loop_run src dst (S left) (Raised (OSError e))
      [(CRename src dst, RErr e)]
| LoopRemovalFails left e e' :
    occupied e = true ->
    loop_run src dst (S left) (Raised (OSError e'))
      ((CRename src dst, RErr e) :: pause (10 - S left)
       ++ [(CRmtree false dst, RErr e')])
| LoopRetry left e o t :
    occupied e = true ->
    loop_run src dst left o t ->
    loop_run src dst (S left) o
      ((CRename src dst, RErr e) :: pause (10 - S left)
       ++ (CRmtree false dst, RUnit) :: t).

(** The [except OSError] clause of [handle_file] applied to an outcome. *)
Definition absorb_ENOENT (o : outcome unit) : outcome unit :=
  match o with
  | Raised (OSError ENOENT) => Done tt
  | _ => o
  end.

Definition swallow {W} (r : outcome unit * W * trace)
    : outcome unit * W * trace :=
  let '(o, w, t) := r in (absorb_ENOENT o, w, t).

(** A run that comes after the calls [t0]. *)
Definition after {W A} (t0 : trace) (r : outcome A * W * trace)
    : outcome A * W * trace :=
  let '(o, w, t) := r in (o, w, t0 ++ t).

(** The rename attempts that met an occupied destination. *)
Definition occupancy_failures (t : trace) : nat :=
  List.length
    (filter (fun ev : event =>
               match ev with
               | (CRename _ _, RErr e) => occupied e
               | _ => false
               end) t).

(** Whether a removal by [rmtree] without [ignore_errors] failed. *)
Definition removal_failed (t : trace) : bool :=
  existsb (fun ev : event =>
             match ev with
             | (CRmtree false _, RErr _) => true
             | _ => false
             end) t.

(** ** Scenes: concrete trees and neighbours *)

Module Scenes.

Import TreeFS.

(** A freshly built tree waiting to be published as [cache]. *)
Definition staged : node :=
  Dir 0 [("new", Dir 0 [("tile", File 5 "x")])].

(** The same next to the tree published before. *)
Definition published : node :=
  Dir 0 [("cache", Dir 0 [("old", File 1 "o")]);
         ("new", Dir 0 [("tile", File 5 "x")])].

(** A neighbour who puts a directory with a lock file at [p] whenever [p]
    is free. *)
Definition squatter (p : path) : nat -> node -> node :=
  fun _ f =>
    match resolve p f with
    | inl ENOENT =>
        match at_parent p (fun name es =>
                inr (set_entry name (Dir 0 [("lock", File 0 "")]) es)) f with
        | inr f' => f'
        | inl _ => f
        end
    | _ => f
    end.

(** A neighbour who deletes the tree at [p]. *)
Definition sweeper (p : path) : nat -> node -> node :=
  fun _ f => snd (fs_rmtree p f).

(** A neighbour who acts only after the call numbered [k]. *)
Definition only_after (k : nat) (act : nat -> node -> node)
    : nat -> node -> node :=
  fun n f => if n =? k then act n f else f.

(** A cache directory [d]: a tile directory with an old and a young file,
    and an empty directory. *)
Definition cache_tree : node :=
  Dir 0 [("d", Dir 0 [("a", Dir 0 [("f", File 1 "x"); ("g", File 9 "y")]);
                      ("e", Dir 0 [])])].

(** The same with a symbolic link to a directory elsewhere. *)
Definition linked_tree : node :=
  Dir 0 [("d", Dir 0 [("a", Dir 0 [("f", File 1 "x"); ("g", File 9 "y")]);
                      ("l", Link 0 ToDir);
                      ("e", Dir 0 [])])].

(** A cache directory holding one old file. *)
Definition flat_tree : node :=
  Dir 0 [("d", Dir 0 [("f", File 1 "x")])].

(** A device with three bytes left; [random] will give 42. *)
Definition nearly_full : world :=
  {| fs := Dir 0 [("d", Dir 0 [("t", File 1 "old")])];
     tick := 0; free := 3; fds := []; entropy := [42%Z] |}.

(** Enough room; [random] will give 42. *)
Definition roomy : world :=
  {| fs := Dir 0 [("d", Dir 0 [("t", File 1 "old")])];
     tick := 0; free := 4096; fds := []; entropy := [42%Z] |}.

(** The date of the doctest of [timestamp_from_isodate]. *)
Definition doctest_date : Timestamp.datetime :=
  {| Timestamp.year := 2009; Timestamp.month := 6; Timestamp.day := 9;
     Timestamp.hour := 10; Timestamp.minute := 57; Timestamp.second := 0 |}.

(** A stale backup [cache.tmp] next to a freshly built tree, and no
    [cache]. *)
Definition stale : node :=
  Dir 0 [("cache.tmp", Dir 0 [("old", File 1 "o")]);
         ("new", Dir 0 [("tile", File 5 "x")])].

End Scenes.

(** ** What a run may call *)

(** Every event of every run of [m] satisfies [P]. *)
Definition emits {W A} (P : event -> Prop) (m : M W A) : Prop :=
  forall w, Forall P (snd (m w)).

(** The calls that take something away or change it. *)
Definition removes_below (directory : path) (ev : event) : Prop :=
  match fst ev with
  | CRemove p | CRmdir p | CRmtree _ p => TreeFS.is_prefix directory p = true
  | CRename _ _ | CUnlink _ | COpenExcl _ | COpenWb _ | CWrite _ _ => False
  | _ => True
  end.

(** No directory is removed. *)
Definition keeps_directories (ev : event) : Prop :=
  match fst ev with
  | CRmdir _ | CRmtree _ _ => False
  | _ => True
  end.

(** The sum of the naps of a trace, in seconds. *)
Definition total_sleep (t : trace) : Q :=
  fold_right Qplus (0 # 1)%Q (sleeps t).

(** The calls of [write_atomic] on a POSIX platform: but for the rename
    onto [filename], all that name a path name [path_tmp]. *)
Definition on_temporary (path_tmp filename : path) (ev : event) : Prop :=
  match fst ev with
  | CRandint lo hi => lo = 0%Z /\ hi = 999999%Z
  | COpenExcl p | CUnlink p => p = path_tmp
  | CRename p q => p = path_tmp /\ q = filename
  | CFdopen _ | CWrite _ _ | CClose _ => True
  | _ => False
  end.


(** ** Paths that have nothing to do with each other *)

(** Neither path is at or below the other. *)
Definition apart (p q : path) : bool :=
  negb (TreeFS.is_prefix p q) && negb (TreeFS.is_prefix q p).

(** ** More scenes *)

Module MoreScenes.

Import TreeFS.

(** A published tree, a backup kept by an earlier swap, and a freshly
    built tree. *)
Definition both : node :=
  Dir 0 [("cache", Dir 0 [("old", File 1 "o")]);
         ("cache.tmp", Dir 0 [("older", File 0 "n")]);
         ("new", Dir 0 [("tile", File 5 "x")])].

(** A temporary file of another writer under the name [random] will
    lead to. *)
Definition collision : world :=
  {| fs := Dir 0 [("d", Dir 0 [("t", File 1 "old");
                               ("t.tmp-42", File 2 "half")])];
     tick := 0; free := 4096; fds := []; entropy := [42%Z] |}.

End MoreScenes.

(** ** What the cleaning leaves of a tree *)

Module Cleaned.

Import TreeFS.

(** Lines 178 to 181: the file handler is called on a file with this
    modification time. *)
Definition expired (before_timestamp mtime : Z) : bool :=
  (before_timestamp =? 0)%Z || (mtime <? before_timestamp)%Z.

(** A tree after the cleaning, or [None] when nothing of it is left: the
    expired files and links are gone, and with [remove_empty_dirs] so are
    the directories left without entries. *)
Fixpoint sweep (before_timestamp : Z) (remove_empty_dirs : bool) (n : node)
    : option node :=
  match n with
  | File m _ | Link m _ => if expired before_timestamp m then None else Some n
  | Dir m es =>
      let kept :=
        (fix go (es : list (string * node)) : list (string * node) :=
           match es with
           | [] => []
           | (k, v) :: es' =>
               match sweep before_timestamp remove_empty_dirs v with
               | Some v' => (k, v') :: go es'
               | None => go es'
               end
           end) es in
      match kept with
      | [] => if remove_empty_dirs then None else Some (Dir m [])
      | _ :: _ => Some (Dir m kept)
      end
  end.

(** The entries of a directory after the cleaning. *)
Fixpoint sweep_entries (before_timestamp : Z) (remove_empty_dirs : bool)
    (es : entries) : entries :=
  match es with
  | [] => []
  | (k, v) :: es' =>
      match sweep before_timestamp remove_empty_dirs v with
      | Some v' => (k, v') :: sweep_entries before_timestamp
                                remove_empty_dirs es'
      | None => sweep_entries before_timestamp remove_empty_dirs es'
      end
  end.

(** The same for the entries with a selected name only. *)
Fixpoint sweep_where (sel : string -> bool) (before_timestamp : Z)
    (remove_empty_dirs : bool) (es : entries) : entries :=
  match es with
  | [] => []
  | (k, v) :: es' =>
      let rest := sweep_where sel before_timestamp remove_empty_dirs es' in
      if sel k then
        match sweep before_timestamp remove_empty_dirs v with
        | Some v' => (k, v') :: rest
        | None => rest
        end
      else (k, v) :: rest
  end.

(** One step of the walk: the entry named [c] has been dealt with. *)
Definition sweep_at (before_timestamp : Z) (remove_empty_dirs : bool)
    (es : entries) (c : string) : entries :=
  match assoc c es with
  | Some v =>
      match sweep before_timestamp remove_empty_dirs v with
      | Some v' => set_entry c v' es
      | None => remove_entry c es
      end
  | None => es
  end.

(** Nothing is left of the entries. *)
Definition nothing_left (es : entries) : bool :=
  match es with [] => true | _ :: _ => false end.

(** Some entry is no directory. *)
Definition has_files (es : entries) : bool :=
  existsb (fun kv => negb (is_dir (snd kv))) es.

(** Induction on trees, with the property known for the entries of a
    directory. *)
Fixpoint node_induction (P : node -> Prop)
    (HF : forall m c, P (File m c)) (HL : forall m t, P (Link m t))
    (HD : forall m es, Forall (fun kv => P (snd kv)) es -> P (Dir m es))
    (n : node) : P n :=
  match n with
  | File m c => HF m c
  | Link m t => HL m t
  | Dir m es =>
      HD m es
        ((fix go (es : list (string * node))
            : Forall (fun kv => P (snd kv)) es :=
            match es with
            | [] => Forall_nil _
            | kv :: es' =>
                Forall_cons kv (node_induction P HF HL HD (snd kv)) (go es')
            end) es)
  end.

(** What the walk of the directory at [p] leaves, with [fuel]: the
    directory swept, or its entry gone.  The root of the walk stays when it
    held no files. *)
Definition walk_sweeps (before_timestamp : Z) (remove_empty_dirs : bool)
    (directory : path) (fuel : nat) : Prop :=
  forall (p : path) (w : world) (m : Z) (es : entries),
    resolve p (fs w) = inr (Dir m es) ->
    plain (Dir m es) = true ->
    height (Dir m es) <= fuel ->
    List.length directory <= List.length p ->
    p <> [] ->
    exists f',
      runs (walk_bottom_up posix fuel p
              (visit posix directory before_timestamp remove_empty_dirs
                 (remove posix))) w tt f'
      /\ if remove_empty_dirs
            && nothing_left
                 (sweep_entries before_timestamp remove_empty_dirs es)
            && (negb (path_eqb p directory) || has_files es)
         then prune p (fs w) = inr f'
         else f' = graft p
                     (Dir m (sweep_entries before_timestamp
                               remove_empty_dirs es)) (fs w).

End Cleaned.

(** Splitting the membership of an event in a trace built from known
    calls into its cases, dropping those of another call or result. *)
Ltac in_cases H :=
  repeat (cbn [In app] in H;
          match type of H with
          | _ \/ _ => destruct H as [H|H]
          | In _ (_ ++ _) => apply in_app_or in H
          | False => destruct H
          | (_, _) = (_, _) =>
              first [discriminate H | inversion H; subst; clear H]
          end).

(** Closing an equation between two runs that differ in how their traces
    are bracketed. *)
Ltac tidy := cbn; rewrite ?app_nil_r, <- ?app_assoc; reflexivity.

(** Evaluating the digits met in a goal. *)
Ltac digits :=
  repeat match goal with
         | |- context [Timestamp.digit_of ?c] =>
             let v := eval vm_compute in (Timestamp.digit_of c) in
             change (Timestamp.digit_of c) with v
         end.

(** ** Lemmas on the retry loop *)

Section Loop.

Context {W : Type} (os : OS W).

Lemma rename_loop_run (src dst : path) (left : nat) (w : W) :
  loop_run src dst left (fst (fst (rename_loop os left src dst w)))
    (snd (rename_loop os left src dst w)).
Proof.
  revert w; induction left as [|left IH]; intro w.
  - constructor.
  - cbn [rename_loop].
    remember (10 - S left) as tries eqn:Htries.
    unfold bind at 1, catch_OSError, bind, rename, fallible, ret_.
    destruct (os_rename os src dst w) as [[e|[]] w1]; cbn -[Nat.ltb].
    + destruct (occupied e) eqn:Hocc.
      * assert (Hp : forall w0,
                  exists w0' , when_ (0 <? tries) (sleep os (backoff tries)) w0
                               = (Done tt, w0', pause tries)).
        { intro w0. unfold when_, pause, sleep, total.
          destruct (0 <? tries); eexists; reflexivity. }
        destruct (Hp w1) as [w1' ->]. cbn -[Nat.ltb].
        unfold rmtree, fallible.
        destruct (shutil_rmtree os false dst w1') as [[e'|[]] w2];
          cbn -[Nat.ltb]; subst tries.
        -- apply (LoopRemovalFails src dst left e e' Hocc).
        -- specialize (IH w2).
           destruct (rename_loop os left src dst w2) as [[o w3] t3].
           cbn -[Nat.ltb Nat.sub] in *.
           rewrite <- app_assoc. apply (LoopRetry e Hocc IH).
      * unfold throw; cbn. now constructor.
    + constructor.
Qed.

End Loop.

(** ** swap_dir: exhausted retries, backoff, backup removal *)

Section SwapDir.

Context {W : Type} (os : OS W).

Lemma occupancy_failures_app (t1 t2 : trace) :
  occupancy_failures (t1 ++ t2)
  = occupancy_failures t1 + occupancy_failures t2.
Proof.
  unfold occupancy_failures. now rewrite filter_app, length_app.
Qed.

Lemma occupancy_failures_pause (n : nat) : occupancy_failures (pause n) = 0.
Proof. unfold pause. now destruct (0 <? n). Qed.

Lemma removal_failed_app (t1 t2 : trace) :
  removal_failed (t1 ++ t2) = removal_failed t1 || removal_failed t2.
Proof. unfold removal_failed. apply existsb_app. Qed.

Lemma removal_failed_pause (n : nat) : removal_failed (pause n) = false.
Proof. unfold pause. now destruct (0 <? n). Qed.

Lemma In_pause (n : nat) (ev : event) :
  In ev (pause n) -> ev = (CSleep (backoff n), RUnit).
Proof.
  unfold pause. destruct (0 <? n); cbn; intuition.
Qed.

(** When every attempt the loop has left meets an occupied destination and
    every removal works, the loop ends without an exception. *)
Lemma loop_run_exhausted (src dst : path) (left : nat) (o : outcome unit)
    (t : trace) :
  loop_run src dst left o t ->
  occupancy_failures t = left ->
  removal_failed t = false ->
  o = Done tt.
Proof.
  induction 1 as [|left|left e He|left e e' He|left e o t He Hrun IH];
    intros Hcount Hrm.
  - reflexivity.
  - reflexivity.
  - cbn in Hcount. rewrite He in Hcount. discriminate.
  - exfalso. change (removal_failed ([(CRename src dst, RErr e)]
      ++ pause (10 - S left) ++ [(CRmtree false dst, RErr e')]) = false)
      in Hrm.
    rewrite !removal_failed_app, removal_failed_pause in Hrm.
    cbn in Hrm. discriminate.
  - apply IH.
    + change (occupancy_failures ([(CRename src dst, RErr e)]
        ++ pause (10 - S left) ++ [(CRmtree false dst, RUnit)] ++ t)
        = S left) in Hcount.
      rewrite !occupancy_failures_app, occupancy_failures_pause in Hcount.
      cbn in Hcount. rewrite He in Hcount. cbn in Hcount. lia.
    + change (removal_failed ([(CRename src dst, RErr e)]
        ++ pause (10 - S left) ++ [(CRmtree false dst, RUnit)] ++ t)
        = false) in Hrm.
      rewrite !removal_failed_app, removal_failed_pause in Hrm.
      cbn in Hrm. exact Hrm.
Qed.

(** For any operating system: ten occupied attempts, each followed by a
    removal that works, and [_force_rename_dir] returns as if it had
    renamed. *)
Lemma force_rename_dir_exhausted (src dst : path) (w : W) :
  occupancy_failures (snd (_force_rename_dir os src dst w)) = 10 ->
  removal_failed (snd (_force_rename_dir os src dst w)) = false ->
  fst (fst (_force_rename_dir os src dst w)) = Done tt.
Proof.
  intros Hc Hr.
  exact (loop_run_exhausted (rename_loop_run os src dst 10 w) Hc Hr).
Qed.

(** A failed removal ends the loop with that very error. *)
Lemma loop_run_removal_error (src dst p : path) (left : nat)
    (o : outcome unit) (t : trace) (e : errno) :
  loop_run src dst left o t ->
  In (CRmtree false p, RErr e) t ->
  o = Raised (OSError e).
Proof.
  induction 1 as [|left|left e0 He|left e0 e' He|left e0 o t He Hrun IH];
    intro Hin.
  - destruct Hin.
  - destruct Hin as [Hin|[]]; discriminate.
  - destruct Hin as [Hin|[]]; discriminate.
  - destruct Hin as [Hin|Hin]; [discriminate|].
    apply in_app_or in Hin. destruct Hin as [Hin|[Hin|[]]].
    + apply In_pause in Hin. discriminate.
    + now inversion Hin.
  - destruct Hin as [Hin|Hin]; [discriminate|].
    apply in_app_or in Hin. destruct Hin as [Hin|[Hin|Hin]].
    + apply In_pause in Hin. discriminate.
    + discriminate.
    + now apply IH.
Qed.

Lemma sleeps_app (t1 t2 : trace) : sleeps (t1 ++ t2) = sleeps t1 ++ sleeps t2.
Proof. unfold sleeps. apply flat_map_app. Qed.

Lemma attempts_app (src dst : path) (t1 t2 : trace) :
  attempts src dst (t1 ++ t2) = attempts src dst t1 + attempts src dst t2.
Proof. unfold attempts. now rewrite filter_app, length_app. Qed.

Lemma attempts_pause (src dst : path) (n : nat) :
  attempts src dst (pause n) = 0.
Proof. unfold pause. now destruct (0 <? n). Qed.

Lemma sleeps_pause (n : nat) :
  sleeps (pause n) = if 0 <? n then [backoff n] else [].
Proof. unfold pause. now destruct (0 <? n). Qed.

(** The naps of a run with [left] attempts to go: one of [backoff i]
    seconds for each occupied attempt [i] but attempt zero. *)
Lemma loop_run_sleeps (src dst : path) (left : nat) (o : outcome unit)
    (t : trace) :
  loop_run src dst left o t ->
  left <= 10 ->
  sleeps t = map backoff
               (filter (fun i => 0 <? i)
                  (seq (10 - left) (occupancy_failures t)))
  /\ occupancy_failures t <= left
  /\ attempts src dst t <= left.
Proof.
  assert (Hself : path_eqb src src = true /\ path_eqb dst dst = true).
  { unfold path_eqb. split.
    - destruct (list_eq_dec string_dec src src); congruence.
    - destruct (list_eq_dec string_dec dst dst); congruence. }
  destruct Hself as [Hs Hd].
  induction 1 as [|left|left e He|left e e' He|left e o t He Hrun IH];
    intro Hle.
  - cbn. repeat split; lia.
  - cbn. rewrite Hs, Hd. cbn. repeat split; lia.
  - cbn. rewrite He, Hs, Hd. cbn. repeat split; lia.
  - change ((CRename src dst, RErr e) :: pause (10 - S left)
            ++ [(CRmtree false dst, RErr e')])
      with ([(CRename src dst, RErr e)] ++ pause (10 - S left)
            ++ [(CRmtree false dst, RErr e')]).
    rewrite !sleeps_app, !occupancy_failures_app, !attempts_app,
      sleeps_pause, occupancy_failures_pause, attempts_pause.
    cbn -[Nat.sub Nat.ltb]. rewrite He, Hs, Hd.
    cbn -[Nat.sub Nat.ltb].
    destruct (0 <? 10 - S left); cbn -[Nat.sub Nat.ltb];
      repeat split; try lia; now rewrite app_nil_r.
  - destruct IH as (IHs & IHc & IHa); [lia|].
    change ((CRename src dst, RErr e) :: pause (10 - S left)
            ++ (CRmtree false dst, RUnit) :: t)
      with ([(CRename src dst, RErr e)] ++ pause (10 - S left)
            ++ [(CRmtree false dst, RUnit)] ++ t).
    rewrite !sleeps_app, !occupancy_failures_app, !attempts_app,
      sleeps_pause, occupancy_failures_pause, attempts_pause.
    cbn -[Nat.sub Nat.ltb]. rewrite He, Hs, Hd.
    cbn -[Nat.sub Nat.ltb]. rewrite IHs.
    repeat split; try lia.
    replace (S (10 - S left)) with (10 - left) by lia.
    now destruct (0 <? 10 - S left).
Qed.

End SwapDir.

Lemma filter_positive_seq (k : nat) :
  filter (fun i => 0 <? i) (seq 0 k) = seq 1 (k - 1).
Proof.
  destruct k as [|k]; [reflexivity|].
  cbn [seq filter Nat.ltb Nat.leb]. rewrite Nat.sub_succ, Nat.sub_0_r.
  apply forallb_filter_id. apply forallb_forall.
  intros i Hi. apply in_seq in Hi. destruct i; [lia|reflexivity].
Qed.

(** C1. The run the claim is about, on a tree: a neighbour re-occupies
    [cache] after every removal, all ten renames fail with ENOTEMPTY, and
    [swap_dir] returns normally; the new tree was not published and the
    caller is not told. *)
Theorem swap_dir_gives_up_without_error :
  let r := swap_dir (TreeFS.TreeOS (Scenes.squatter ["cache"]) false)
             ["new"] ["cache"] false ".tmp" (TreeFS.mk Scenes.staged) in
  fst (fst r) = Done tt
  /\ attempts ["new"] ["cache"] (snd r) = 10
  /\ occupancy_failures (snd r) = 10
  /\ TreeFS.resolve ["new"] (TreeFS.fs (snd (fst r)))
     = inr (TreeFS.Dir 0 [("tile", TreeFS.File 5 "x")])
  /\ TreeFS.resolve ["cache"; "tile"] (TreeFS.fs (snd (fst r)))
     = inl ENOENT.
Proof. vm_compute. repeat split. Qed.

(** C2, as stated, fails: one occupied attempt, then a successful one, and
    no nap between the two. *)
Lemma swap_dir_first_retry_without_sleep :
  let r := swap_dir
             (TreeFS.TreeOS (Scenes.only_after 0 (Scenes.squatter ["cache"]))
                false)
             ["new"] ["cache"] false ".tmp" (TreeFS.mk Scenes.staged) in
  fst (fst r) = Done tt
  /\ attempts ["new"] ["cache"] (snd r) = 2
  /\ occupancy_failures (snd r) = 1
  /\ sleeps (snd r) = [].
Proof. vm_compute. repeat split. Qed.

(** C2 (amended). Every run of [_force_rename_dir], on any operating
    system, is a run of the retry loop as [loop_run] describes it: an
    occupied rename is followed by the recursive removal of the destination
    and the next attempt, a rename failing otherwise ends the run at once
    with that error; at most ten renames are tried; and the naps are
    [2^i / 100] seconds after failure [i] for [i] from 1 on, none after the
    first failure. *)
Theorem force_rename_dir_retries {W : Type} (os : OS W) (src dst : path)
    (w : W) :
  let r := _force_rename_dir os src dst w in
  loop_run src dst 10 (fst (fst r)) (snd r)
  /\ attempts src dst (snd r) <= 10
  /\ sleeps (snd r) = map backoff (seq 1 (occupancy_failures (snd r) - 1)).
Proof.
  cbv zeta. unfold _force_rename_dir.
  pose proof (rename_loop_run os src dst 10 w) as Hrun.
  destruct (loop_run_sleeps Hrun (Nat.le_refl 10)) as (Hs & _ & Ha).
  repeat split; try assumption.
  rewrite Hs, Nat.sub_diag. now rewrite filter_positive_seq.
Qed.

(** C3, as stated, fails: the backup is there when [swap_dir] looks, a
    neighbour deletes it before [rmtree] starts, and the caller gets
    ENOENT. *)
Lemma swap_dir_vanished_backup_raises :
  let r := swap_dir
             (TreeFS.TreeOS
                (Scenes.only_after 3 (Scenes.sweeper ["cache.tmp"])) false)
             ["new"] ["cache"] false ".tmp" (TreeFS.mk Scenes.published) in
  fst (fst r) = Raised (OSError ENOENT)
  /\ snd r = [(CExists ["cache"], RBool true);
              (CRename ["cache"] ["cache.tmp"], RUnit);
              (CRename ["new"] ["cache"], RUnit);
              (CExists ["cache.tmp"], RBool true);
              (CRmtree false ["cache.tmp"], RErr ENOENT)].
Proof. vm_compute. split; reflexivity. Qed.

(** Wherever a failed removal of the backup shows in a run of [swap_dir]
    with [keep_old] false, its error is what the caller gets. *)
Lemma swap_dir_rmtree_error_is_raised {W : Type} (os : OS W)
    (src dst : path) (backup_ext : string) (w : W) (e : errno) :
  In (CRmtree false (add_ext dst backup_ext), RErr e)
     (snd (swap_dir os src dst false backup_ext w)) ->
  fst (fst (swap_dir os src dst false backup_ext w)) = Raised (OSError e).
Proof.
  unfold swap_dir, _force_rename_dir.
  pose proof (rename_loop_run os src dst 10) as Hrun.
  generalize dependent (rename_loop os 10 src dst). intros loop Hrun.
  set (tmp := add_ext dst backup_ext).
  unfold bind, path_exists, total, when_, rename, rmtree, fallible, ret_.
  destruct (os_path_exists os dst w) as [[] w1]; cbn;
    [destruct (os_rename os dst tmp w1) as [[e1|[]] w2]; cbn|];
    try (intro H; in_cases H; fail);
    match goal with
    | |- context [loop ?x] =>
        specialize (Hrun x); destruct (loop x) as [[o w3] t3]
    end;
    cbn in Hrun; destruct o as [[]|x|]; cbn;
    try (intro H; in_cases H; exact (loop_run_removal_error _ _ Hrun H));
    (destruct (os_path_exists os tmp w3) as [[] w4]; cbn;
     [destruct (shutil_rmtree os false tmp w4) as [[e2|[]] w5]; cbn|]);
    intro H; in_cases H;
    try (pose proof (loop_run_removal_error _ _ Hrun H) as Hx; discriminate Hx);
    reflexivity.
Qed.

(** C3 (amended). With [keep_old] false, on any operating system: when
    the renames of lines 100 to 103 have gone through and the backup path
    is then found to exist, the last call of [swap_dir] is
    [shutil.rmtree] on the backup path, without [ignore_errors]; [swap_dir]
    returns when that call returns and raises its error when it fails,
    whatever the error is.  And wherever a failed removal of the backup
    shows in a run, its error is what the caller gets: the removal is not
    best effort. *)
Theorem swap_dir_backup_removal_error_propagates {W : Type} (os : OS W)
    (src dst : path) (backup_ext : string) (w : W) :
  let tmp := add_ext dst backup_ext in
  let r := swap_dir os src dst false backup_ext w in
  (forall w1 t1 w2,
     (e <- path_exists os dst ;;
      when_ e (rename os dst tmp) ;;;
      _force_rename_dir os src dst) w = (Done tt, w1, t1) ->
     os_path_exists os tmp w1 = (true, w2) ->
     r = match shutil_rmtree os false tmp w2 with
         | (inl e, w3) =>
             (Raised (OSError e), w3,
              t1 ++ [(CExists tmp, RBool true); (CRmtree false tmp, RErr e)])
         | (inr _, w3) =>
             (Done tt, w3,
              t1 ++ [(CExists tmp, RBool true); (CRmtree false tmp, RUnit)])
         end)
  /\ (forall e, In (CRmtree false tmp, RErr e) (snd r) ->
                fst (fst r) = Raised (OSError e)).
Proof.
  cbv zeta. split.
  - intros w1 t1 w2. unfold swap_dir.
    generalize dependent (_force_rename_dir os src dst). intros loop.
    set (tmp := add_ext dst backup_ext).
    unfold bind, path_exists, total, when_, rename, rmtree, fallible, ret_.
    destruct (os_path_exists os dst w) as [[] w0]; cbn;
      [destruct (os_rename os dst tmp w0) as [[e1|[]] w0']; cbn|];
      try (intro H; discriminate H);
      match goal with
      | |- context [loop ?x] => destruct (loop x) as [[o w3] t3]
      end;
      destruct o as [[]|x|]; cbn; intro H; try discriminate H;
      inversion H; subst; clear H; intro H; rewrite H; cbn;
      destruct (shutil_rmtree os false tmp w2) as [[e2|[]] w5]; cbn;
      rewrite <- ?app_assoc; reflexivity.
  - intro e. apply swap_dir_rmtree_error_is_raised.
Qed.

Lemma swap_dir_backup_removal_error_propagates_witness :
  swap_dir
    (TreeFS.TreeOS (Scenes.only_after 3 (Scenes.sweeper ["cache.tmp"]))
       false)
    ["new"] ["cache"] false ".tmp" (TreeFS.mk Scenes.published)
  = (Raised (OSError ENOENT),
     {| TreeFS.fs := TreeFS.Dir 0
                       [("cache", TreeFS.Dir 0 [("tile", TreeFS.File 5 "x")])];
        TreeFS.tick := 5; TreeFS.free := 4096; TreeFS.fds := [];
        TreeFS.entropy := [] |},
     [(CExists ["cache"], RBool true);
      (CRename ["cache"] ["cache.tmp"], RUnit);
      (CRename ["new"] ["cache"], RUnit);
      (CExists ["cache.tmp"], RBool true);
      (CRmtree false ["cache.tmp"], RErr ENOENT)]).
Proof.
  rewrite (proj1 (swap_dir_backup_removal_error_propagates
                    (TreeFS.TreeOS
                       (Scenes.only_after 3 (Scenes.sweeper ["cache.tmp"]))
                       false)
                    ["new"] ["cache"] ".tmp" (TreeFS.mk Scenes.published))
             _ _ _ eq_refl eq_refl).
  reflexivity.
Defined.

(** ** cleanup_directory: one file, one directory *)

Section Cleaner.

Context {W : Type} (os : OS W).

(** One file of the general walk.  With a cutoff of zero the handler is
    applied first thing, whatever the file; with another cutoff the time of
    last modification is fetched and the handler applied exactly when that
    time is below the cutoff, the world being left as [lstat] left it
    otherwise.  Of what the handler or [lstat] raise, [OSError] with ENOENT
    ends the file quietly and everything else reaches the caller.  (With a
    cutoff of zero the time is fetched as well, after the handler: for a
    file the handler removed that is the ENOENT swallowed here.) *)
Lemma handle_file_cases (before_timestamp : Z)
    (file_handler : path -> M W unit) (filename : path) (w : W) :
  (before_timestamp = 0%Z ->
   handle_file os before_timestamp file_handler filename w =
   match file_handler filename w with
   | (Done _, w1, t1) =>
       match os_lstat_mtime os filename w1 with
       | (inl e, w2) =>
           (absorb_ENOENT (Raised (OSError e)), w2,
            t1 ++ [(CLstat filename, RErr e)])
       | (inr mtime, w2) =>
           if (mtime <? 0)%Z
           then after (t1 ++ [(CLstat filename, RInt mtime)])
                  (swallow (file_handler filename w2))
           else (Done tt, w2, t1 ++ [(CLstat filename, RInt mtime)])
       end
   | (o, w1, t1) => (absorb_ENOENT o, w1, t1)
   end)
  /\
  (before_timestamp <> 0%Z ->
   handle_file os before_timestamp file_handler filename w =
   match os_lstat_mtime os filename w with
   | (inl e, w1) =>
       (absorb_ENOENT (Raised (OSError e)), w1, [(CLstat filename, RErr e)])
   | (inr mtime, w1) =>
       if (mtime <? before_timestamp)%Z
       then after [(CLstat filename, RInt mtime)]
              (swallow (file_handler filename w1))
       else (Done tt, w1, [(CLstat filename, RInt mtime)])
   end).
Proof.
  split; intro Hts.
  - subst before_timestamp.
    unfold handle_file, catch_OSError, bind, when_, lstat_mtime, fallible,
      throw, ret_, after, swallow, absorb_ENOENT.
    cbn.
    destruct (file_handler filename w) as [[[[]|x|] w1] t1]; cbn.
    + destruct (os_lstat_mtime os filename w1) as [[e|m] w2]; cbn.
      * destruct e; tidy.
      * destruct (m <? 0)%Z; cbn; [|tidy].
        destruct (file_handler filename w2) as [[[[]|x|] w3] t3]; [tidy| |tidy].
        destruct x as [e| | |]; [|tidy..]. destruct e; tidy.
    + destruct x as [e| | |]; [|tidy..]. destruct e; tidy.
    + reflexivity.
  - apply Z.eqb_neq in Hts.
    unfold handle_file, catch_OSError, bind, when_, lstat_mtime, fallible,
      throw, ret_, after, swallow, absorb_ENOENT.
    rewrite Hts. cbn.
    destruct (os_lstat_mtime os filename w) as [[e|m] w1]; cbn.
    + destruct e; tidy.
    + destruct (m <? before_timestamp)%Z; cbn; [|tidy].
      destruct (file_handler filename w1) as [[[[]|x|] w3] t3]; [tidy| |tidy].
      destruct x as [e| | |]; [|tidy..]. destruct e; tidy.
Qed.

Lemma path_eqb_refl (p : path) : path_eqb p p = true.
Proof. unfold path_eqb. destruct (list_eq_dec string_dec p p); congruence. Qed.

(** C6 (amended). With [remove_empty_dirs] true, on any operating system.
    A directory other than the root that lists no entries, when the walk
    reaches it and again when the loop body looks, is removed there and
    then, and nothing else is done for it (no [lstat], no handler).  More
    generally the loop body, given a directory other than the root with no
    files, whatever directories the walk listed in it, removes it there and
    then when it lists no entries at that moment, and leaves it alone when
    it lists some.  For the root the loop body calls no [rmdir] when the
    root lists no files; when the root lists files and they have been dealt
    with, the loop body goes on to the removal attempt on the root, inside
    the walk; and a walk that ran through is followed by the removal
    attempt on the root. *)
Theorem empty_directory_removed_root_left_for_last (directory : path)
    (before_timestamp : Z) (file_handler : path -> M W unit) :
  (forall fuel dirpath w w1 w2,
     path_eqb dirpath directory = false ->
     os_listdir os dirpath w = (inr [], w1) ->
     os_listdir os dirpath w1 = (inr [], w2) ->
     walk_bottom_up os (S fuel) dirpath
       (visit os directory before_timestamp true file_handler) w
     = after [(CListdir dirpath, RNames []); (CListdir dirpath, RNames [])]
         (rmdir os dirpath w2))
  /\
  (forall dirpath dirnames w w1,
     path_eqb dirpath directory = false ->
     os_listdir os dirpath w = (inr [], w1) ->
     visit os directory before_timestamp true file_handler dirpath dirnames
       [] w
     = after [(CListdir dirpath, RNames [])] (rmdir os dirpath w1))
  /\
  (forall dirpath dirnames w w1 name names,
     os_listdir os dirpath w = (inr (name :: names), w1) ->
     visit os directory before_timestamp true file_handler dirpath dirnames
       [] w
     = (Done tt, w1, [(CListdir dirpath, RNames (name :: names))]))
  /\
  (forall dirnames w,
     filter is_rmdir
       (snd (visit os directory before_timestamp true file_handler
               directory dirnames [] w)) = [])
  /\
  (forall dirnames name names w w1 t1,
     for_each (name :: names)
       (fun filename =>
          handle_file os before_timestamp file_handler
            (join directory filename)) w = (Done tt, w1, t1) ->
     visit os directory before_timestamp true file_handler directory
       dirnames (name :: names) w
     = after t1 (remove_dir_if_emtpy os directory w1))
  /\
  (forall fuel w w1 w2 t2,
     os_path_exists os directory w = (true, w1) ->
     walk_bottom_up os fuel directory
       (visit os directory before_timestamp true file_handler) w1
     = (Done tt, w2, t2) ->
     general_walk os fuel directory before_timestamp true file_handler w
     = after ((CExists directory, RBool true) :: t2)
         (remove_dir_if_emtpy os directory w2)).
Proof.
  repeat split.
  - intros fuel dirpath w w1 w2 Hne H1 H2.
    cbn [walk_bottom_up].
    unfold catch_OSError, bind, listdir, fallible, ret_, after.
    rewrite H1. cbn.
    unfold bind, listdir, fallible, ret_, when_, rmdir.
    rewrite H2, Hne. cbn. unfold rmdir, fallible.
    destruct (os_rmdir os dirpath w2) as [[e|[]] w3]; tidy.
  - intros dirpath dirnames w w1 Hne H1.
    unfold visit, bind, listdir, fallible, ret_, when_, after.
    rewrite H1, Hne. cbn. unfold rmdir, fallible.
    destruct (os_rmdir os dirpath w1) as [[e|[]] w3]; reflexivity.
  - intros dirpath dirnames w w1 name names H1.
    unfold visit, bind, listdir, fallible, ret_, when_.
    rewrite H1. cbn. reflexivity.
  - intros dirnames w.
    unfold visit, bind, listdir, fallible, ret_, when_.
    rewrite path_eqb_refl.
    destruct (os_listdir os directory w) as [[e|names] w1]; cbn;
      [reflexivity|].
    rewrite andb_false_r. reflexivity.
  - intros dirnames name names w w1 t1 H.
    unfold visit, bind at 1. rewrite H. cbn [when_]. unfold after.
    destruct (remove_dir_if_emtpy os directory w1) as [[o w3] t3].
    reflexivity.
  - intros fuel w w1 w2 t2 Hex Hwalk.
    unfold general_walk, bind, path_exists, total, when_, after.
    rewrite Hex. cbn. unfold bind. rewrite Hwalk.
    destruct (remove_dir_if_emtpy os directory w2) as [[o w3] t3].
    reflexivity.
Qed.

(** Whenever [write_atomic] ends in an [IOError] on a POSIX platform, it has
    not tried to unlink its temporary file. *)
Lemma write_atomic_IOError_no_unlink (filename : path) (data : string)
    (w : W) (e : errno) :
  platform_win os = false ->
  fst (fst (write_atomic os filename data w)) = Raised (IOError e) ->
  filter is_unlink (snd (write_atomic os filename data w)) = [].
Proof.
  intro Hp. unfold write_atomic. rewrite Hp. cbn [negb].
  unfold bind, catch_OSError, randint, total, open_excl, fdopen, with_file,
    write, close, rename, unlink, fallible, throw, ret_.
  destruct (random_randint os 0 999999 w) as [n w0].
  remember (add_ext filename (".tmp-" ++ str n)%string) as path_tmp.
  cbn.
  destruct (os_open_excl os path_tmp w0) as [[e1|fd] w1]; cbn;
    [|destruct (os_fdopen os fd w1) as [[e2|[]] w2]; cbn;
      [|destruct (file_write os fd data w2) as [[e3|[]] w3]; cbn;
        destruct (file_close os fd w3) as [[e4|[]] w4]; cbn;
        try destruct (os_rename os path_tmp filename w4) as [[e5|[]] w5];
        cbn]];
    try match goal with
        | |- context [os_unlink os path_tmp ?x] =>
            destruct (os_unlink os path_tmp x) as [[e9|[]] w9]; cbn
        end;
    intro Hx; first [discriminate Hx | reflexivity].
Qed.

End Cleaner.

(** C6, as stated, fails: a root that holds an old file is removed by the
    walk itself, in the step that follows the files of the root; the
    removal after the walk finds nothing. *)
Lemma walk_removes_root_with_files :
  let walk := walk_bottom_up TreeFS.posix 5 ["d"]
                (visit TreeFS.posix ["d"] 5 true (remove TreeFS.posix))
                (TreeFS.mk Scenes.flat_tree) in
  let whole := cleanup_directory TreeFS.posix 5 ["d"] 5 true None
                 (TreeFS.mk Scenes.flat_tree) in
  fst (fst walk) = Done tt
  /\ filter is_rmdir (snd walk) = [(CRmdir ["d"], RUnit)]
  /\ TreeFS.resolve ["d"] (TreeFS.fs (snd (fst walk))) = inl ENOENT
  /\ filter is_rmdir (snd whole)
     = [(CRmdir ["d"], RUnit); (CRmdir ["d"], RErr ENOENT)].
Proof. vm_compute. repeat split. Qed.

Lemma empty_directory_removed_root_left_for_last_witness :
  walk_bottom_up TreeFS.posix 1 ["d"; "e"]
    (visit TreeFS.posix ["d"] 5 true (remove TreeFS.posix))
    (TreeFS.mk Scenes.cache_tree)
  = after [(CListdir ["d"; "e"], RNames []); (CListdir ["d"; "e"], RNames [])]
      (rmdir TreeFS.posix ["d"; "e"]
         (TreeFS.step TreeFS.quiet
            (TreeFS.step TreeFS.quiet (TreeFS.mk Scenes.cache_tree)
               Scenes.cache_tree)
            Scenes.cache_tree)).
Proof.
  refine (proj1 (empty_directory_removed_root_left_for_last TreeFS.posix
                   ["d"] 5 (remove TreeFS.posix))
            0 ["d"; "e"] _ _ _ _ _ _); reflexivity.
Defined.

(** C7. The run the claim is about, on a tree: three bytes are free, five
    are to be written; [write] raises [IOError], which [except OSError]
    does not catch in Python 2: the error reaches the caller, the target is
    as before, but the temporary file is still there and no [unlink] was
    tried. *)
Theorem write_atomic_leaves_temp_file_on_write_error :
  let r := write_atomic TreeFS.posix ["d"; "t"] "hello" Scenes.nearly_full in
  fst (fst r) = Raised (IOError ENOSPC)
  /\ filter is_unlink (snd r) = []
  /\ TreeFS.resolve ["d"; "t.tmp-42"] (TreeFS.fs (snd (fst r)))
     = inr (TreeFS.File 1 "")
  /\ TreeFS.resolve ["d"; "t"] (TreeFS.fs (snd (fst r)))
     = inr (TreeFS.File 1 "old").
Proof. vm_compute. repeat split. Qed.

(** ** cleanup_directory on a path that is not there *)

Section Missing.

Import TreeFS.

(** C9. On a tree nobody else touches, [cleanup_directory] of a path that
    does not exist returns without an exception, whatever the cutoff, the
    flag, the handler and the fuel; the tree is as before, and the only
    calls made are existence checks of that path. *)
Theorem cleanup_directory_missing_is_noop (fuel : nat) (directory : path)
    (before_timestamp : Z) (remove_empty_dirs : bool)
    (file_handler : option (path -> M world unit)) (w : world) :
  fs_exists directory (fs w) = false ->
  let r := cleanup_directory posix fuel directory before_timestamp
             remove_empty_dirs file_handler w in
  fst (fst r) = Done tt
  /\ fs (snd (fst r)) = fs w
  /\ Forall (fun ev => ev = (CExists directory, RBool false)) (snd r).
Proof.
  intro Hmiss. cbv zeta.
  unfold cleanup_directory, general_walk, bind, path_exists, total, when_,
    ret_.
  destruct file_handler as [h|]; cbn.
  - rewrite Hmiss. cbn. repeat split. repeat constructor.
  - destruct (before_timestamp =? 0)%Z, remove_empty_dirs; cbn;
      unfold quiet; rewrite ?Hmiss; cbn; unfold quiet; rewrite ?Hmiss; cbn;
      repeat split; repeat constructor.
Qed.

Lemma cleanup_directory_missing_is_noop_witness :
  fst (fst (cleanup_directory posix 0 ["nowhere"] 0 true None
              (mk Scenes.cache_tree))) = Done tt
  /\ fs (snd (fst (cleanup_directory posix 0 ["nowhere"] 0 true None
                     (mk Scenes.cache_tree)))) = Scenes.cache_tree
  /\ Forall (fun ev => ev = (CExists ["nowhere"], RBool false))
       (snd (cleanup_directory posix 0 ["nowhere"] 0 true None
               (mk Scenes.cache_tree))).
Proof.
  apply (cleanup_directory_missing_is_noop 0 ["nowhere"] 0 true None
           (mk Scenes.cache_tree)).
  reflexivity.
Defined.

End Missing.

(** ** timestamp_from_isodate *)

Section Isodate.

Import Timestamp.

Lemma digit_of_digit_char (n : nat) :
  digit_of (digit_char n) = Some (n mod 10).
Proof.
  assert (H : n mod 10 < 10) by (apply Nat.mod_upper_bound; lia).
  unfold digit_char. generalize dependent (n mod 10). intros k H.
  do 10 (destruct k as [|k]; [reflexivity|]). lia.
Qed.

Lemma is_digit_digit_char (n : nat) : is_digit (digit_char n) = true.
Proof. unfold is_digit. now rewrite digit_of_digit_char. Qed.

Lemma four_digits (y : nat) :
  y <= 99 * 101 ->
  10 * (10 * (10 * (10 * 0 + (y / 1000) mod 10) + (y / 100) mod 10)
        + (y / 10) mod 10) + y mod 10 = y.
Proof.
  intro H.
  pose proof (Nat.div_mod_eq y 10) as H1.
  pose proof (Nat.div_mod_eq (y / 10) 10) as H2.
  pose proof (Nat.div_mod_eq (y / 100) 10) as H3.
  pose proof (Nat.div_mod_eq (y / 1000) 10) as H4.
  assert (E1 : y / 100 = y / 10 / 10)
    by (rewrite Nat.Div0.div_div; reflexivity).
  assert (E2 : y / 1000 = y / 100 / 10)
    by (rewrite Nat.Div0.div_div; reflexivity).
  assert (E3 : y / 1000 / 10 = 0).
  { rewrite Nat.Div0.div_div. apply Nat.div_small. cbn. lia. }
  rewrite E3 in H4. rewrite <- E2 in H3. rewrite <- E1 in H2. lia.
Qed.

Section Directives.

Variables (R : Type) (k : nat -> list ascii -> option R).
Variables (rest : list ascii) (r : R).

Lemma directive_Y (y : nat) :
  y <= 99 * 101 -> k y rest = Some r ->
  directive re_Y k (four y ++ rest) = Some r.
Proof.
  intros Hy Hk. unfold re_Y, four. cbn [directive app match_alt].
  rewrite !digit_of_digit_char.
  assert (Hd : forall n, (0 <=? n mod 10) && (n mod 10 <=? 9) = true).
  { intro n. assert (n mod 10 < 10) by (apply Nat.mod_upper_bound; lia).
    apply andb_true_intro. split; apply Nat.leb_le; lia. }
  rewrite !Hd, (four_digits Hy), Hk. reflexivity.
Qed.

Lemma directive_m (v : nat) :
  1 <= v <= 12 -> k v rest = Some r ->
  directive re_m k (two v ++ rest) = Some r.
Proof.
  intros Hv Hk. unfold re_m, two.
  do 13 (destruct v as [|v];
         [try lia; cbn; digits; cbn; rewrite Hk; reflexivity|]); lia.
Qed.

Lemma directive_d (v : nat) :
  1 <= v <= 31 -> k v rest = Some r ->
  directive re_d k (two v ++ rest) = Some r.
Proof.
  intros Hv Hk. unfold re_d, two.
  do 32 (destruct v as [|v];
         [try lia; cbn; digits; cbn; rewrite Hk; reflexivity|]); lia.
Qed.

Lemma directive_H (v : nat) :
  v <= 23 -> k v rest = Some r ->
  directive re_H k (two v ++ rest) = Some r.
Proof.
  intros Hv Hk. unfold re_H, two.
  do 24 (destruct v as [|v];
         [try lia; cbn; digits; cbn; rewrite Hk; reflexivity|]); lia.
Qed.

Lemma directive_M (v : nat) :
  v <= 59 -> k v rest = Some r ->
  directive re_M k (two v ++ rest) = Some r.
Proof.
  intros Hv Hk. unfold re_M, two.
  do 60 (destruct v as [|v];
         [try lia; cbn; digits; cbn; rewrite Hk; reflexivity|]); lia.
Qed.

Lemma directive_S (v : nat) :
  v <= 59 -> k v rest = Some r ->
  directive re_S k (two v ++ rest) = Some r.
Proof.
  intros Hv Hk. unfold re_S, two.
  do 60 (destruct v as [|v];
         [try lia; cbn; digits; cbn; rewrite Hk; reflexivity|]); lia.
Qed.

End Directives.

Lemma days_in_month_le (y m : nat) : days_in_month y m <= 31.
Proof.
  unfold days_in_month.
  do 12 (destruct m as [|m]; [try destruct (is_leap y); lia|]). lia.
Qed.

Lemma valid_ranges (d : datetime) :
  valid d = true ->
  year d <= 99 * 101 /\ 1 <= month d <= 12 /\ 1 <= day d <= 31
  /\ hour d <= 23 /\ minute d <= 59 /\ second d <= 59.
Proof.
  unfold valid. intro H.
  repeat (apply andb_prop in H; destruct H as [H ?]).
  repeat match goal with
         | H : (_ <=? _) = true |- _ => apply Nat.leb_le in H
         end.
  pose proof (days_in_month_le (year d) (month d)).
  assert (E : 9999 = 99 * 101) by (vm_compute; reflexivity).
  rewrite E in *. lia.
Qed.

Lemma strptime_isoformat (d : datetime) :
  valid d = true -> strptime (isoformat d) = inr d.
Proof.
  intro Hv. destruct (valid_ranges d Hv) as (Hy & Hm & Hd & HH & HM & HS).
  unfold strptime, isoformat.
  rewrite list_ascii_of_string_of_list_ascii.
  assert (E : format_regex
                (four (year d) ++ "-"%char :: two (month d) ++ "-"%char
                 :: two (day d) ++ "T"%char :: two (hour d) ++ ":"%char
                 :: two (minute d) ++ ":"%char :: two (second d))
              = Some (d, [])).
  { unfold format_regex.
    apply directive_Y; [assumption|]. cbn [literal]. cbn -[directive two].
    apply directive_m; [assumption|]. cbn -[directive two].
    apply directive_d; [assumption|]. cbn -[directive two].
    apply directive_H; [assumption|]. cbn -[directive two].
    apply directive_M; [assumption|]. cbn -[directive two].
    rewrite <- (app_nil_r (two (second d))).
    apply directive_S; [assumption|]. now destruct d. }
  rewrite E, Hv. reflexivity.
Qed.

Lemma exact_shape_isoformat (d : datetime) : exact_shape (isoformat d) = true.
Proof.
  unfold exact_shape, isoformat.
  rewrite list_ascii_of_string_of_list_ascii.
  cbn -[digit_char Nat.div]. rewrite !is_digit_digit_char. reflexivity.
Qed.

Lemma lower_colon (x : ascii) : lower x = ":"%char -> x = ":"%char.
Proof.
  destruct x as [[] [] [] [] [] [] [] []]; vm_compute; intro H;
    first [reflexivity | discriminate H].
Qed.

Lemma digit_no_colon (x : ascii) (d : nat) :
  digit_of x = Some d -> Ascii.eqb x ":" = false.
Proof.
  destruct x as [[] [] [] [] [] [] [] []]; vm_compute; intro H;
    first [reflexivity | discriminate H].
Qed.

Lemma space_no_colon (x : ascii) :
  Ascii.eqb x " " = true -> Ascii.eqb x ":" = false.
Proof.
  intro H. apply Ascii.eqb_eq in H. now subst x.
Qed.

Lemma colons_app (s1 s2 : list ascii) :
  colons (s1 ++ s2) = colons s1 + colons s2.
Proof. unfold colons. now rewrite filter_app, length_app. Qed.

(** An alternative consumes characters that are no colons. *)
Lemma match_alt_colons (a : list cclass) (s : list ascii) (acc v : nat)
    (s' : list ascii) :
  match_alt a s acc = Some (v, s') -> colons s = colons s'.
Proof.
  revert s acc. induction a as [|c a IH]; intros s acc H; cbn in H.
  - now inversion H.
  - destruct s as [|x s]; [discriminate|].
    destruct c as [lo hi|].
    + destruct (digit_of x) as [d|] eqn:Hd; [|discriminate].
      destruct ((lo <=? d) && (d <=? hi)); [|discriminate].
      apply IH in H. unfold colons in *. cbn.
      now rewrite (digit_no_colon x Hd).
    + destruct (Ascii.eqb x " ") eqn:Hsp; [|discriminate].
      apply IH in H. unfold colons in *. cbn.
      now rewrite (space_no_colon x Hsp).
Qed.

Lemma directive_colons (R : Type) (alts : list (list cclass))
    (k : nat -> list ascii -> option R) (s : list ascii) (r : R) :
  directive alts k s = Some r ->
  exists v s', colons s = colons s' /\ k v s' = Some r.
Proof.
  induction alts as [|a alts IH]; cbn; [discriminate|].
  destruct (match_alt a s 0) as [[v s']|] eqn:Ha; [|exact IH].
  destruct (k v s') as [r'|] eqn:Hk; [|exact IH].
  intro H. inversion H; subst r'.
  exists v, s'. split; [exact (match_alt_colons a s 0 Ha)|exact Hk].
Qed.

Lemma literal_inv (R : Type) (c : ascii) (k : list ascii -> option R)
    (s : list ascii) (r : R) :
  literal c k s = Some r ->
  exists x s', s = x :: s' /\ lower x = lower c /\ k s' = Some r.
Proof.
  destruct s as [|x s]; cbn; [discriminate|].
  destruct (Ascii.eqb (lower x) (lower c)) eqn:E; [|discriminate].
  apply Ascii.eqb_eq in E. intro H. now exists x, s.
Qed.

(** What the format matches has a colon before the minutes and one before
    the seconds. *)
Lemma format_regex_colons (s : list ascii) (d : datetime)
    (rest : list ascii) :
  format_regex s = Some (d, rest) -> 2 <= colons s.
Proof.
  unfold format_regex. intro H.
  apply directive_colons in H. destruct H as (Y & s1 & E1 & H).
  apply literal_inv in H. destruct H as (x1 & s2 & -> & _ & H).
  apply directive_colons in H. destruct H as (m & s3 & E2 & H).
  apply literal_inv in H. destruct H as (x2 & s4 & -> & _ & H).
  apply directive_colons in H. destruct H as (dd & s5 & E3 & H).
  apply literal_inv in H. destruct H as (x3 & s6 & -> & _ & H).
  apply directive_colons in H. destruct H as (hh & s7 & E4 & H).
  apply literal_inv in H. destruct H as (x4 & s8 & -> & L4 & H).
  apply directive_colons in H. destruct H as (mi & s9 & E5 & H).
  apply literal_inv in H. destruct H as (x5 & s10 & -> & L5 & H).
  apply lower_colon in L4, L5. subst x4 x5.
  assert (C : forall x t, colons t <= colons (x :: t)).
  { intros x t. unfold colons. cbn. destruct (Ascii.eqb x ":"); cbn; lia. }
  assert (C1 : forall t, colons (":"%char :: t) = S (colons t)).
  { intro t. reflexivity. }
  pose proof (C x1 s2). pose proof (C x2 s4). pose proof (C x3 s6).
  rewrite C1 in E4. rewrite C1 in E5. lia.
Qed.

Unset Implicit Arguments.

Section Accepted.

Import Shape.

(** *** From a match to the shape *)

Lemma digit_char_of (c : ascii) (d : nat) :
  digit_of c = Some d -> c = digit_char d /\ d <= 9.
Proof.
  destruct c as [[] [] [] [] [] [] [] []]; vm_compute; intro H;
    first [discriminate H | inversion H; split; [reflexivity|lia]].
Qed.

Lemma match_alt_nil (s : list ascii) (acc v : nat) (s' : list ascii) :
  match_alt [] s acc = Some (v, s') -> v = acc /\ s' = s.
Proof. cbn. intro H. now inversion H. Qed.

Lemma match_alt_digit (lo hi : nat) (a : list cclass) (s : list ascii)
    (acc v : nat) (s' : list ascii) :
  match_alt (Digits lo hi :: a) s acc = Some (v, s') ->
  exists d s1, s = digit_char d :: s1 /\ lo <= d <= hi /\ d <= 9
               /\ match_alt a s1 (10 * acc + d) = Some (v, s').
Proof.
  cbn. destruct s as [|x s1]; [discriminate|].
  destruct (digit_of x) as [d|] eqn:Hd; [|discriminate].
  destruct ((lo <=? d) && (d <=? hi)) eqn:Hr; [|discriminate].
  intro H. apply andb_prop in Hr. destruct Hr as [H1 H2].
  apply Nat.leb_le in H1, H2. destruct (digit_char_of _ _ Hd) as [-> H9].
  exists d, s1. repeat split; assumption.
Qed.

Lemma match_alt_space (a : list cclass) (s : list ascii) (acc v : nat)
    (s' : list ascii) :
  match_alt (Space :: a) s acc = Some (v, s') ->
  exists s1, s = " "%char :: s1 /\ match_alt a s1 acc = Some (v, s').
Proof.
  cbn. destruct s as [|x s1]; [discriminate|].
  destruct (Ascii.eqb x " ") eqn:E; [|discriminate].
  apply Ascii.eqb_eq in E. subst x. intro H. now exists s1.
Qed.

Lemma directive_inv (R : Type) (alts : list (list cclass))
    (k : nat -> list ascii -> option R) (s : list ascii) (r : R) :
  directive alts k s = Some r ->
  exists a v s', In a alts /\ match_alt a s 0 = Some (v, s')
                 /\ k v s' = Some r.
Proof.
  induction alts as [|a alts IH]; cbn; [discriminate|].
  destruct (match_alt a s 0) as [[v s']|] eqn:Ha.
  - destruct (k v s') as [r'|] eqn:Hk.
    + intro H. inversion H. subst r'. exists a, v, s'. tauto.
    + intro H. destruct (IH H) as (a' & v' & s'' & Hin & Hm & Hk').
      exists a', v', s''. tauto.
  - intro H. destruct (IH H) as (a' & v' & s'' & Hin & Hm & Hk').
    exists a', v', s''. tauto.
Qed.

Lemma two_digits (d1 d2 : nat) :
  d1 <= 9 -> d2 <= 9 -> two (10 * d1 + d2) = [digit_char d1; digit_char d2].
Proof.
  intros H1 H2.
  do 10 (destruct d1 as [|d1];
         [do 10 (destruct d2 as [|d2]; [reflexivity|]); lia|]).
  lia.
Qed.


Lemma digit_char_mod (a b : nat) :
  a mod 10 = b mod 10 -> digit_char a = digit_char b.
Proof. unfold digit_char. now intros ->. Qed.

Lemma four_of_digits (d1 d2 d3 d4 : nat) :
  d1 <= 9 -> d2 <= 9 -> d3 <= 9 -> d4 <= 9 ->
  four (10 * (10 * (10 * (10 * 0 + d1) + d2) + d3) + d4)
  = [digit_char d1; digit_char d2; digit_char d3; digit_char d4].
Proof.
  intros H1 H2 H3 H4.
  set (n := 10 * (10 * (10 * (10 * 0 + d1) + d2) + d3) + d4).
  assert (E1 : n / 10 = 10 * (10 * d1 + d2) + d3)
    by (symmetry; apply Nat.div_unique with (r := d4); unfold n; lia).
  assert (E2 : n / 100 = 10 * d1 + d2).
  { change 100 with (10 * 10). rewrite <- Nat.Div0.div_div, E1.
    symmetry. apply Nat.div_unique with (r := d3); lia. }
  assert (E3 : n / 1000 = d1).
  { change 1000 with (100 * 10). rewrite <- Nat.Div0.div_div, E2.
    symmetry. apply Nat.div_unique with (r := d2); lia. }
  unfold four. rewrite E1, E2, E3.
  rewrite (digit_char_mod (10 * d1 + d2) d2),
    (digit_char_mod (10 * (10 * d1 + d2) + d3) d3),
    (digit_char_mod n d4); [reflexivity|..].
  - symmetry. rewrite (Nat.mod_small d4) by lia.
    apply Nat.mod_unique with (q := 10 * (10 * d1 + d2) + d3);
      unfold n; lia.
  - symmetry. rewrite (Nat.mod_small d3) by lia.
    apply Nat.mod_unique with (q := 10 * d1 + d2); lia.
  - symmetry. rewrite (Nat.mod_small d2) by lia.
    apply Nat.mod_unique with (q := d1); lia.
Qed.

Ltac invert_alt H :=
  repeat first
    [ apply match_alt_digit in H;
      let d := fresh "d" in let s := fresh "s" in
      let Hr := fresh "Hr" in let H9 := fresh "H9" in
      destruct H as (d & s & -> & Hr & H9 & H)
    | apply match_alt_space in H;
      let s := fresh "s" in destruct H as (s & -> & H)
    | apply match_alt_nil in H; destruct H as [-> ->] ].

Ltac solve_written :=
  first
    [ left; split; [lia|];
      match goal with
      | |- [digit_char ?a] = [digit_char ?b] =>
          replace b with a by lia; reflexivity
      end
    | right; left; split; [lia|];
      match goal with
      | |- [digit_char ?a; digit_char ?b] = two ?n =>
          replace n with (10 * a + b) by lia;
          rewrite two_digits by lia; reflexivity
      end
    | right; right; split; [reflexivity|split; [lia|]];
      match goal with
      | |- [_; digit_char ?a] = [_; digit_char ?b] =>
          replace b with a by lia; reflexivity
      end ].

Section Fields.

Variables (R : Type) (k : nat -> list ascii -> option R).
Variables (s : list ascii) (r : R).

Ltac field_inv H :=
  apply directive_inv in H;
  let a := fresh "a" in let v := fresh "v" in let s' := fresh "s'" in
  let Hin := fresh "Hin" in let Hm := fresh "Hm" in let Hk := fresh "Hk" in
  destruct H as (a & v & s' & Hin & Hm & Hk);
  cbn [In] in Hin;
  repeat (destruct Hin as [<-|Hin]; [invert_alt Hm|]); [..|destruct Hin];
  match goal with
  | Hk : k ?v ?t = Some _ |- exists cs v' s', ?c1 :: ?c2 :: ?t = _ /\ _ =>
      exists [c1; c2], v, t
  | Hk : k ?v ?t = Some _ |- exists cs v' s', ?c1 :: ?t = _ /\ _ =>
      exists [c1], v, t
  end;
  (split; [reflexivity|split; [solve_written|assumption]]).

Lemma written_m :
  directive re_m k s = Some r ->
  exists cs v s', s = cs ++ s' /\ written 1 12 false cs v
                  /\ k v s' = Some r.
Proof. intro H. unfold re_m in H. field_inv H. Qed.

Lemma written_d :
  directive re_d k s = Some r ->
  exists cs v s', s = cs ++ s' /\ written 1 31 true cs v
                  /\ k v s' = Some r.
Proof. intro H. unfold re_d in H. field_inv H. Qed.

Lemma written_H :
  directive re_H k s = Some r ->
  exists cs v s', s = cs ++ s' /\ written 0 23 false cs v
                  /\ k v s' = Some r.
Proof. intro H. unfold re_H in H. field_inv H. Qed.

Lemma written_M :
  directive re_M k s = Some r ->
  exists cs v s', s = cs ++ s' /\ written 0 59 false cs v
                  /\ k v s' = Some r.
Proof. intro H. unfold re_M in H. field_inv H. Qed.

Lemma written_S :
  directive re_S k s = Some r ->
  exists cs v s', s = cs ++ s' /\ written 0 61 false cs v
                  /\ k v s' = Some r.
Proof. intro H. unfold re_S in H. field_inv H. Qed.

Lemma written_Y :
  directive re_Y k s = Some r ->
  exists y s', s = four y ++ s' /\ y <= 9999 /\ k y s' = Some r.
Proof.
  intro H. apply directive_inv in H.
  destruct H as (a & v & s' & Hin & Hm & Hk).
  destruct Hin as [<-|[]]. invert_alt Hm.
  eexists _, _. split; [|split; [|exact Hk]].
  - rewrite four_of_digits by assumption. reflexivity.
  - assert (E : 9999 = 9 * 1111) by reflexivity. rewrite E. lia.
Qed.

End Fields.

Lemma lower_dash (x : ascii) : lower x = lower "-" -> x = "-"%char.
Proof.
  destruct x as [[] [] [] [] [] [] [] []]; vm_compute; intro H;
    first [reflexivity | discriminate H].
Qed.

Lemma lower_T (x : ascii) :
  lower x = lower "T" -> x = "T"%char \/ x = "t"%char.
Proof.
  destruct x as [[] [] [] [] [] [] [] []]; vm_compute; intro H;
    first [now left | now right | discriminate H].
Qed.

Lemma written_weaken (lo hi hi' : nat) (blank : bool) (cs : list ascii)
    (n : nat) :
  written lo hi blank cs n -> n <= hi' -> written lo hi' blank cs n.
Proof.
  intros [[H E]|[[H E]|H]] Hn.
  - left. now split.
  - right. left. split; [lia|assumption].
  - right. right. assumption.
Qed.

(** What [strptime] takes has the shape. *)
Lemma strptime_takes (s : string) (d : datetime) :
  strptime s = inr d -> takes s d.
Proof.
  unfold strptime.
  destruct (format_regex (list_ascii_of_string s)) as [[d' [|x rest]]|] eqn:E;
    try discriminate.
  destruct (valid d') eqn:Hv; [|discriminate].
  intro H. inversion H. subst d'. clear H.
  unfold format_regex in E.
  apply written_Y in E. destruct E as (Y & s1 & E0 & HY & E).
  apply literal_inv in E. destruct E as (x1 & s2 & -> & L1 & E).
  apply written_m in E. destruct E as (mc & m & s3 & -> & Wm & E).
  apply literal_inv in E. destruct E as (x2 & s4 & -> & L2 & E).
  apply written_d in E. destruct E as (dc & dd & s5 & -> & Wd & E).
  apply literal_inv in E. destruct E as (x3 & s6 & -> & L3 & E).
  apply written_H in E. destruct E as (Hc & hh & s7 & -> & WH & E).
  apply literal_inv in E. destruct E as (x4 & s8 & -> & L4 & E).
  apply written_M in E. destruct E as (Mc & mi & s9 & -> & WM & E).
  apply literal_inv in E. destruct E as (x5 & s10 & -> & L5 & E).
  apply written_S in E. destruct E as (Sc & ss & s11 & -> & WS & E).
  inversion E. subst d s11. clear E.
  apply lower_dash in L1, L2. apply lower_colon in L4, L5.
  apply lower_T in L3. subst x1 x2 x4 x5.
  destruct (valid_ranges _ Hv) as (_ & _ & _ & _ & _ & HS). cbn in HS.
  exists mc, dc, x3, Hc, Mc, Sc. cbn [year month day hour minute second].
  rewrite app_nil_r in E0.
  repeat split; try assumption.
  exact (written_weaken _ _ 59 _ _ _ WS HS).
Qed.

(** *** From the shape to a match *)

Ltac run_match :=
  repeat (cbn -[digit_of];
          repeat match goal with
                 | Hx : digit_of ?x = None |- context [digit_of ?x] =>
                     rewrite Hx
                 | |- context [digit_of (Ascii ?a ?b ?c ?d ?e ?f ?g ?h)] =>
                     let v := eval vm_compute in
                                (digit_of (Ascii a b c d e f g h)) in
                     change (digit_of (Ascii a b c d e f g h)) with v
                 end).

Section FromShape.

Variables (R : Type) (k : nat -> list ascii -> option R).
Variables (rest : list ascii) (r : R).

(** What follows a field is no digit. *)
Hypothesis Hsep : forall x t, rest = x :: t -> digit_of x = None.

Ltac one_digit v Hk :=
  let x := fresh "x" in let t := fresh "t" in
  destruct rest as [|x t];
  [|pose proof (Hsep x t eq_refl)];
  do 10 (destruct v as [|v];
         [try lia; run_match; rewrite Hk; reflexivity|]);
  lia.

Lemma directive_written_m (cs : list ascii) (v : nat) :
  written 1 12 false cs v -> k v rest = Some r ->
  directive re_m k (cs ++ rest) = Some r.
Proof.
  intros [[Hv ->]|[[Hv ->]|[Hb _]]] Hk; [|now apply directive_m|discriminate].
  unfold re_m. one_digit v Hk.
Qed.

Lemma directive_written_d (cs : list ascii) (v : nat) :
  written 1 31 true cs v -> k v rest = Some r ->
  directive re_d k (cs ++ rest) = Some r.
Proof.
  intros [[Hv ->]|[[Hv ->]|(_ & Hv & ->)]] Hk; [|now apply directive_d|].
  - unfold re_d. one_digit v Hk.
  - unfold re_d.
    do 10 (destruct v as [|v];
           [try lia; run_match; rewrite Hk; reflexivity|]).
    lia.
Qed.

Lemma directive_written_H (cs : list ascii) (v : nat) :
  written 0 23 false cs v -> k v rest = Some r ->
  directive re_H k (cs ++ rest) = Some r.
Proof.
  intros [[Hv ->]|[[Hv ->]|[Hb _]]] Hk;
    [|apply directive_H; [lia|assumption]|discriminate].
  unfold re_H. one_digit v Hk.
Qed.

Lemma directive_written_M (cs : list ascii) (v : nat) :
  written 0 59 false cs v -> k v rest = Some r ->
  directive re_M k (cs ++ rest) = Some r.
Proof.
  intros [[Hv ->]|[[Hv ->]|[Hb _]]] Hk;
    [|apply directive_M; [lia|assumption]|discriminate].
  unfold re_M. one_digit v Hk.
Qed.

Lemma directive_written_S (cs : list ascii) (v : nat) :
  written 0 59 false cs v -> k v rest = Some r ->
  directive re_S k (cs ++ rest) = Some r.
Proof.
  intros [[Hv ->]|[[Hv ->]|[Hb _]]] Hk;
    [|apply directive_S; [lia|assumption]|discriminate].
  unfold re_S. one_digit v Hk.
Qed.

End FromShape.

Ltac no_digit :=
  let x := fresh "x" in let t := fresh "t" in let E := fresh "E" in
  intros x t E; first [discriminate E | inversion E; reflexivity].

(** What has the shape is taken, and read as the date it writes. *)
Lemma takes_strptime (s : string) (d : datetime) :
  takes s d -> strptime s = inr d.
Proof.
  intros (mc & dc & t & Hc & Mc & Sc & E & Ht & Wm & Wd & WH & WM & WS & Hv).
  destruct (valid_ranges d Hv) as (Hy & _).
  unfold strptime. rewrite E.
  assert (F : format_regex
                (four (year d) ++ "-"%char :: mc ++ "-"%char :: dc ++ t
                 :: Hc ++ ":"%char :: Mc ++ ":"%char :: Sc)
              = Some (d, [])).
  { unfold format_regex.
    apply directive_Y; [assumption|]. cbn -[directive].
    apply directive_written_m with (v := month d);
      [no_digit|assumption|]. cbn -[directive].
    apply directive_written_d with (v := day d);
      [destruct Ht; subst t; no_digit|assumption|].
    assert (L : forall A (k' : list ascii -> option A) rest',
              literal "T" k' (t :: rest') = k' rest').
    { intros A k' rest'. destruct Ht; subst t; reflexivity. }
    rewrite L.
    apply directive_written_H with (v := hour d);
      [no_digit|assumption|]. cbn -[directive].
    apply directive_written_M with (v := minute d);
      [no_digit|assumption|]. cbn -[directive].
    rewrite <- (app_nil_r Sc).
    apply directive_written_S with (v := second d);
      [no_digit|assumption|]. now destruct d. }
  rewrite F, Hv. reflexivity.
Qed.

Lemma not_taken (s : string) :
  (forall d, ~ takes s d) -> strptime s = inl ValueError.
Proof.
  intro H. destruct (strptime s) as [e|d] eqn:E.
  - unfold strptime in E.
    destruct (format_regex (list_ascii_of_string s)) as [[d' [|x rest]]|];
      [destruct (valid d')|..]; congruence.
  - destruct (H d (strptime_takes s d E)).
Qed.

End Accepted.

Set Implicit Arguments.

(** C8, as stated, fails: a string that has not the shape
    YYYY-MM-DDTHH:MM:SS, its month, day and second being one digit, is
    accepted. *)
Lemma timestamp_from_isodate_accepts_short_fields :
  exact_shape "2009-6-9T10:57:0" = false
  /\ timestamp_from_isodate mktime_utc (IsString "2009-6-9T10:57:0")
     = inr 1244545020%Z.
Proof. vm_compute. split; reflexivity. Qed.

(** C8 (amended). [timestamp_from_isodate] hands a [datetime] to [mktime]
    as it is.  A string is taken exactly when it writes a date and time of
    the calendar in the shape of the format: four digits for the year, one
    or two digits for the month, the day (which may also be a blank and a
    digit), the hour, the minute and the second, with [-], [-], [T] or [t],
    [:] and [:] between them and nothing before or after; it is then read
    as the date it writes, which is the only one, and handed to [mktime].
    Every other string fails with [ValueError].  In particular a string of
    the shape YYYY-MM-DDTHH:MM:SS that names a date and time of the
    calendar is taken, and a string with fewer than two colons, such as one
    without the seconds, fails with [ValueError]. *)
Theorem timestamp_from_isodate_format (mktime : datetime -> exn + Z) :
  (forall d, timestamp_from_isodate mktime (IsDatetime d) = mktime d)
  /\
  (forall d, valid d = true ->
     exact_shape (isoformat d) = true
     /\ timestamp_from_isodate mktime (IsString (isoformat d)) = mktime d)
  /\
  (forall s,
     timestamp_from_isodate mktime (IsString s) = inl ValueError
     \/ exists d, valid d = true
                  /\ timestamp_from_isodate mktime (IsString s) = mktime d)
  /\
  (forall s, colons (list_ascii_of_string s) < 2 ->
     timestamp_from_isodate mktime (IsString s) = inl ValueError)
  /\
  (forall s d, strptime s = inr d <-> Shape.takes s d)
  /\
  (forall s d, Shape.takes s d ->
     timestamp_from_isodate mktime (IsString s) = mktime d)
  /\
  (forall s, (forall d, ~ Shape.takes s d) ->
     timestamp_from_isodate mktime (IsString s) = inl ValueError)
  /\
  (forall s d d', Shape.takes s d -> Shape.takes s d' -> d = d').
Proof.
  split; [reflexivity|]. split; [|split; [|split; [|split; [|split;
    [|split]]]]].
  - intros d Hv. split; [apply exact_shape_isoformat|].
    unfold timestamp_from_isodate. now rewrite strptime_isoformat.
  - intro s. cbn. unfold strptime.
    destruct (format_regex (list_ascii_of_string s)) as [[d [|x rest]]|];
      [|now left..].
    destruct (valid d) eqn:Hv; [right|now left]. now exists d.
  - intros s H. cbn. unfold strptime.
    destruct (format_regex (list_ascii_of_string s)) as [[d rest]|] eqn:E;
      [|reflexivity].
    apply format_regex_colons in E. lia.
  - intros s d. split; [apply strptime_takes|apply takes_strptime].
  - intros s d H. cbn. now rewrite (takes_strptime s d H).
  - intros s H. cbn. now rewrite (not_taken s H).
  - intros s d d' H H'. apply takes_strptime in H, H'. congruence.
Qed.

Lemma timestamp_from_isodate_format_witness :
  exact_shape "2009-06-09T10:57:00" = true
  /\ timestamp_from_isodate mktime_utc (IsString "2009-06-09T10:57:00")
     = inr 1244545020%Z.
Proof.
  exact (proj1 (proj2 (timestamp_from_isodate_format mktime_utc))
           Scenes.doctest_date eq_refl).
Defined.

End Isodate.

Unset Implicit Arguments.

(** ** The directory tree: entries and paths *)

Section Tree.

Import TreeFS.

Lemma assoc_set_same (c : string) (x : node) (es : entries) :
  assoc c (set_entry c x es) = Some x.
Proof.
  induction es as [|[k v] es IH]; cbn.
  - now rewrite String.eqb_refl.
  - destruct (String.eqb c k) eqn:E; cbn; rewrite E; [reflexivity|exact IH].
Qed.

Lemma assoc_set_other (c c' : string) (x : node) (es : entries) :
  String.eqb c' c = false ->
  assoc c' (set_entry c x es) = assoc c' es.
Proof.
  intro Hne. induction es as [|[k v] es IH]; cbn.
  - now rewrite Hne.
  - destruct (String.eqb c k) eqn:E; cbn.
    + apply String.eqb_eq in E. subst k. now rewrite Hne.
    + now rewrite IH.
Qed.

Lemma assoc_remove_same (c : string) (es : entries) :
  assoc c (remove_entry c es) = None.
Proof.
  induction es as [|[k v] es IH]; cbn; [reflexivity|].
  destruct (String.eqb c k) eqn:E; cbn; [exact IH|now rewrite E].
Qed.

Lemma assoc_remove_other (c c' : string) (es : entries) :
  String.eqb c' c = false ->
  assoc c' (remove_entry c es) = assoc c' es.
Proof.
  intro Hne. induction es as [|[k v] es IH]; cbn; [reflexivity|].
  destruct (String.eqb c k) eqn:E; cbn.
  - apply String.eqb_eq in E. subst k. now rewrite Hne.
  - now rewrite IH.
Qed.

Lemma set_set (c : string) (x y : node) (es : entries) :
  set_entry c y (set_entry c x es) = set_entry c y es.
Proof.
  induction es as [|[k v] es IH]; cbn.
  - now rewrite String.eqb_refl.
  - destruct (String.eqb c k) eqn:E; cbn; rewrite E; [reflexivity|].
    now rewrite IH.
Qed.

Lemma remove_set (c : string) (x : node) (es : entries) :
  remove_entry c (set_entry c x es) = remove_entry c es.
Proof.
  induction es as [|[k v] es IH]; cbn.
  - now rewrite String.eqb_refl.
  - destruct (String.eqb c k) eqn:E; cbn; rewrite E; [reflexivity|].
    now rewrite IH.
Qed.

Lemma assoc_In (c : string) (v : node) (es : entries) :
  assoc c es = Some v -> In (c, v) es.
Proof.
  induction es as [|[k v'] es IH]; cbn; [discriminate|].
  destruct (String.eqb c k) eqn:E.
  - apply String.eqb_eq in E. intro H. inversion H. subst. now left.
  - intro H. right. now apply IH.
Qed.

Lemma resolve_app (p q : path) (f n : node) :
  resolve p f = inr n -> resolve (p ++ q) f = resolve q n.
Proof.
  revert f. induction p as [|c p IH]; intros f H; cbn in *.
  - now inversion H.
  - destruct f as [| |m es]; try discriminate.
    destruct (assoc c es) as [sub|]; [|discriminate]. now apply IH.
Qed.

Lemma resolve_snoc_inv (p : path) (c : string) (f x : node) :
  resolve (p ++ [c]) f = inr x ->
  exists m es, resolve p f = inr (Dir m es) /\ assoc c es = Some x.
Proof.
  revert f. induction p as [|c0 p IH]; intros f H; cbn in *.
  - destruct f as [| |m es]; try discriminate.
    destruct (assoc c es) as [sub|] eqn:E; [|discriminate].
    inversion H. subst. now exists m, es.
  - destruct f as [| |m es]; try discriminate.
    destruct (assoc c0 es) as [sub|]; [|discriminate]. now apply IH.
Qed.

Lemma resolve_snoc (p : path) (c : string) (f : node) (m : Z)
    (es : entries) :
  resolve p f = inr (Dir m es) ->
  resolve (p ++ [c]) f
  = match assoc c es with Some x => inr x | None => inl ENOENT end.
Proof.
  intro H. rewrite (resolve_app _ [c] _ _ H). reflexivity.
Qed.

(** A change at an entry of the directory at [p], seen from the root. *)
Lemma at_parent_snoc (p : path) (c : string)
    (g : string -> entries -> errno + entries) (f : node) (m : Z)
    (es : entries) :
  resolve p f = inr (Dir m es) ->
  at_parent (p ++ [c]) g f
  = match g c es with
    | inl e => inl e
    | inr es' => inr (graft p (Dir m es') f)
    end.
Proof.
  revert f. induction p as [|c0 p IH]; intros f H; cbn in H.
  - inversion H. subst f. reflexivity.
  - destruct f as [| |m0 es0]; try discriminate.
    destruct (assoc c0 es0) as [sub|] eqn:E; [|discriminate].
    specialize (IH sub H).
    cbn [app at_parent graft]. rewrite E.
    destruct (p ++ [c]) eqn:Ep; [now destruct p|].
    rewrite IH. now destruct (g c es).
Qed.

Lemma resolve_graft (p : path) (f n x : node) :
  resolve p f = inr n -> resolve p (graft p x f) = inr x.
Proof.
  revert f. induction p as [|c p IH]; intros f H; cbn in *; [reflexivity|].
  destruct f as [| |m es]; try discriminate.
  destruct (assoc c es) as [sub|] eqn:E; [|discriminate].
  cbn. rewrite assoc_set_same. now apply IH.
Qed.

Lemma graft_graft (p : path) (f n x y : node) :
  resolve p f = inr n -> graft p y (graft p x f) = graft p y f.
Proof.
  revert f. induction p as [|c p IH]; intros f H; cbn in *; [reflexivity|].
  destruct f as [| |m es]; try discriminate.
  destruct (assoc c es) as [sub|] eqn:E; [|discriminate].
  cbn. rewrite assoc_set_same, set_set. now rewrite (IH sub H).
Qed.

(** Two changes that agree on the node at [p] agree at [p]. *)
Lemma at_parent_ext (p : path) (g1 g2 : string -> entries -> errno + entries)
    (f n : node) :
  resolve p f = inr n ->
  (forall name es, assoc name es = Some n -> g1 name es = g2 name es) ->
  at_parent p g1 f = at_parent p g2 f.
Proof.
  intros H Hg. revert f H. induction p as [|c p IH]; intros f H; cbn in *.
  - reflexivity.
  - destruct f as [| |m es]; try reflexivity.
    destruct (assoc c es) as [sub|] eqn:E; [|discriminate].
    destruct p as [|c' p'].
    + cbn in H. inversion H. subst sub. now rewrite (Hg c es E).
    + now rewrite (IH sub H).
Qed.

Lemma prune_ok (p : path) (f n : node) :
  resolve p f = inr n -> p <> [] -> exists f', prune p f = inr f'.
Proof.
  unfold prune. revert f. induction p as [|c p IH]; intros f H Hp;
    [congruence|]. cbn in *.
  destruct f as [| |m es]; try discriminate.
  destruct (assoc c es) as [sub|] eqn:E; [|discriminate].
  destruct p as [|c' p']; [eexists; reflexivity|].
  destruct (IH sub H) as [sub' ->]; [discriminate|]. eexists; reflexivity.
Qed.

Lemma prune_gone (p : path) (f f' : node) :
  prune p f = inr f' -> resolve p f' = inl ENOENT.
Proof.
  unfold prune. revert f f'. induction p as [|c p IH]; intros f f' H;
    cbn in *; [discriminate|].
  destruct f as [| |m es]; try discriminate.
  destruct p as [|c' p'].
  - inversion H. subst f'. cbn. now rewrite assoc_remove_same.
  - destruct (assoc c es) as [sub|] eqn:E; [|discriminate].
    destruct (at_parent (c' :: p') _ sub) as [e|sub'] eqn:E'; [discriminate|].
    inversion H. subst f'. cbn [resolve]. rewrite assoc_set_same.
    exact (IH _ _ E').
Qed.

Lemma prune_graft (p : path) (f n x : node) :
  resolve p f = inr n -> prune p (graft p x f) = prune p f.
Proof.
  unfold prune. revert f. induction p as [|c p IH]; intros f H; cbn in *;
    [reflexivity|].
  destruct f as [| |m es]; try discriminate.
  destruct (assoc c es) as [sub|] eqn:E; [|discriminate].
  cbn [at_parent]. destruct p as [|c' p'].
  - cbn. now rewrite remove_set.
  - rewrite assoc_set_same. rewrite (IH sub H).
    destruct (at_parent (c' :: p') _ sub) as [e|sub']; [reflexivity|].
    now rewrite set_set.
Qed.


(** *** Runs on a tree nobody else touches *)



Lemma runs_ret {A} (a : A) (w : world) : runs (ret_ a) w a (fs w).
Proof. now exists w, []. Qed.

Lemma runs_bind {A B} (m : M world A) (k : A -> M world B) (w : world)
    (a : A) (b : B) (f f' : node) :
  runs m w a f ->
  (forall w1, fs w1 = f -> runs (k a) w1 b f') ->
  runs (bind m k) w b f'.
Proof.
  intros (w1 & t1 & Hm & Hf) Hk.
  destruct (Hk w1 Hf) as (w2 & t2 & Hk' & Hf').
  exists w2, (t1 ++ t2). unfold bind. now rewrite Hm, Hk'.
Qed.

Lemma fails_bind (A B : Type) (m : M world A) (k : A -> M world B)
    (w : world) (a : A) (e : exn) (f f' : node) :
  runs m w a f ->
  (forall w1, fs w1 = f -> fails (k a) w1 e f') ->
  fails (bind m k) w e f'.
Proof.
  intros (w1 & t1 & Hm & Hf) Hk.
  destruct (Hk w1 Hf) as (w2 & t2 & Hk' & Hf').
  exists w2, (t1 ++ t2). unfold bind. now rewrite Hm, Hk'.
Qed.

Lemma runs_catch {A} (m : M world A) (h : errno -> M world A) (w : world)
    (a : A) (f : node) :
  runs m w a f -> runs (catch_OSError m h) w a f.
Proof.
  intros (w1 & t1 & Hm & Hf). exists w1, t1.
  unfold catch_OSError. now rewrite Hm.
Qed.

Lemma fails_catch {A} (m : M world A) (h : errno -> M world A) (w : world)
    (e : errno) (a : A) (f f' : node) :
  fails m w (OSError e) f ->
  (forall w1, fs w1 = f -> runs (h e) w1 a f') ->
  runs (catch_OSError m h) w a f'.
Proof.
  intros (w1 & t1 & Hm & Hf) Hh.
  destruct (Hh w1 Hf) as (w2 & t2 & Hh' & Hf').
  exists w2, (t1 ++ t2). unfold catch_OSError. now rewrite Hm, Hh'.
Qed.

Lemma runs_query {A} (c : call) (r : A -> ret) (q : node -> A) (w : world) :
  runs (total c r (query quiet q)) w (q (fs w)) (fs w).
Proof. eexists _, _. split; reflexivity. Qed.

Lemma runs_update (c : call) (u : node -> errno + node) (w : world)
    (f' : node) :
  u (fs w) = inr f' ->
  runs (fallible OSError c (@runit) (update quiet u)) w tt f'.
Proof.
  intro H. eexists _, _. unfold fallible, update. rewrite H.
  split; reflexivity.
Qed.

Lemma fails_update (c : call) (u : node -> errno + node) (w : world)
    (e : errno) :
  u (fs w) = inl e ->
  fails (fallible OSError c (@runit) (update quiet u)) w (OSError e) (fs w).
Proof.
  intro H. eexists _, _. unfold fallible, update. rewrite H.
  split; reflexivity.
Qed.

Lemma runs_listdir (p : path) (w : world) (names : list string) :
  fs_listdir p (fs w) = inr names ->
  runs (listdir posix p) w names (fs w).
Proof.
  intro H. eexists _, _. unfold listdir, fallible. cbn. unfold query.
  rewrite H. split; reflexivity.
Qed.

Lemma fails_lstat (p : path) (w : world) (e : errno) :
  fs_lstat_mtime p (fs w) = inl e ->
  fails (lstat_mtime posix p) w (OSError e) (fs w).
Proof.
  intro H. eexists _, _. unfold lstat_mtime, fallible. cbn. unfold query.
  rewrite H. split; reflexivity.
Qed.

(** [classify] asks and changes nothing. *)
Lemma runs_classify (p : path) (names : list string) (w : world) :
  runs (classify posix p names) w
    (filter (fun c => fs_isdir (join p c) (fs w)) names,
     filter (fun c => negb (fs_isdir (join p c) (fs w))) names)
    (fs w).
Proof.
  revert w. induction names as [|c names IH]; intro w; cbn [classify filter].
  - apply runs_ret.
  - eapply runs_bind; [apply (runs_query (CIsdir (join p c)) RBool)|].
    intros w1 H1. eapply runs_bind.
    { pose proof (IH w1) as I. rewrite H1 in I. exact I. }
    intros w2 H2.
    destruct (fs_isdir (join p c) (fs w)); cbn;
      rewrite <- H2; apply runs_ret.
Qed.


(** *** What a plain tree is made of *)


Lemma mem_In (c : string) (l : list string) : mem c l = false -> ~ In c l.
Proof.
  induction l as [|x l IH]; cbn; [tauto|].
  intro H. apply orb_false_elim in H. destruct H as [Hx Hl].
  intros [E|E]; [subst x; now rewrite String.eqb_refl in Hx|].
  now apply IH.
Qed.

Lemma distinct_NoDup (l : list string) : distinct l = true -> NoDup l.
Proof.
  induction l as [|x l IH]; cbn; [constructor|].
  intro H. apply andb_prop in H. destruct H as [Hx Hl].
  constructor; [|now apply IH].
  apply mem_In. now destruct (mem x l).
Qed.

Lemma plain_Dir (m : Z) (es : entries) :
  plain (Dir m es) = true ->
  NoDup (map fst es)
  /\ forall c v, assoc c es = Some v -> plain v = true.
Proof.
  cbn [plain]. intro H. apply andb_prop in H. destruct H as [Hd Ha].
  split; [now apply distinct_NoDup|].
  clear Hd. induction es as [|[k v'] es IH]; cbn; [discriminate|].
  apply andb_prop in Ha. destruct Ha as [Hv Ha].
  intros c v. destruct (String.eqb c k).
  - intro E. inversion E. now subst.
  - now apply IH.
Qed.

Lemma height_child (m : Z) (es : entries) (c : string) (v : node) :
  assoc c es = Some v -> height v < height (Dir m es).
Proof.
  cbn [height]. induction es as [|[k v'] es IH]; cbn; [discriminate|].
  destruct (String.eqb c k).
  - intro E. inversion E. subst. lia.
  - intro E. specialize (IH E). lia.
Qed.

Lemma In_remove_entry (c k : string) (v : node) (es : entries) :
  In (k, v) (remove_entry c es) -> In (k, v) es /\ k <> c.
Proof.
  induction es as [|[k' v'] es IH]; cbn; [tauto|].
  destruct (String.eqb c k') eqn:E.
  - intro H. destruct (IH H). tauto.
  - intros [H|H].
    + inversion H. subst. split; [now left|].
      intro. subst. now rewrite String.eqb_refl in E.
    + destruct (IH H). tauto.
Qed.

Lemma In_remove_all (names : list string) (k : string) (v : node)
    (es : entries) :
  In (k, v) (remove_all names es) -> In (k, v) es /\ ~ In k names.
Proof.
  unfold remove_all. revert es.
  induction names as [|c names IH]; intros es; cbn; [tauto|].
  intro H. destruct (IH _ H) as [H1 H2].
  destruct (In_remove_entry _ _ _ _ H1) as [H3 H4].
  split; [assumption|]. intros [E|E]; [congruence|tauto].
Qed.

Lemma remove_all_covers (names : list string) (es : entries) :
  (forall k v, In (k, v) es -> In k names) -> remove_all names es = [].
Proof.
  intro H. destruct (remove_all names es) as [|[k v] l] eqn:E;
    [reflexivity|].
  assert (Hin : In (k, v) (remove_all names es)) by (rewrite E; now left).
  destruct (In_remove_all _ _ _ _ Hin) as [H1 H2].
  destruct (H2 (H _ _ H1)).
Qed.

Lemma remove_all_app (l1 l2 : list string) (es : entries) :
  remove_all (l1 ++ l2) es = remove_all l2 (remove_all l1 es).
Proof. unfold remove_all. apply fold_left_app. Qed.

Lemma assoc_names (c : string) (es : entries) :
  In c (map fst es) -> exists v, assoc c es = Some v.
Proof.
  induction es as [|[k v] es IH]; cbn; [tauto|].
  destruct (String.eqb c k) eqn:E; [now eexists|].
  intros [H|H]; [subst; now rewrite String.eqb_refl in E|now apply IH].
Qed.

Lemma eqb_neq_false (a b : string) : a <> b -> String.eqb a b = false.
Proof. intro H. now apply String.eqb_neq. Qed.

(** Whether the name [c] in the directory at [p] is taken for a directory
    by the walk: in a plain tree, when it is one. *)
Lemma isdir_child (p : path) (f : node) (m : Z) (es : entries) (c : string)
    (v : node) :
  resolve p f = inr (Dir m es) -> assoc c es = Some v -> plain v = true ->
  fs_isdir (join p c) f = is_dir v.
Proof.
  intros H E Hv. unfold fs_isdir, join.
  rewrite (resolve_snoc _ c _ _ _ H), E.
  destruct v as [| m' [] |]; try reflexivity. discriminate.
Qed.


Lemma set_same (c : string) (v : node) (es : entries) :
  assoc c es = Some v -> set_entry c v es = es.
Proof.
  induction es as [|[k v'] es IH]; cbn; [discriminate|].
  destruct (String.eqb c k) eqn:E.
  - intro H. inversion H. reflexivity.
  - intro H. now rewrite (IH H).
Qed.

Lemma graft_same (p : path) (f n : node) :
  resolve p f = inr n -> graft p n f = f.
Proof.
  revert f. induction p as [|c p IH]; intros f H; cbn in *.
  - now inversion H.
  - destruct f as [| |m es]; try discriminate.
    destruct (assoc c es) as [sub|] eqn:E; [|discriminate].
    rewrite (IH sub H). now rewrite (set_same _ _ _ E).
Qed.

Lemma assoc_remove_all_other (c : string) (names : list string)
    (es : entries) :
  ~ In c names -> assoc c (remove_all names es) = assoc c es.
Proof.
  unfold remove_all. revert es.
  induction names as [|x names IH]; intros es H; cbn; [reflexivity|].
  rewrite IH by (cbn in H; tauto).
  apply assoc_remove_other. apply eqb_neq_false. cbn in H. intuition.
Qed.

Lemma fails_bind_l (A B : Type) (m : M world A) (k : A -> M world B)
    (w : world) (e : exn) (f : node) :
  fails m w e f -> fails (bind m k) w e f.
Proof.
  intros (w1 & t1 & Hm & Hf). exists w1, t1. unfold bind. now rewrite Hm.
Qed.

(** *** The general walk over a plain tree, cutoff zero *)

Section Walk.

Variable directory : path.

Local Abbreviation body := (visit posix directory 0 true (remove posix)).

(** The files of a directory: each is removed, and the [lstat] that follows
    finds it gone. *)
Lemma runs_files (p : path) (m : Z) (fl : list string) :
  forall (es : entries) (w : world),
    resolve p (fs w) = inr (Dir m es) ->
    NoDup fl ->
    (forall c, In c fl -> exists v, assoc c es = Some v /\ is_dir v = false) ->
    runs (for_each fl (fun filename =>
            handle_file posix 0 (remove posix) (join p filename))) w tt
      (graft p (Dir m (remove_all fl es)) (fs w)).
Proof.
  induction fl as [|c fl IH]; intros es w Hp Hnd Hfl; cbn [for_each].
  - cbn. rewrite (graft_same _ _ _ Hp). apply runs_ret.
  - inversion Hnd as [|? ? Hc Hnd']. subst.
    destruct (Hfl c (or_introl eq_refl)) as (v & Hv & Hdir).
    set (f1 := graft p (Dir m (remove_entry c es)) (fs w)).
    assert (Hp1 : resolve p f1 = inr (Dir m (remove_entry c es)))
      by (apply (resolve_graft _ _ _ _ Hp)).
    eapply runs_bind with (f := f1).
    + unfold handle_file. cbn [Z.eqb when_].
      eapply fails_catch with (e := ENOENT) (f := f1).
      * eapply fails_bind with (f := f1).
        -- apply runs_update. unfold fs_remove, join.
           rewrite (at_parent_snoc _ _ _ _ _ _ Hp), Hv.
           now destruct v.
        -- intros w1 H1. apply fails_bind_l.
           rewrite <- H1. apply fails_lstat. rewrite H1.
           unfold fs_lstat_mtime, join.
           rewrite (resolve_snoc _ c _ _ _ Hp1), assoc_remove_same.
           reflexivity.
      * intros w1 H1. cbn. rewrite <- H1. apply runs_ret.
    + intros w1 H1.
      assert (E : graft p (Dir m (remove_all (c :: fl) es)) (fs w)
                  = graft p (Dir m (remove_all fl (remove_entry c es)))
                      (fs w1)).
      { rewrite H1. unfold f1. now rewrite (graft_graft _ _ _ _ _ Hp). }
      rewrite E. apply IH; [now rewrite H1|assumption|].
      intros c' Hc'. destruct (Hfl c' (or_intror Hc')) as (v' & Hv' & Hd').
      exists v'. split; [|assumption].
      rewrite assoc_remove_other; [assumption|].
      apply eqb_neq_false. intro. now subst.
Qed.


Lemma runs_dirs (fuel : nat) (p : path) (m : Z) (ds : list string) :
  walk_ok directory fuel ->
  List.length directory <= List.length p ->
  forall (es : entries) (w : world),
    resolve p (fs w) = inr (Dir m es) ->
    NoDup ds ->
    (forall c, In c ds ->
       exists cm ces, assoc c es = Some (Dir cm ces)
                      /\ plain (Dir cm ces) = true
                      /\ height (Dir cm ces) <= fuel) ->
    runs (for_each ds (fun name =>
            l <- path_islink posix (join p name) ;;
            if l then ret_ tt
            else walk_bottom_up posix fuel (join p name) body)) w tt
      (graft p (Dir m (remove_all ds es)) (fs w)).
Proof.
  intros IHwalk Hlen.
  induction ds as [|c ds IH]; intros es w Hp Hnd Hds; cbn [for_each].
  - cbn. rewrite (graft_same _ _ _ Hp). apply runs_ret.
  - inversion Hnd as [|? ? Hc Hnd']. subst.
    destruct (Hds c (or_introl eq_refl)) as (cm & ces & Hv & Hpl & Hh).
    assert (Hq : resolve (join p c) (fs w) = inr (Dir cm ces)).
    { unfold join. now rewrite (resolve_snoc _ c _ _ _ Hp), Hv. }
    set (f1 := graft p (Dir m (remove_entry c es)) (fs w)).
    eapply runs_bind with (f := f1).
    + eapply runs_bind.
      { apply (runs_query (CIslink (join p c)) RBool). }
      intros w1 H1. unfold fs_islink. rewrite Hq. cbv beta iota.
      rewrite <- H1 in Hq.
      destruct (IHwalk (join p c) w1 cm ces Hq Hpl Hh) as (f' & Hrun & Hf').
      { unfold join. rewrite length_app. cbn. lia. }
      { unfold join. now destruct p. }
      destruct Hf' as [Hf'|[Hf' _]].
      * unfold prune, join in Hf'. rewrite H1 in Hf'.
        rewrite (at_parent_snoc _ _ _ _ _ _ Hp) in Hf'.
        inversion Hf'. unfold f1. subst f'. exact Hrun.
      * exfalso. apply (f_equal (@List.length string)) in Hf'.
        unfold join in Hf'. rewrite length_app in Hf'. cbn in Hf'. lia.
    + intros w1 H1.
      assert (E : graft p (Dir m (remove_all (c :: ds) es)) (fs w)
                  = graft p (Dir m (remove_all ds (remove_entry c es)))
                      (fs w1)).
      { rewrite H1. unfold f1. now rewrite (graft_graft _ _ _ _ _ Hp). }
      rewrite E. apply IH; [|assumption|].
      * rewrite H1. apply (resolve_graft _ _ _ _ Hp).
      * intros c' Hc'.
        destruct (Hds c' (or_intror Hc')) as (cm' & ces' & Hv' & Hr).
        exists cm', ces'. split; [|assumption].
        rewrite assoc_remove_other; [assumption|].
        apply eqb_neq_false. intro. now subst.
Qed.

Lemma path_eqb_eq (p q : path) : path_eqb p q = true -> p = q.
Proof.
  unfold path_eqb. now destruct (list_eq_dec string_dec p q).
Qed.

Lemma walk_clears (fuel : nat) : walk_ok directory fuel.
Proof.
  induction fuel as [|fuel IHfuel]; intros p w m es Hp Hpl Hh Hlen Hne.
  - cbn in Hh. lia.
  - destruct (plain_Dir _ _ Hpl) as [Hnd Hsub].
    set (names := map fst es).
    set (D := filter (fun c => fs_isdir (join p c) (fs w)) names).
    set (N := filter (fun c => negb (fs_isdir (join p c) (fs w))) names).
    assert (HD : forall c, In c D ->
              exists cm ces, assoc c es = Some (Dir cm ces)
                             /\ plain (Dir cm ces) = true
                             /\ height (Dir cm ces) <= fuel).
    { intros c Hc. apply filter_In in Hc. destruct Hc as [Hc Hb].
      destruct (assoc_names _ _ Hc) as [v Hv].
      rewrite (isdir_child _ _ _ _ _ _ Hp Hv (Hsub _ _ Hv)) in Hb.
      destruct v as [| |cm ces]; try discriminate.
      exists cm, ces. repeat split; [assumption|exact (Hsub _ _ Hv)|].
      pose proof (height_child m _ _ _ Hv). lia. }
    assert (HN : forall c, In c N ->
              exists v, assoc c (remove_all D es) = Some v
                        /\ is_dir v = false).
    { intros c Hc. apply filter_In in Hc. destruct Hc as [Hc Hb].
      destruct (assoc_names _ _ Hc) as [v Hv].
      rewrite (isdir_child _ _ _ _ _ _ Hp Hv (Hsub _ _ Hv)) in Hb.
      exists v. split; [|now destruct (is_dir v)].
      rewrite assoc_remove_all_other; [assumption|].
      intro HcD. apply filter_In in HcD. destruct HcD as [_ Hb'].
      rewrite (isdir_child _ _ _ _ _ _ Hp Hv (Hsub _ _ Hv)) in Hb'.
      rewrite Hb' in Hb. discriminate. }
    assert (Hall : remove_all N (remove_all D es) = []).
    { rewrite <- remove_all_app. apply remove_all_covers.
      intros k v Hkv. apply in_or_app.
      assert (Hk : In k names) by (apply (in_map fst _ _ Hkv)).
      destruct (fs_isdir (join p k) (fs w)) eqn:Hb.
      - left. apply filter_In. now split.
      - right. apply filter_In. split; [assumption|]. now rewrite Hb. }
    set (f1 := graft p (Dir m (remove_all D es)) (fs w)).
    assert (Hp1 : resolve p f1 = inr (Dir m (remove_all D es)))
      by (apply (resolve_graft _ _ _ _ Hp)).
    set (f2 := graft p (Dir m []) (fs w)).
    assert (Hp2 : resolve p f2 = inr (Dir m []))
      by (apply (resolve_graft _ _ _ _ Hp)).
    destruct (prune_ok _ _ _ Hp Hne) as [f3 Hf3].
    assert (Hrmdir : fs_rmdir p f2 = inr f3).
    { unfold fs_rmdir.
      rewrite (at_parent_ext p _ (fun name es => inr (remove_entry name es))
                 f2 _ Hp2).
      - fold (prune p f2). unfold f2.
        now rewrite (prune_graft _ _ _ _ Hp).
      - intros name es0 E0. now rewrite E0. }
    (* the walk up to the loop body *)
    assert (Hpre : forall k : list string * list string -> M world unit,
              forall f',
              (forall w1, fs w1 = f1 -> runs (k (D, N)) w1 tt f') ->
              runs (listed <- catch_OSError
                                (names <- listdir posix p ;;
                                 ret_ (Some names))
                                (fun _ => ret_ None) ;;
                    match listed with
                    | None => ret_ tt
                    | Some names =>
                        r <- classify posix p names ;;
                        for_each (fst r) (fun name =>
                          l <- path_islink posix (join p name) ;;
                          if l then ret_ tt
                          else walk_bottom_up posix fuel (join p name) body)
                        ;;; k r
                    end) w tt f').
    { intros k f' Hk.
      eapply runs_bind with (a := Some names) (f := fs w).
      { apply runs_catch. eapply runs_bind.
        - apply runs_listdir. unfold fs_listdir. rewrite Hp. reflexivity.
        - intros w1 H1. rewrite <- H1. apply runs_ret. }
      intros w1 H1. eapply runs_bind with (a := (D, N)) (f := fs w).
      { pose proof (runs_classify p names w1) as Hc. rewrite H1 in Hc.
        exact Hc. }
      intros w2 H2. cbn [fst snd]. eapply runs_bind with (f := f1).
      - unfold f1. rewrite <- H2. apply runs_dirs; try assumption.
        + now rewrite H2.
        + apply NoDup_filter. exact Hnd.
      - exact Hk. }
    destruct N as [|c0 N0] eqn:EN.
    + (* no files *)
      cbn [remove_all fold_left] in Hall.
      destruct (path_eqb p directory) eqn:Eroot.
      * exists f2. split; [|right; split; [now apply path_eqb_eq|reflexivity]].
        cbn [walk_bottom_up]. apply Hpre. intros w1 H1.
        unfold visit. eapply runs_bind with (a := false) (f := f2).
        -- eapply runs_bind with (a := []) (f := f2).
           ++ assert (E1 : fs w1 = f2) by (rewrite H1; unfold f1, f2;
                                           now rewrite Hall).
              rewrite <- E1. apply runs_listdir. rewrite E1.
              unfold fs_listdir. now rewrite Hp2.
           ++ intros w2 H2. rewrite Eroot. cbn. rewrite <- H2.
              apply runs_ret.
        -- intros w2 H2. cbn. rewrite <- H2. apply runs_ret.
      * exists f3. split; [|now left].
        cbn [walk_bottom_up]. apply Hpre. intros w1 H1.
        unfold visit. eapply runs_bind with (a := true) (f := f2).
        -- eapply runs_bind with (a := []) (f := f2).
           ++ assert (E1 : fs w1 = f2) by (rewrite H1; unfold f1, f2;
                                           now rewrite Hall).
              rewrite <- E1. apply runs_listdir. rewrite E1.
              unfold fs_listdir. now rewrite Hp2.
           ++ intros w2 H2. rewrite Eroot. cbn. rewrite <- H2.
              apply runs_ret.
        -- intros w2 H2. cbn [when_]. apply runs_update.
           now rewrite H2.
    + (* files *)
      exists f3. split; [|now left].
      cbn [walk_bottom_up]. apply Hpre. intros w1 H1.
      unfold visit. eapply runs_bind with (f := f2).
      * assert (E1 : f2 = graft p (Dir m (remove_all (c0 :: N0)
                                           (remove_all D es))) (fs w1)).
        { rewrite H1, Hall. unfold f1, f2.
          now rewrite (graft_graft _ _ _ _ _ Hp). }
        rewrite E1. apply runs_files.
        -- now rewrite H1.
        -- rewrite <- EN. apply NoDup_filter. exact Hnd.
        -- exact HN.
      * intros w2 H2. cbn [when_]. unfold remove_dir_if_emtpy.
        apply runs_catch. apply runs_update. now rewrite H2.
Qed.

End Walk.

Lemma at_parent_cons (c : string) (q : path)
    (g : string -> entries -> errno + entries) (m : Z) (es : entries) :
  q <> [] ->
  at_parent (c :: q) g (Dir m es)
  = match assoc c es with
    | Some sub =>
        match at_parent q g sub with
        | inl e => inl e
        | inr sub' => inr (Dir m (set_entry c sub' es))
        end
    | None => inl ENOENT
    end.
Proof. destruct q; [congruence|reflexivity]. Qed.

Lemma rmdir_gone (p : path) (f f' : node) :
  prune p f = inr f' -> fs_rmdir p f' = inl ENOENT.
Proof.
  unfold prune, fs_rmdir. revert f f'.
  induction p as [|c p IH]; intros f f' H; [discriminate|].
  destruct f as [| |m es]; try discriminate.
  destruct (list_eq_dec string_dec p []) as [->|Hp].
  - cbn in H. inversion H. subst f'. cbn. now rewrite assoc_remove_same.
  - rewrite (at_parent_cons _ _ _ _ _ Hp) in H.
    destruct (assoc c es) as [sub|] eqn:E; [|discriminate].
    destruct (at_parent p _ sub) as [e|sub'] eqn:E'; [discriminate|].
    inversion H. subst f'.
    rewrite (at_parent_cons _ _ _ _ _ Hp), assoc_set_same.
    now rewrite (IH _ _ E').
Qed.

(** The general walk with cutoff zero takes a plain tree away whole. *)
Lemma general_walk_clears (fuel : nat) (directory : path) (w : world)
    (m : Z) (es : entries) (f3 : node) :
  resolve directory (fs w) = inr (Dir m es) ->
  directory <> [] ->
  plain (Dir m es) = true ->
  height (Dir m es) <= fuel ->
  prune directory (fs w) = inr f3 ->
  runs (general_walk posix fuel directory 0 true (remove posix)) w tt f3.
Proof.
  intros Hp Hne Hpl Hh Hf3. unfold general_walk.
  eapply runs_bind with (a := true) (f := fs w).
  { pose proof (runs_query (CExists directory) RBool (fs_exists directory) w)
      as Hq.
    unfold fs_exists in Hq at 2. rewrite Hp in Hq. exact Hq. }
  intros w1 H1. cbn [when_]. rewrite <- H1 in Hp.
  destruct (walk_clears directory fuel directory w1 m es Hp Hpl Hh
              (Nat.le_refl _) Hne) as (f' & Hrun & Hf').
  eapply runs_bind; [exact Hrun|].
  intros w2 H2. unfold remove_dir_if_emtpy.
  rewrite H1 in Hf', Hp.
  destruct Hf' as [Hf'|[_ Hf']].
  - assert (E : f' = f3) by congruence. rewrite E in H2.
    eapply fails_catch with (e := ENOENT) (f := f3).
    + rewrite <- H2. apply fails_update. rewrite H2.
      exact (rmdir_gone _ _ _ Hf3).
    + intros w3 H3. cbn. rewrite <- H3. apply runs_ret.
  - apply runs_catch. apply runs_update. rewrite H2, Hf'.
    unfold fs_rmdir.
    rewrite (at_parent_ext directory _
               (fun name es => inr (remove_entry name es)) _ (Dir m [])).
    + fold (prune directory (graft directory (Dir m []) (fs w))).
      now rewrite (prune_graft _ _ _ _ Hp).
    + apply (resolve_graft _ _ _ _ Hp).
    + intros name es0 E0. now rewrite E0.
Qed.

(** C4 (amended). For a directory other than the file system root that
    is a plain tree (every name once per directory, no symbolic link to a
    directory), on a file system nobody else touches, and fuel for its
    depth: [cleanup_directory] with cutoff zero, [remove_empty_dirs] true
    and no handler returns after the existence check and one recursive
    removal with errors ignored, the directory is gone, and the general
    walk with the same arguments returns and leaves the same tree. *)
Theorem fast_path_agrees_on_plain_tree (fuel : nat) (directory : path)
    (w : world) (m : Z) (es : entries) :
  resolve directory (fs w) = inr (Dir m es) ->
  directory <> [] ->
  plain (Dir m es) = true ->
  height (Dir m es) <= fuel ->
  let fast := cleanup_directory posix fuel directory 0 true None w in
  let slow := general_walk posix fuel directory 0 true (remove posix) w in
  fst (fst fast) = Done tt
  /\ snd fast = [(CExists directory, RBool true);
                 (CRmtree true directory, RUnit)]
  /\ prune directory (fs w) = inr (fs (snd (fst fast)))
  /\ fst (fst slow) = Done tt
  /\ fs (snd (fst slow)) = fs (snd (fst fast)).
Proof.
  intros Hp Hne Hpl Hh.
  destruct (prune_ok _ _ _ Hp Hne) as [f3 Hf3].
  assert (Hrm : fs_rmtree directory (fs w) = (inr tt, f3)).
  { unfold fs_rmtree. destruct directory as [|c p]; [congruence|].
    rewrite (at_parent_ext (c :: p) _
               (fun name es => inr (remove_entry name es)) _ _ Hp).
    - fold (prune (c :: p) (fs w)). now rewrite Hf3.
    - intros name es0 E0. now rewrite E0. }
  destruct (general_walk_clears fuel directory w m es f3 Hp Hne Hpl Hh Hf3)
    as (w' & t & Hslow & Hfs).
  cbv zeta. rewrite Hslow. cbn [fst snd].
  unfold cleanup_directory, bind, path_exists, total, rmtree_ignore_errors.
  cbn. unfold fs_exists. rewrite Hp. cbn. unfold do_rmtree.
  cbn. unfold quiet. rewrite Hrm. cbn. unfold quiet.
  repeat split; congruence.
Qed.

(** *** swap_dir next to a stale backup *)

Lemma add_ext_join (parent : path) (name ext : string) :
  add_ext (join parent name) ext = join parent (name ++ ext)%string.
Proof.
  unfold join. induction parent as [|c p IH]; cbn; [reflexivity|].
  rewrite IH. now destruct (p ++ [name]) eqn:E; [destruct p|].
Qed.

Lemma is_prefix_nil_r (p : path) : is_prefix p [] = true -> p = [].
Proof. now destruct p. Qed.

Lemma is_prefix_app (p q r : path) :
  is_prefix p q = true -> is_prefix p (q ++ r) = true.
Proof.
  revert q. induction p as [|c p IH]; intros q H; [reflexivity|].
  destruct q as [|d q]; [discriminate|]. cbn in *.
  apply andb_prop in H. destruct H as [H1 H2].
  now rewrite H1, (IH _ H2).
Qed.

Lemma is_prefix_snoc (p q : path) (c : string) :
  is_prefix p (q ++ [c]) = true -> p = q ++ [c] \/ is_prefix p q = true.
Proof.
  revert q. induction p as [|d p IH]; intros q H; [now right|].
  destruct q as [|e q]; cbn in *.
  - apply andb_prop in H. destruct H as [H1 H2].
    apply String.eqb_eq in H1. apply is_prefix_nil_r in H2. subst. now left.
  - apply andb_prop in H. destruct H as [H1 H2].
    apply String.eqb_eq in H1. subst e.
    destruct (IH _ H2) as [->|H3]; [now left|right].
    now rewrite String.eqb_refl.
Qed.

(** Taking [src] out leaves what is neither below nor above it. *)
Lemma prune_frame (src q : path) (f f1 : node) :
  prune src f = inr f1 ->
  is_prefix src q = false -> is_prefix q src = false ->
  resolve q f1 = resolve q f.
Proof.
  unfold prune. revert q f f1.
  induction src as [|c src IH]; intros q f f1 H H1 H2; [discriminate|].
  destruct q as [|d q]; [discriminate|].
  destruct f as [| |m es]; try discriminate.
  cbn in H1, H2.
  destruct (list_eq_dec string_dec src []) as [->|Hs].
  - cbn in H. inversion H. subst f1. cbn.
    destruct (String.eqb c d) eqn:E; [discriminate|].
    rewrite assoc_remove_other; [reflexivity|].
    rewrite String.eqb_sym. exact E.
  - rewrite (at_parent_cons _ _ _ _ _ Hs) in H.
    destruct (assoc c es) as [sub|] eqn:Ec; [|discriminate].
    destruct (at_parent src _ sub) as [e|sub'] eqn:E'; [discriminate|].
    inversion H. subst f1. cbn [resolve].
    destruct (String.eqb c d) eqn:E.
    + apply String.eqb_eq in E. subst d.
      rewrite String.eqb_refl in H2. cbn in H1, H2.
      rewrite assoc_set_same, Ec. exact (IH _ _ _ E' H1 H2).
    + rewrite assoc_set_other; [reflexivity|].
      rewrite String.eqb_sym. exact E.
Qed.

(** C10. On a file system nobody else touches: when the destination
    [parent/name] does not exist but [parent/name + backup_ext] is a
    directory, neither inside nor around the source directory, [swap_dir]
    with [keep_old] false returns, the source tree is at the destination,
    and the directory at [parent/name + backup_ext], which this call never
    created, is gone. *)
Theorem swap_dir_removes_stale_backup (src parent : path)
    (name ext : string) (w : world) (sm bm : Z) (ses bes : entries) :
  let dst := join parent name in
  let tmp := add_ext dst ext in
  resolve src (fs w) = inr (Dir sm ses) ->
  resolve dst (fs w) = inl ENOENT ->
  resolve tmp (fs w) = inr (Dir bm bes) ->
  is_prefix src tmp = false ->
  is_prefix tmp src = false ->
  let r := swap_dir posix src dst false ext w in
  fst (fst r) = Done tt
  /\ resolve tmp (fs (snd (fst r))) = inl ENOENT
  /\ resolve dst (fs (snd (fst r))) = inr (Dir sm ses).
Proof.
  intros dst tmp Hsrc Hdst Htmp Hpre1 Hpre2.
  set (tname := (name ++ ext)%string).
  assert (Etmp : tmp = parent ++ [tname]) by apply add_ext_join.
  assert (Eext : add_ext dst ext = parent ++ [tname]) by exact Etmp.
  clearbody tmp. subst tmp.
  assert (Hnames : String.eqb tname name = false).
  { apply eqb_neq_false. intro E. unfold dst, join in Hdst.
    rewrite E in Htmp. congruence. }
  assert (Hsrc_ne : src <> []).
  { intro E. subst src. discriminate. }
  destruct (prune_ok _ _ _ Hsrc Hsrc_ne) as [f1 Hf1].
  assert (Htmp1 : resolve (parent ++ [tname]) f1 = inr (Dir bm bes)).
  { rewrite <- Htmp. exact (prune_frame _ _ _ _ Hf1 Hpre1 Hpre2). }
  destruct (resolve_snoc_inv _ _ _ _ Htmp1) as (pm & pes & Hpar & Hbk).
  set (es2 := set_entry name (Dir sm ses) pes).
  set (f2 := graft parent (Dir pm es2) f1).
  assert (Hpar2 : resolve parent f2 = inr (Dir pm es2))
    by apply (resolve_graft _ _ _ _ Hpar).
  assert (Hbk2 : assoc tname es2 = Some (Dir bm bes)).
  { unfold es2. now rewrite assoc_set_other. }
  set (f3 := graft parent (Dir pm (remove_entry tname es2)) f2).
  assert (Hpar3 : resolve parent f3
                  = inr (Dir pm (remove_entry tname es2)))
    by apply (resolve_graft _ _ _ _ Hpar2).
  assert (Hrename : fs_rename src dst (fs w) = inr f2).
  { unfold fs_rename. rewrite Hsrc.
    assert (E1 : path_eqb src dst = false).
    { unfold path_eqb. destruct (list_eq_dec string_dec src dst);
        [congruence|reflexivity]. }
    assert (E2 : is_prefix src dst = false).
    { destruct (is_prefix src dst) eqn:E; [|reflexivity].
      apply is_prefix_snoc in E. destruct E as [E|E].
      - unfold dst, join in Hdst. congruence.
      - rewrite (is_prefix_app _ _ [tname] E) in Hpre1.
        discriminate. }
    rewrite E1, E2, Hdst. fold (prune src (fs w)). rewrite Hf1.
    unfold dst, join. rewrite (at_parent_snoc _ _ _ _ _ _ Hpar).
    reflexivity. }
  assert (Hrun : runs (swap_dir posix src dst false ext) w tt f3).
  { unfold swap_dir. rewrite Eext.
    eapply runs_bind with (a := false) (f := fs w).
    { pose proof (runs_query (CExists dst) RBool (fs_exists dst) w) as Hq.
      unfold fs_exists in Hq at 2. rewrite Hdst in Hq. exact Hq. }
    intros w1 H1. cbn [when_].
    eapply runs_bind with (f := fs w); [rewrite <- H1; apply runs_ret|].
    intros w2 H2.
    eapply runs_bind with (f := f2).
    { unfold _force_rename_dir. cbn [rename_loop].
      eapply runs_bind with (a := true) (f := f2).
      - apply runs_catch. eapply runs_bind with (f := f2).
        + apply runs_update. now rewrite H2.
        + intros w3 H3. rewrite <- H3. apply runs_ret.
      - intros w3 H3. rewrite <- H3. apply runs_ret. }
    intros w3 H3.
    eapply runs_bind with (a := true) (f := f2).
    { pose proof (runs_query (CExists (parent ++ [tname])) RBool
                    (fs_exists (parent ++ [tname])) w3) as Hq.
      unfold fs_exists in Hq at 2.
      rewrite H3, (resolve_snoc _ tname _ _ _ Hpar2), Hbk2 in Hq.
      exact Hq. }
    intros w4 H4. cbn [andb negb when_].
    eexists _, _. unfold rmtree, fallible. cbn. unfold do_rmtree.
    rewrite H4. unfold fs_rmtree.
    destruct (parent ++ [tname]) eqn:Ep; [now destruct parent|].
    rewrite <- Ep. rewrite (at_parent_snoc _ _ _ _ _ _ Hpar2), Hbk2.
    split; reflexivity. }
  destruct Hrun as (w' & t & Hrun & Hfs).
  cbv zeta. rewrite Hrun. cbn [fst snd]. rewrite Hfs.
  split; [reflexivity|]. split.
  - rewrite (resolve_snoc _ tname _ _ _ Hpar3).
    now rewrite assoc_remove_same.
  - unfold dst, join. rewrite (resolve_snoc _ name _ _ _ Hpar3).
    rewrite assoc_remove_other by (rewrite String.eqb_sym; exact Hnames).
    unfold es2. now rewrite assoc_set_same.
Qed.

Lemma fast_path_agrees_on_plain_tree_witness :
  fs (snd (fst (general_walk posix 3 ["d"] 0 true (remove posix)
                  (mk Scenes.cache_tree))))
  = fs (snd (fst (cleanup_directory posix 3 ["d"] 0 true None
                    (mk Scenes.cache_tree)))).
Proof.
  refine (proj2 (proj2 (proj2 (proj2
            (fast_path_agrees_on_plain_tree 3 ["d"] (mk Scenes.cache_tree)
               0 _ _ _ _ _))))).
  - reflexivity.
  - discriminate.
  - reflexivity.
  - vm_compute. lia.
Defined.

(** C4, as stated, fails: with a symbolic link to a directory in the tree
    the single recursive removal takes everything, while the general walk
    neither enters nor removes the link and so keeps the directories above
    it. *)
Lemma fast_path_differs_with_directory_link :
  fs (snd (fst (cleanup_directory posix 3 ["d"] 0 true None
                  (mk Scenes.linked_tree))))
  = Dir 0 []
  /\ fs (snd (fst (general_walk posix 3 ["d"] 0 true (remove posix)
                     (mk Scenes.linked_tree))))
     = Dir 0 [("d", Dir 0 [("l", Link 0 ToDir)])].
Proof. vm_compute. split; reflexivity. Qed.

Lemma swap_dir_removes_stale_backup_witness :
  fst (fst (swap_dir posix ["new"] ["cache"] false ".tmp"
              (mk Scenes.stale))) = Done tt
  /\ resolve ["cache.tmp"]
       (fs (snd (fst (swap_dir posix ["new"] ["cache"] false ".tmp"
                        (mk Scenes.stale))))) = inl ENOENT
  /\ resolve ["cache"]
       (fs (snd (fst (swap_dir posix ["new"] ["cache"] false ".tmp"
                        (mk Scenes.stale)))))
     = inr (Dir 0 [("tile", File 5 "x")]).
Proof.
  apply (swap_dir_removes_stale_backup ["new"] [] "cache" ".tmp"
           (mk Scenes.stale) 0 0 [("tile", File 5 "x")]
           [("old", File 1 "o")]); reflexivity.
Defined.

End Tree.

(** ** What the functions never call *)
Section Emits.

Context {W : Type} (os : OS W).

Variable P : event -> Prop.

Lemma emits_ret {A} (a : A) : emits P (ret_ (W := W) a).
Proof. intro w. constructor. Qed.

Lemma emits_throw {A} (e : exn) : emits P (throw (W := W) (A := A) e).
Proof. intro w. constructor. Qed.

Lemma emits_starve {A} : emits P (starve (W := W) (A := A)).
Proof. intro w. constructor. Qed.

Lemma emits_bind {A B} (m : M W A) (k : A -> M W B) :
  emits P m -> (forall a, emits P (k a)) -> emits P (bind m k).
Proof.
  intros Hm Hk w. unfold bind. specialize (Hm w).
  destruct (m w) as [[[a|e|] w1] t1]; cbn in *; try assumption.
  specialize (Hk a w1). destruct (k a w1) as [[o w2] t2]. cbn in *.
  apply Forall_app. now split.
Qed.

Lemma emits_bind_ret {A B} (a : A) (k : A -> M W B) :
  emits P (k a) -> emits P (bind (ret_ a) k).
Proof.
  intros Hk w. unfold bind, ret_. specialize (Hk w).
  now destruct (k a w) as [[o w2] t2].
Qed.

Lemma emits_catch {A} (m : M W A) (h : errno -> M W A) :
  emits P m -> (forall e, emits P (h e)) -> emits P (catch_OSError m h).
Proof.
  intros Hm Hh w. unfold catch_OSError. specialize (Hm w).
  destruct (m w) as [[[a|[e| | |]|] w1] t1]; cbn in *; try assumption.
  specialize (Hh e w1). destruct (h e w1) as [[o w2] t2]. cbn in *.
  apply Forall_app. now split.
Qed.

Lemma emits_when (b : bool) (m : M W unit) :
  emits P m -> emits P (when_ b m).
Proof. destruct b; [trivial|intros _; apply emits_ret]. Qed.

Lemma emits_for_each {A} (l : list A) (body : A -> M W unit) :
  (forall x, emits P (body x)) -> emits P (for_each l body).
Proof.
  intro H. induction l as [|x l IH]; cbn [for_each].
  - apply emits_ret.
  - apply emits_bind; [apply H|intros _; exact IH].
Qed.

Lemma emits_total {A} (c : call) (r : A -> ret) (f : W -> A * W) :
  (forall a, P (c, r a)) -> emits P (total c r f).
Proof.
  intros H w. unfold total. destruct (f w) as [a w1]. cbn.
  constructor; [apply H|constructor].
Qed.

Lemma emits_fallible {A} (cls : errno -> exn) (c : call) (r : A -> ret)
    (f : W -> (errno + A) * W) :
  (forall x, P (c, x)) -> emits P (fallible cls c r f).
Proof.
  intros H w. unfold fallible. destruct (f w) as [[e|a] w1]; cbn;
    (constructor; [apply H|constructor]).
Qed.

End Emits.

Section Never.

Context {W : Type} (os : OS W).

Lemma emits_classify (P : event -> Prop) (top : path)
    (names : list string) :
  (forall p r, P (CIsdir p, r)) -> emits P (classify os top names).
Proof.
  intro H. induction names as [|c names IH]; cbn [classify].
  - apply emits_ret.
  - apply emits_bind; [apply emits_total; intro; apply H|].
    intro d. apply emits_bind; [exact IH|]. intro r. apply emits_ret.
Qed.

(** A walk whose loop body keeps to [P] keeps to [P], when the questions
    the walk itself asks are in [P]. *)
Lemma emits_walk (P : event -> Prop) (fuel : nat)
    (body : path -> list string -> list string -> M W unit) :
  (forall p r, P (CListdir p, r)) ->
  (forall p r, P (CIsdir p, r)) ->
  (forall p r, P (CIslink p, r)) ->
  forall (Q : path -> Prop),
    (forall top c, Q top -> Q (join top c)) ->
    (forall top ds fs, Q top -> emits P (body top ds fs)) ->
    forall top, Q top -> emits P (walk_bottom_up os fuel top body).
Proof.
  intros Hl Hd Hk Q Hstep Hbody.
  induction fuel as [|fuel IH]; intros top Htop; cbn [walk_bottom_up].
  - apply emits_starve.
  - apply emits_bind.
    + apply emits_catch.
      * apply emits_bind; [apply emits_fallible; intro; apply Hl|].
        intro. apply emits_ret.
      * intro. apply emits_ret.
    + intros [names|]; [|apply emits_ret].
      apply emits_bind; [now apply emits_classify|].
      intro r. apply emits_bind.
      * apply emits_for_each. intro c.
        apply emits_bind; [apply emits_total; intro; apply Hk|].
        intros []; [apply emits_ret|]. apply IH. now apply Hstep.
      * intros _. now apply Hbody.
Qed.

Lemma is_prefix_refl (p : path) : TreeFS.is_prefix p p = true.
Proof.
  induction p as [|c p IH]; cbn; [reflexivity|].
  now rewrite String.eqb_refl.
Qed.

Lemma is_prefix_join (d p : path) (c : string) :
  TreeFS.is_prefix d p = true -> TreeFS.is_prefix d (join p c) = true.
Proof.
  revert p. induction d as [|x d IH]; intros p H; [reflexivity|].
  destruct p as [|y p]; [discriminate|]. cbn in *.
  apply andb_prop in H. destruct H as [H1 H2].
  rewrite H1. cbn. now apply IH.
Qed.

(** X1: with the handler the source gives by default, every removal that
    [cleanup_directory] asks for, on any operating system and with any
    arguments, is of a path at or below [directory]; and it asks for
    nothing else that changes the file system. *)
Theorem cleanup_directory_stays_below (fuel : nat) (directory : path)
    (before_timestamp : Z) (remove_empty_dirs : bool) (w : W) :
  Forall (removes_below directory)
    (snd (cleanup_directory os fuel directory before_timestamp
            remove_empty_dirs None w)).
Proof.
  set (P := removes_below directory).
  assert (Hself : TreeFS.is_prefix directory directory = true)
    by apply is_prefix_refl.
  assert (Hrd : forall p, TreeFS.is_prefix directory p = true ->
                          emits P (remove_dir_if_emtpy os p)).
  { intros p Hp. apply emits_catch.
    - apply emits_fallible. intro. exact Hp.
    - intro e. destruct (_ && _); [apply emits_throw|apply emits_ret]. }
  assert (Hwalk : emits P (general_walk os fuel directory before_timestamp
                             remove_empty_dirs (remove os))).
  { apply emits_bind; [apply emits_total; intro; exact I|].
    intro e. apply emits_when. apply emits_bind.
    - apply (emits_walk P fuel _ (fun p r => I) (fun p r => I)
               (fun p r => I)
               (fun p => TreeFS.is_prefix directory p = true)).
      + intros top c. apply is_prefix_join.
      + intros top ds fs Htop. unfold visit.
        destruct fs as [|f0 fs].
        * apply emits_bind.
          -- destruct remove_empty_dirs; [|apply emits_ret].
             apply emits_bind; [apply emits_fallible; intro; exact I|].
             intro. apply emits_ret.
          -- intro c. apply emits_when. apply emits_fallible.
             intro. exact Htop.
        * apply emits_bind.
          -- apply emits_for_each. intro name. apply emits_catch.
             ++ apply emits_bind.
                ** apply emits_when. apply emits_fallible. intro.
                   now apply is_prefix_join.
                ** intros _. apply emits_bind;
                     [apply emits_fallible; intro; exact I|].
                   intro. apply emits_when. apply emits_fallible. intro.
                   now apply is_prefix_join.
             ++ intro e0. destruct (negb _);
                  [apply emits_throw|apply emits_ret].
          -- intros _. apply emits_when. now apply Hrd.
      + exact Hself.
    - intros _. apply emits_when. now apply Hrd. }
  unfold cleanup_directory. apply emits_bind.
  - destruct (_ && _); [apply emits_total; intro; exact I|apply emits_ret].
  - intros []; [|exact Hwalk].
    intro w0. unfold rmtree_ignore_errors.
    destruct (shutil_rmtree os true directory w0) as [[e|[]] w1]; cbn;
      (constructor; [exact Hself|constructor]).
Qed.

(** X2: with [remove_empty_dirs] false and the default handler,
    [cleanup_directory] never asks for the removal of a directory: no
    [rmdir], no [rmtree]. *)
Theorem cleanup_directory_keeps_directories (fuel : nat) (directory : path)
    (before_timestamp : Z) (w : W) :
  Forall keeps_directories
    (snd (cleanup_directory os fuel directory before_timestamp false None
            w)).
Proof.
  set (P := keeps_directories).
  assert (Hwalk : emits P (general_walk os fuel directory before_timestamp
                             false (remove os))).
  { apply emits_bind; [apply emits_total; intro; exact I|].
    intro e. apply emits_when. apply emits_bind.
    - apply (emits_walk P fuel _ (fun p r => I) (fun p r => I)
               (fun p r => I) (fun _ => True)); [trivial| |exact I].
      intros top ds fs _. unfold visit. destruct fs as [|f0 fs].
      + apply emits_bind_ret. cbn. apply emits_ret.
      + apply emits_bind.
        * apply emits_for_each. intro name. apply emits_catch.
          -- apply emits_bind.
             ++ apply emits_when. apply emits_fallible. intro. exact I.
             ++ intros _. apply emits_bind;
                  [apply emits_fallible; intro; exact I|].
                intro. apply emits_when. apply emits_fallible. intro.
                exact I.
          -- intro e0. destruct (negb _);
               [apply emits_throw|apply emits_ret].
        * intros _. cbn. apply emits_ret.
    - intros _. cbn. apply emits_ret. }
  unfold cleanup_directory. rewrite andb_false_r.
  unfold bind, ret_. specialize (Hwalk w).
  destruct (general_walk os fuel directory before_timestamp false
              (remove os) w) as [[o w1] t].
  exact Hwalk.
Qed.

End Never.

(** ** swap_dir and write_atomic on any operating system *)
Section AnySystem.

Context {W : Type} (os : OS W).

Lemma loop_run_rmtree (src dst p : path) (left : nat) (o : outcome unit)
    (t : trace) (b : bool) (r : ret) :
  loop_run src dst left o t -> In (CRmtree b p, r) t -> p = dst /\ b = false.
Proof.
  induction 1 as [|left|left e0 He|left e0 e' He|left e0 o t He Hrun IH];
    intro Hin.
  - destruct Hin.
  - destruct Hin as [Hin|[]]; discriminate.
  - destruct Hin as [Hin|[]]; discriminate.
  - destruct Hin as [Hin|Hin]; [discriminate|].
    apply in_app_or in Hin. destruct Hin as [Hin|[Hin|[]]].
    + apply In_pause in Hin. discriminate.
    + inversion Hin. now split.
  - destruct Hin as [Hin|Hin]; [discriminate|].
    apply in_app_or in Hin. destruct Hin as [Hin|[Hin|Hin]].
    + apply In_pause in Hin. discriminate.
    + inversion Hin. now split.
    + now apply IH.
Qed.

(** X3: with [keep_old] true, whatever the operating system does, the only
    tree [swap_dir] asks to remove is the one at the destination, inside
    the retry loop; the backup is never removed. *)
Theorem swap_dir_keep_old_never_removes_backup (src dst : path)
    (backup_ext : string) (w : W) (b : bool) (p : path) (r : ret) :
  In (CRmtree b p, r) (snd (swap_dir os src dst true backup_ext w)) ->
  p = dst /\ b = false.
Proof.
  unfold swap_dir, _force_rename_dir.
  pose proof (rename_loop_run os src dst 10) as Hrun.
  generalize dependent (rename_loop os 10 src dst). intros loop Hrun.
  set (tmp := add_ext dst backup_ext).
  unfold bind, path_exists, total, when_, rename, rmtree, fallible, ret_.
  destruct (os_path_exists os dst w) as [[] w1]; cbn;
    [destruct (os_rename os dst tmp w1) as [[e1|[]] w2]; cbn|];
    try (intro H; in_cases H; fail);
    match goal with
    | |- context [loop ?x] =>
        specialize (Hrun x); destruct (loop x) as [[o w3] t3]
    end;
    cbn in Hrun; destruct o as [[]|x|]; cbn;
    try (intro H; in_cases H; exact (loop_run_rmtree _ _ _ _ _ _ _ _ Hrun H));
    destruct (os_path_exists os tmp w3) as [[] w4]; cbn;
    intro H; in_cases H;
    exact (loop_run_rmtree _ _ _ _ _ _ _ _ Hrun H).
Qed.

(** X4: a call of [_force_rename_dir] sleeps at most nine times and for
    less than 10.23 seconds in all, on any operating system.  (The nine
    quotients come to 10.22 seconds; the bound leaves room for the rounding
    of each of them to a double.) *)
Theorem force_rename_dir_total_sleep (src dst : path) (w : W) :
  List.length (sleeps (snd (_force_rename_dir os src dst w))) <= 9
  /\ (total_sleep (snd (_force_rename_dir os src dst w)) < 1023 # 100)%Q.
Proof.
  unfold _force_rename_dir, total_sleep.
  destruct (loop_run_sleeps (rename_loop_run os src dst 10 w)
              (Nat.le_refl 10)) as (Hs & Hk & _).
  rewrite Hs, Nat.sub_diag.
  generalize dependent (occupancy_failures
                          (snd (rename_loop os 10 src dst w))).
  intros k _ Hk.
  do 11 (destruct k as [|k];
         [split; [cbn; lia|vm_compute; reflexivity]|]).
  lia.
Qed.

(** X5: on a POSIX platform every file system call of [write_atomic] names
    the temporary path, but for the one rename of it onto the target: the
    target is never opened, written or unlinked. *)
Theorem write_atomic_touches_only_temporary (filename : path)
    (data : string) (w : W) :
  platform_win os = false ->
  Forall (on_temporary
            (add_ext filename
               (".tmp-" ++ str (fst (random_randint os 0 999999 w)))%string)
            filename)
    (snd (write_atomic os filename data w)).
Proof.
  intro Hp. unfold write_atomic. rewrite Hp. cbn [negb].
  unfold bind, catch_OSError, randint, total, open_excl, fdopen, with_file,
    write, close, rename, unlink, fallible, throw, ret_.
  destruct (random_randint os 0 999999 w) as [n w0]. cbn [fst].
  remember (add_ext filename (".tmp-" ++ str n)%string) as path_tmp.
  cbn.
  destruct (os_open_excl os path_tmp w0) as [[e1|fd] w1]; cbn;
    [|destruct (os_fdopen os fd w1) as [[e2|[]] w2]; cbn;
      [|destruct (file_write os fd data w2) as [[e3|[]] w3]; cbn;
        destruct (file_close os fd w3) as [[e4|[]] w4]; cbn;
        try destruct (os_rename os path_tmp filename w4) as [[e5|[]] w5];
        cbn]];
    try match goal with
        | |- context [os_unlink os path_tmp ?x] =>
            destruct (os_unlink os path_tmp x) as [[e9|[]] w9]; cbn
        end;
    repeat constructor.
Qed.

(** X6: on a POSIX platform, when [write_atomic] returns, its last call was
    the successful rename and it unlinked nothing; when it raises an
    [OSError], its last call was the one unlink of the temporary path, made
    right after the call that failed, and the error raised is that of the
    unlink when the unlink failed, and that of the call before it when the
    unlink worked. *)
Theorem write_atomic_ends_with_rename_or_unlink (filename : path)
    (data : string) (w : W) :
  platform_win os = false ->
  let path_tmp :=
    add_ext filename
      (".tmp-" ++ str (fst (random_randint os 0 999999 w)))%string in
  let r := write_atomic os filename data w in
  (fst (fst r) = Done tt ->
   exists rest,
     rev (snd r) = (CRename path_tmp filename, RUnit) :: rest
     /\ filter is_unlink (snd r) = [])
  /\
  (forall e, fst (fst r) = Raised (OSError e) ->
   exists res c e0 rest,
     rev (snd r) = (CUnlink path_tmp, res) :: (c, RErr e0) :: rest
     /\ is_unlink (c, RErr e0) = false
     /\ filter is_unlink rest = []
     /\ e = match res with RErr e' => e' | _ => e0 end).
Proof.
  intro Hp. cbv zeta. unfold write_atomic. rewrite Hp. cbn [negb].
  unfold bind, catch_OSError, randint, total, open_excl, fdopen, with_file,
    write, close, rename, unlink, fallible, throw, ret_.
  destruct (random_randint os 0 999999 w) as [n w0]. cbn [fst].
  remember (add_ext filename (".tmp-" ++ str n)%string) as path_tmp.
  cbn.
  destruct (os_open_excl os path_tmp w0) as [[e1|fd] w1]; cbn;
    [|destruct (os_fdopen os fd w1) as [[e2|[]] w2]; cbn;
      [|destruct (file_write os fd data w2) as [[e3|[]] w3]; cbn;
        destruct (file_close os fd w3) as [[e4|[]] w4]; cbn;
        try destruct (os_rename os path_tmp filename w4) as [[e5|[]] w5];
        cbn]];
    try match goal with
        | |- context [os_unlink os path_tmp ?x] =>
            destruct (os_unlink os path_tmp x) as [[e9|[]] w9]; cbn
        end;
    (split; [intro H; try discriminate H
            |intros e H; try discriminate H; inversion H; subst]);
    try (eexists; split; reflexivity);
    try (eexists _, _, _, _; repeat split; reflexivity).
Qed.

End AnySystem.

Lemma swap_dir_keep_old_never_removes_backup_witness :
  ["cache"] = ["cache"] /\ false = false.
Proof.
  apply (swap_dir_keep_old_never_removes_backup
           (TreeFS.TreeOS
              (Scenes.only_after 0 (Scenes.squatter ["cache"])) false)
           ["new"] ["cache"] ".tmp" (TreeFS.mk Scenes.staged)
           false ["cache"] RUnit).
  vm_compute. do 2 right. left. reflexivity.
Defined.

Lemma write_atomic_touches_only_temporary_witness :
  Forall (on_temporary ["d"; "t.tmp-42"] ["d"; "t"])
    (snd (write_atomic TreeFS.posix ["d"; "t"] "hello" Scenes.roomy)).
Proof.
  apply (write_atomic_touches_only_temporary TreeFS.posix ["d"; "t"]
           "hello" Scenes.roomy).
  reflexivity.
Defined.

Lemma write_atomic_ends_with_rename_or_unlink_witness :
  exists rest,
    rev (snd (write_atomic TreeFS.posix ["d"; "t"] "hello" Scenes.roomy))
    = (CRename ["d"; "t.tmp-42"] ["d"; "t"], RUnit) :: rest
    /\ filter is_unlink
         (snd (write_atomic TreeFS.posix ["d"; "t"] "hello" Scenes.roomy))
       = [].
Proof.
  apply (proj1 (write_atomic_ends_with_rename_or_unlink TreeFS.posix
                  ["d"; "t"] "hello" Scenes.roomy eq_refl)).
  reflexivity.
Defined.

(** ** Renames on the tree *)
Section Moves.

Import TreeFS.

Lemma apart_sym (p q : path) : apart p q = apart q p.
Proof. unfold apart. apply andb_comm. Qed.

Lemma apart_inv (p q : path) :
  apart p q = true -> is_prefix p q = false /\ is_prefix q p = false.
Proof.
  unfold apart. intro H. apply andb_prop in H. destruct H as [H1 H2].
  split; [now destruct (is_prefix p q)|now destruct (is_prefix q p)].
Qed.

Lemma is_prefix_same_length (p q : path) :
  List.length p = List.length q -> is_prefix p q = true -> p = q.
Proof.
  revert q. induction p as [|c p IH]; intros [|d q] Hl H; try discriminate;
    [reflexivity|].
  cbn in *. apply andb_prop in H. destruct H as [H1 H2].
  apply String.eqb_eq in H1. subst d. f_equal. apply IH; [lia|assumption].
Qed.

(** Two names of one directory. *)
Lemma apart_siblings (parent : path) (c d : string) :
  String.eqb c d = false -> apart (join parent c) (join parent d) = true.
Proof.
  intro H. unfold apart, join.
  assert (Hl : List.length (parent ++ [c]) = List.length (parent ++ [d]))
    by (rewrite !length_app; reflexivity).
  assert (Hne : parent ++ [c] <> parent ++ [d]).
  { intro E. apply app_inv_head in E. inversion E. subst.
    now rewrite String.eqb_refl in H. }
  destruct (is_prefix (parent ++ [c]) (parent ++ [d])) eqn:E1.
  { destruct (Hne (is_prefix_same_length _ _ Hl E1)). }
  destruct (is_prefix (parent ++ [d]) (parent ++ [c])) eqn:E2.
  { symmetry in Hl. destruct Hne.
    symmetry. exact (is_prefix_same_length _ _ Hl E2). }
  reflexivity.
Qed.

(** Taking [a] out keeps the directories that are not below it. *)
Lemma prune_dir (a q : path) (f f1 : node) (m : Z) (es : entries) :
  prune a f = inr f1 ->
  resolve q f = inr (Dir m es) ->
  is_prefix a q = false ->
  exists es', resolve q f1 = inr (Dir m es').
Proof.
  unfold prune. revert q f f1.
  induction a as [|c a IH]; intros q f f1 H Hq Hpre; [discriminate|].
  destruct f as [| |m0 es0]; try discriminate.
  destruct (list_eq_dec string_dec a []) as [->|Ha].
  - cbn in H. inversion H. subst f1.
    destruct q as [|d q]; cbn in *.
    + inversion Hq. subst. now eexists.
    + destruct (String.eqb c d) eqn:E; [discriminate|].
      rewrite assoc_remove_other by (rewrite String.eqb_sym; exact E).
      now exists es.
  - rewrite (at_parent_cons _ _ _ _ _ Ha) in H.
    destruct (assoc c es0) as [sub|] eqn:Ec; [|discriminate].
    destruct (at_parent a _ sub) as [e|sub'] eqn:E'; [discriminate|].
    inversion H. subst f1.
    destruct q as [|d q]; cbn in Hq |- *.
    + inversion Hq. subst. now eexists.
    + cbn in Hpre. destruct (String.eqb c d) eqn:E.
      * apply String.eqb_eq in E. subst d. cbn in Hpre.
        rewrite assoc_set_same. rewrite Ec in Hq.
        exact (IH _ _ _ E' Hq Hpre).
      * rewrite assoc_set_other by (rewrite String.eqb_sym; exact E).
        now exists es.
Qed.

(** Putting [n] at [b] leaves what is neither below nor above [b]. *)
Lemma put_frame (b q : path) (n f f' : node) :
  at_parent b (fun name es => inr (set_entry name n es)) f = inr f' ->
  apart b q = true ->
  resolve q f' = resolve q f.
Proof.
  intros H Hap. apply apart_inv in Hap. destruct Hap as [H1 H2].
  revert q f f' H H1 H2.
  induction b as [|c b IH]; intros q f f' H H1 H2; [discriminate|].
  destruct q as [|d q]; [discriminate|].
  destruct f as [| |m es]; try discriminate.
  cbn in H1, H2.
  destruct (list_eq_dec string_dec b []) as [->|Hb].
  - cbn in H. inversion H. subst f'. cbn.
    destruct (String.eqb c d) eqn:E; [discriminate|].
    rewrite assoc_set_other; [reflexivity|].
    rewrite String.eqb_sym. exact E.
  - rewrite (at_parent_cons _ _ _ _ _ Hb) in H.
    destruct (assoc c es) as [sub|] eqn:Ec; [|discriminate].
    destruct (at_parent b _ sub) as [e|sub'] eqn:E'; [discriminate|].
    inversion H. subst f'. cbn [resolve].
    destruct (String.eqb c d) eqn:E.
    + apply String.eqb_eq in E. subst d.
      rewrite String.eqb_refl in H2. cbn in H1, H2.
      rewrite assoc_set_same, Ec. exact (IH _ _ _ E' H1 H2).
    + rewrite assoc_set_other; [reflexivity|].
      rewrite String.eqb_sym. exact E.
Qed.

(** A rename onto a free name in an existing directory: the node moves,
    its old name is free, and the rest of the tree is as before. *)
Lemma rename_to_free_name (a parent : path) (c : string) (f n : node)
    (pm : Z) (pes : entries) (e : errno) :
  resolve a f = inr n ->
  resolve parent f = inr (Dir pm pes) ->
  resolve (join parent c) f = inl e ->
  apart a (join parent c) = true ->
  exists f',
    fs_rename a (join parent c) f = inr f'
    /\ resolve (join parent c) f' = inr n
    /\ resolve a f' = inl ENOENT
    /\ forall q, apart a q = true -> apart (join parent c) q = true ->
                 resolve q f' = resolve q f.
Proof.
  intros Ha Hpar Hfree Hap.
  destruct (apart_inv _ _ Hap) as [Hab Hba].
  assert (Hne : a <> []) by (intro; subst; discriminate).
  destruct (prune_ok _ _ _ Ha Hne) as [f1 Hf1].
  assert (Hpa : is_prefix a parent = false).
  { destruct (is_prefix a parent) eqn:E; [|reflexivity].
    unfold join in Hab. now rewrite (is_prefix_app _ _ [c] E) in Hab. }
  destruct (prune_dir _ _ _ _ _ _ Hf1 Hpar Hpa) as [pes1 Hpar1].
  set (f2 := graft parent (Dir pm (set_entry c n pes1)) f1).
  assert (Hput : at_parent (join parent c)
                   (fun name es => inr (set_entry name n es)) f1 = inr f2).
  { unfold join. now rewrite (at_parent_snoc _ _ _ _ _ _ Hpar1). }
  exists f2. repeat split.
  - unfold fs_rename. rewrite Ha.
    assert (E1 : path_eqb a (join parent c) = false).
    { unfold path_eqb. destruct (list_eq_dec string_dec a (join parent c));
        [congruence|reflexivity]. }
    rewrite E1, Hab, Hfree. fold (prune a f). rewrite Hf1.
    destruct n; exact Hput.
  - unfold join, f2.
    rewrite (resolve_snoc _ c _ _ _ (resolve_graft _ _ _ _ Hpar1)).
    now rewrite assoc_set_same.
  - rewrite (put_frame _ _ _ _ _ Hput) by (rewrite apart_sym; exact Hap).
    exact (prune_gone _ _ _ Hf1).
  - intros q Hq1 Hq2. rewrite (put_frame _ _ _ _ _ Hput Hq2).
    destruct (apart_inv _ _ Hq1) as [Hq3 Hq4].
    exact (prune_frame _ _ _ _ Hf1 Hq3 Hq4).
Qed.

End Moves.

(** ** swap_dir on a tree nobody else touches *)
Section Swaps.

Import TreeFS.

Lemma rmtree_dir (p : path) (f : node) (m : Z) (es : entries) :
  resolve p f = inr (Dir m es) -> p <> [] ->
  exists f', prune p f = inr f' /\ fs_rmtree p f = (inr tt, f').
Proof.
  intros Hp Hne. destruct (prune_ok _ _ _ Hp Hne) as [f' Hf'].
  exists f'. split; [assumption|].
  unfold fs_rmtree. destruct p as [|c p]; [congruence|].
  rewrite (at_parent_ext (c :: p) _
             (fun name es => inr (remove_entry name es)) _ _ Hp).
  - fold (prune (c :: p) f). now rewrite Hf'.
  - intros name es0 E0. now rewrite E0.
Qed.

Lemma runs_exists (p : path) (w : world) :
  runs (path_exists posix p) w (fs_exists p (fs w)) (fs w).
Proof. apply (runs_query (CExists p) RBool). Qed.

Lemma runs_rmtree (p : path) (w : world) (f' : node) :
  fs_rmtree p (fs w) = (inr tt, f') -> runs (rmtree posix p) w tt f'.
Proof.
  intro H. eexists _, _. unfold rmtree, fallible. cbn. unfold do_rmtree.
  rewrite H. split; reflexivity.
Qed.

Lemma append_nonempty (name ext : string) :
  ext <> "" -> String.eqb (name ++ ext) name = false.
Proof.
  intro H. apply String.eqb_neq. intro E. apply H. clear H.
  induction name as [|a name IH]; cbn in E; [exact E|].
  inversion E. now apply IH.
Qed.

Lemma not_prefix_of_parent (parent : path) (c : string) :
  is_prefix (join parent c) parent = false.
Proof.
  unfold join. induction parent as [|d p IH]; cbn; [reflexivity|].
  now rewrite String.eqb_refl, IH.
Qed.

(** One successful attempt of the retry loop. *)
Lemma runs_force_rename_dir_at_once (src dst : path) (w : world)
    (f' : node) :
  fs_rename src dst (fs w) = inr f' ->
  runs (_force_rename_dir posix src dst) w tt f'.
Proof.
  intro H. unfold _force_rename_dir. cbn [rename_loop].
  eapply runs_bind with (a := true) (f := f').
  - apply runs_catch. eapply runs_bind with (f := f').
    + now apply runs_update.
    + intros w3 H3. rewrite <- H3. apply runs_ret.
  - intros w3 H3. rewrite <- H3. apply runs_ret.
Qed.

(** X7: publishing where nothing was.  On a tree nobody else touches, with
    a backup suffix that holds no path separator, the source a directory,
    the destination free in an existing directory and the backup name
    free, [swap_dir] returns, the source tree is at the destination, the
    source path is gone, and every path that has nothing to do with the two
    resolves as before. *)
Theorem swap_dir_publishes (src parent : path) (name ext : string)
    (keep_old : bool) (w : world) (sm pm : Z) (ses pes : entries)
    (e : errno) :
  let dst := join parent name in
  let tmp := join parent (name ++ ext)%string in
  no_separator ext = true ->
  resolve src (fs w) = inr (Dir sm ses) ->
  resolve parent (fs w) = inr (Dir pm pes) ->
  resolve dst (fs w) = inl e ->
  fs_exists tmp (fs w) = false ->
  ext <> "" ->
  apart src dst = true ->
  apart src tmp = true ->
  let r := swap_dir posix src dst keep_old ext w in
  fst (fst r) = Done tt
  /\ resolve dst (fs (snd (fst r))) = inr (Dir sm ses)
  /\ resolve src (fs (snd (fst r))) = inl ENOENT
  /\ forall q, apart src q = true -> apart dst q = true ->
               resolve q (fs (snd (fst r))) = resolve q (fs w).
Proof.
  intros dst tmp _ Hsrc Hpar Hdst Htmp Hext Hap1 Hap2.
  assert (Hsib : apart dst tmp = true).
  { apply apart_siblings. rewrite String.eqb_sym.
    now apply append_nonempty. }
  destruct (rename_to_free_name _ _ _ _ _ _ _ _ Hsrc Hpar Hdst Hap1)
    as (f2 & Hren & Hd2 & Hs2 & Hframe).
  assert (Hrun : runs (swap_dir posix src dst keep_old ext) w tt f2).
  { unfold swap_dir. rewrite (add_ext_join parent name ext : add_ext dst ext = tmp).
    eapply runs_bind with (a := false) (f := fs w).
    { pose proof (runs_exists dst w) as Hq. unfold fs_exists in Hq at 1.
      rewrite Hdst in Hq. exact Hq. }
    intros w1 H1. cbn [when_].
    eapply runs_bind with (f := fs w); [rewrite <- H1; apply runs_ret|].
    intros w2 H2.
    eapply runs_bind with (f := f2).
    { apply runs_force_rename_dir_at_once. now rewrite H2. }
    intros w3 H3.
    eapply runs_bind with (a := false) (f := f2).
    { assert (E : fs_exists tmp f2 = false).
      { unfold fs_exists in *. now rewrite (Hframe tmp Hap2 Hsib). }
      pose proof (runs_exists tmp w3) as Hq. rewrite H3, E in Hq.
      exact Hq. }
    intros w4 H4. cbn. rewrite <- H4. apply runs_ret. }
  destruct Hrun as (w' & t & Hrun & Hfs).
  cbv zeta. rewrite Hrun. cbn [fst snd]. rewrite Hfs. now repeat split.
Qed.

Lemma swap_dir_publishes_witness :
  resolve ["cache"]
    (fs (snd (fst (swap_dir posix ["new"] ["cache"] false ".tmp"
                     (mk Scenes.staged)))))
  = inr (Dir 0 [("tile", File 5 "x")]).
Proof.
  refine (proj1 (proj2
            (swap_dir_publishes ["new"] [] "cache" ".tmp" false
               (mk Scenes.staged) 0 0 [("tile", File 5 "x")]
               [("new", Dir 0 [("tile", File 5 "x")])] ENOENT _ _ _ _ _ _ _
               _)));
    try reflexivity.
  discriminate.
Defined.

(** X8: replacing what was published.  On a tree nobody else touches,
    with a backup suffix that holds no path separator, source and
    destination directories and the backup name free, [swap_dir] returns, the source tree is at the destination, the source
    path is gone, the old tree is at the backup name when [keep_old] is
    set and deleted otherwise, and unrelated paths resolve as before. *)
Theorem swap_dir_replaces (src parent : path) (name ext : string)
    (keep_old : bool) (w : world) (sm om : Z) (ses oes : entries)
    (e : errno) :
  let dst := join parent name in
  let tmp := join parent (name ++ ext)%string in
  no_separator ext = true ->
  resolve src (fs w) = inr (Dir sm ses) ->
  resolve dst (fs w) = inr (Dir om oes) ->
  resolve tmp (fs w) = inl e ->
  apart src dst = true ->
  apart src tmp = true ->
  let r := swap_dir posix src dst keep_old ext w in
  fst (fst r) = Done tt
  /\ resolve dst (fs (snd (fst r))) = inr (Dir sm ses)
  /\ resolve src (fs (snd (fst r))) = inl ENOENT
  /\ resolve tmp (fs (snd (fst r)))
     = (if keep_old then inr (Dir om oes) else inl ENOENT)
  /\ forall q, apart src q = true -> apart dst q = true ->
               apart tmp q = true ->
               resolve q (fs (snd (fst r))) = resolve q (fs w).
Proof.
  intros dst tmp _ Hsrc Hdst Htmp Hap1 Hap2.
  assert (Hnames : String.eqb name (name ++ ext) = false).
  { apply String.eqb_neq. intro E. unfold dst, tmp in *.
    rewrite <- E in Htmp. congruence. }
  assert (Hsib : apart dst tmp = true) by now apply apart_siblings.
  destruct (resolve_snoc_inv _ _ _ _ Hdst) as (pm & pes & Hpar & _).
  destruct (rename_to_free_name _ _ _ _ _ _ _ _ Hdst Hpar Htmp Hsib)
    as (f1 & Hren1 & Ht1 & Hd1 & Hframe1).
  assert (Hs1 : resolve src f1 = inr (Dir sm ses)).
  { rewrite <- Hsrc. apply Hframe1; now rewrite apart_sym. }
  destruct (resolve_snoc_inv _ _ _ _ Ht1) as (pm1 & pes1 & Hpar1 & _).
  destruct (rename_to_free_name _ _ _ _ _ _ _ _ Hs1 Hpar1 Hd1 Hap1)
    as (f2 & Hren2 & Hd2 & Hs2 & Hframe2).
  assert (Ht2 : resolve tmp f2 = inr (Dir om oes)).
  { rewrite <- Ht1. now apply Hframe2. }
  assert (Htne : tmp <> []) by (unfold tmp, join; now destruct parent).
  destruct (rmtree_dir _ _ _ _ Ht2 Htne) as (f3 & Hpr3 & Hrm3).
  set (f' := if keep_old then f2 else f3).
  assert (Hrun : runs (swap_dir posix src dst keep_old ext) w tt f').
  { unfold swap_dir.
    rewrite (add_ext_join parent name ext : add_ext dst ext = tmp).
    eapply runs_bind with (a := true) (f := fs w).
    { pose proof (runs_exists dst w) as Hq. unfold fs_exists in Hq at 1.
      rewrite Hdst in Hq. exact Hq. }
    intros w1 H1. cbn [when_].
    eapply runs_bind with (f := f1).
    { apply runs_update. now rewrite H1. }
    intros w2 H2.
    eapply runs_bind with (f := f2).
    { apply runs_force_rename_dir_at_once. now rewrite H2. }
    intros w3 H3.
    eapply runs_bind with (a := true) (f := f2).
    { pose proof (runs_exists tmp w3) as Hq. unfold fs_exists in Hq at 1.
      rewrite H3, Ht2 in Hq. exact Hq. }
    intros w4 H4. unfold f'. destruct keep_old; cbn.
    - rewrite <- H4. apply runs_ret.
    - apply runs_rmtree. now rewrite H4. }
  destruct Hrun as (w' & t & Hrun & Hfs).
  cbv zeta. rewrite Hrun. cbn [fst snd]. rewrite Hfs. unfold f'.
  destruct (apart_inv _ _ Hsib) as [Hdt Htd].
  destruct (apart_inv _ _ Hap2) as [Hst Hts].
  split; [reflexivity|]. destruct keep_old.
  - repeat split; try assumption.
    intros q Hq1 Hq2 Hq3. rewrite (Hframe2 q Hq1 Hq2).
    apply Hframe1; assumption.
  - repeat split.
    + rewrite (prune_frame _ _ _ _ Hpr3 Htd Hdt). exact Hd2.
    + rewrite (prune_frame _ _ _ _ Hpr3 Hts Hst). exact Hs2.
    + exact (prune_gone _ _ _ Hpr3).
    + intros q Hq1 Hq2 Hq3. destruct (apart_inv _ _ Hq3) as [Hq4 Hq5].
      rewrite (prune_frame _ _ _ _ Hpr3 Hq4 Hq5), (Hframe2 q Hq1 Hq2).
      apply Hframe1; assumption.
Qed.

Lemma swap_dir_replaces_witness :
  resolve ["cache.tmp"]
    (fs (snd (fst (swap_dir posix ["new"] ["cache"] true ".tmp"
                     (mk Scenes.published)))))
  = inr (Dir 0 [("old", File 1 "o")]).
Proof.
  refine (proj1 (proj2 (proj2 (proj2
            (swap_dir_replaces ["new"] [] "cache" ".tmp" true
               (mk Scenes.published) 0 0 [("tile", File 5 "x")]
               [("old", File 1 "o")] ENOENT _ _ _ _ _ _)))));
    reflexivity.
Defined.

(** X9: when the destination exists and the backup name is taken by a
    directory that is not empty, [swap_dir] raises ENOTEMPTY from its first
    rename, which no retry protects, and the tree is as before. *)
Theorem swap_dir_blocked_by_stale_backup (src parent : path)
    (name ext : string) (keep_old : bool) (w : world) (om bm : Z)
    (oes bes : entries) (b : string * node) :
  let dst := join parent name in
  let tmp := join parent (name ++ ext)%string in
  resolve dst (fs w) = inr (Dir om oes) ->
  resolve tmp (fs w) = inr (Dir bm (b :: bes)) ->
  ext <> "" ->
  let r := swap_dir posix src dst keep_old ext w in
  fst (fst r) = Raised (OSError ENOTEMPTY)
  /\ fs (snd (fst r)) = fs w.
Proof.
  intros dst tmp Hdst Htmp Hext.
  assert (Hsib : apart dst tmp = true).
  { apply apart_siblings. rewrite String.eqb_sym.
    now apply append_nonempty. }
  destruct (apart_inv _ _ Hsib) as [Hdt _].
  assert (Hren : fs_rename dst tmp (fs w) = inl ENOTEMPTY).
  { unfold fs_rename. rewrite Hdst, Hdt, Htmp.
    unfold path_eqb. destruct (list_eq_dec string_dec dst tmp) as [E|_];
      [|reflexivity].
    rewrite E in Hdt. now rewrite is_prefix_refl in Hdt. }
  assert (Hrun : fails (swap_dir posix src dst keep_old ext) w
                    (OSError ENOTEMPTY) (fs w)).
  { unfold swap_dir.
    rewrite (add_ext_join parent name ext : add_ext dst ext = tmp).
    eapply fails_bind with (a := true) (f := fs w).
    { pose proof (runs_exists dst w) as Hq. unfold fs_exists in Hq at 1.
      rewrite Hdst in Hq. exact Hq. }
    intros w1 H1. cbn [when_]. apply fails_bind_l.
    rewrite <- H1. apply fails_update. now rewrite H1. }
  destruct Hrun as (w' & t & Hrun & Hfs).
  cbv zeta. rewrite Hrun. now split.
Qed.

Lemma swap_dir_blocked_by_stale_backup_witness :
  fst (fst (swap_dir posix ["new"] ["cache"] false ".tmp"
              (mk MoreScenes.both))) = Raised (OSError ENOTEMPTY)
  /\ fs (snd (fst (swap_dir posix ["new"] ["cache"] false ".tmp"
                     (mk MoreScenes.both)))) = MoreScenes.both.
Proof.
  apply (swap_dir_blocked_by_stale_backup ["new"] [] "cache" ".tmp"
           false (mk MoreScenes.both) 0 0 [("old", File 1 "o")] []
           ("older", File 0 "n")); [reflexivity|reflexivity|discriminate].
Defined.

End Swaps.

(** ** write_atomic on a tree nobody else touches *)

(** Unfolding the calls of [write_atomic] on the tree. *)
Ltac posix_calls :=
  unfold bind, catch_OSError, randint, total, open_excl, fdopen, with_file,
    write, close, rename, unlink, open_write_binary, fallible, throw, ret_;
  cbn [platform_win random_randint os_open_excl os_fdopen file_write
       file_close os_rename os_unlink open_wb TreeFS.posix TreeFS.TreeOS
       negb].

Section Writes.

Import TreeFS.

Lemma remove_absent (c : string) (es : entries) :
  assoc c es = None -> remove_entry c es = es.
Proof.
  induction es as [|[k v] es IH]; cbn; [reflexivity|].
  destruct (String.eqb c k); [discriminate|]. intro H. now rewrite IH.
Qed.

Lemma set_remove_other (c d : string) (x : node) (es : entries) :
  String.eqb c d = false ->
  remove_entry c (set_entry d x es) = set_entry d x (remove_entry c es).
Proof.
  intro H. induction es as [|[k v] es IH]; cbn.
  - now rewrite H.
  - destruct (String.eqb d k) eqn:Ed, (String.eqb c k) eqn:Ec; cbn;
      rewrite ?Ed, ?Ec, ?IH; try reflexivity.
    apply String.eqb_eq in Ed, Ec. subst. now rewrite String.eqb_refl in H.
Qed.

(** What [random.randint] leaves of the world. *)
Lemma randint_world (lo hi : Z) (w : world) :
  let w0 := snd (do_randint quiet lo hi w) in
  fs w0 = fs w /\ tick w0 = S (tick w) /\ free w0 = free w
  /\ fds w0 = fds w.
Proof.
  unfold do_randint. destruct (entropy w); cbn; now unfold quiet.
Qed.

(** A file renamed onto a name of its own directory that holds no
    directory. *)
Lemma rename_sibling (parent : path) (c d : string) (f x : node) (pm : Z)
    (pes : entries) :
  resolve parent f = inr (Dir pm pes) ->
  assoc c pes = Some x ->
  is_dir x = false ->
  String.eqb c d = false ->
  (forall m es, assoc d pes <> Some (Dir m es)) ->
  fs_rename (join parent c) (join parent d) f
  = inr (graft parent (Dir pm (set_entry d x (remove_entry c pes))) f).
Proof.
  intros Hpar Hc Hx Hcd Hd. unfold fs_rename, join.
  rewrite (resolve_snoc _ c _ _ _ Hpar), Hc.
  assert (Hap : apart (parent ++ [c]) (parent ++ [d]) = true)
    by now apply apart_siblings.
  destruct (apart_inv _ _ Hap) as [H1 _]. rewrite H1.
  assert (E : path_eqb (parent ++ [c]) (parent ++ [d]) = false).
  { unfold path_eqb.
    destruct (list_eq_dec string_dec (parent ++ [c]) (parent ++ [d]))
      as [E|]; [|reflexivity].
    apply app_inv_head in E. inversion E. subst.
    now rewrite String.eqb_refl in Hcd. }
  rewrite E, (resolve_snoc _ d _ _ _ Hpar).
  assert (Hfits : match x, match assoc d pes with
                           | Some y => inr y
                           | None => inl ENOENT
                           end with
                  | Dir _ _, inr (Dir _ []) => inr tt
                  | Dir _ _, inr (Dir _ (_ :: _)) => inl ENOTEMPTY
                  | Dir _ _, inr _ => inl ENOTDIR
                  | _, inr (Dir _ _) => inl EISDIR
                  | _, _ => @inr errno unit tt
                  end = inr tt).
  { destruct x; try discriminate;
      destruct (assoc d pes) as [[]|] eqn:Ed; try reflexivity;
      now destruct (Hd _ _ eq_refl). }
  rewrite Hfits, (at_parent_snoc _ _ _ _ _ _ Hpar).
  rewrite (at_parent_snoc _ _ _ _ _ _ (resolve_graft _ _ _ _ Hpar)).
  now rewrite (graft_graft _ _ _ _ _ Hpar).
Qed.

(** [os.open] with [O_EXCL] on a free name of an existing directory. *)
Lemma open_excl_creates (parent : path) (c : string) (w : world) (pm : Z)
    (pes : entries) :
  resolve parent (fs w) = inr (Dir pm pes) ->
  assoc c pes = None ->
  do_open_excl quiet (join parent c) w
  = (inr (List.length (fds w)),
     {| fs := graft parent
                (Dir pm (set_entry c (File (Z.of_nat (tick w)) "") pes))
                (fs w);
        tick := S (tick w); free := free w;
        fds := fds w ++ [join parent c]; entropy := entropy w |}).
Proof.
  intros Hpar Hc. unfold do_open_excl, join.
  rewrite (resolve_snoc _ c _ _ _ Hpar), Hc.
  now rewrite (at_parent_snoc _ _ _ _ _ _ Hpar).
Qed.

(** A write through a descriptor whose file is still at its path. *)
Lemma write_fills (parent : path) (c data : string) (fd : nat) (w : world)
    (pm m : Z) (pes : entries) (s : string) :
  nth_error (fds w) fd = Some (join parent c) ->
  resolve parent (fs w) = inr (Dir pm pes) ->
  assoc c pes = Some (File m s) ->
  String.length data <= free w ->
  do_write quiet fd data w
  = (inr tt,
     {| fs := graft parent
                (Dir pm (set_entry c (File (Z.of_nat (tick w)) data) pes))
                (fs w);
        tick := S (tick w); free := free w - String.length data;
        fds := fds w; entropy := entropy w |}).
Proof.
  intros Hfd Hpar Hc Hroom. unfold do_write, join in *. rewrite Hfd.
  destruct (Nat.ltb_spec (free w) (String.length data)) as [H|_]; [lia|].
  rewrite (resolve_snoc _ c _ _ _ Hpar), Hc.
  now rewrite (at_parent_snoc _ _ _ _ _ _ Hpar).
Qed.

Lemma nth_error_last {A} (l : list A) (x : A) :
  nth_error (l ++ [x]) (List.length l) = Some x.
Proof. induction l; cbn; [reflexivity|assumption]. Qed.

(** X10: the round trip on a POSIX platform: with an existing parent
    directory, a free temporary name, no directory in the way and room on
    the device, [write_atomic] returns, the only change to the tree is that
    the target is a file holding the data, and the temporary name is free
    again. *)
Theorem write_atomic_round_trip (parent : path) (name data : string)
    (w : world) (pm : Z) (pes : entries) :
  let filename := join parent name in
  let n := fst (random_randint posix 0 999999 w) in
  let tmpname := (name ++ ".tmp-" ++ str n)%string in
  resolve parent (fs w) = inr (Dir pm pes) ->
  assoc tmpname pes = None ->
  (forall m es, assoc name pes <> Some (Dir m es)) ->
  String.length data <= free w ->
  let r := write_atomic posix filename data w in
  let written := File (Z.of_nat (tick w + 3)) data in
  fst (fst r) = Done tt
  /\ fs (snd (fst r))
     = graft parent (Dir pm (set_entry name written pes)) (fs w)
  /\ resolve filename (fs (snd (fst r))) = inr written
  /\ resolve (join parent tmpname) (fs (snd (fst r))) = inl ENOENT.
Proof.
  intros filename n tmpname Hpar Hfree Hnodir Hroom.
  cbv zeta. subst n tmpname filename. unfold write_atomic. posix_calls.
  cbn [random_randint posix TreeOS] in Hfree.
  destruct (randint_world 0 999999 w) as (Hf0 & Ht0 & Hr0 & Hd0).
  destruct (do_randint quiet 0 999999 w) as [n w0]. cbn [fst snd] in *.
  rewrite add_ext_join.
  set (tmpname := (name ++ ".tmp-" ++ str n)%string) in *.
  rewrite <- Hf0 in Hpar.
  rewrite (open_excl_creates _ _ _ _ _ Hpar Hfree).
  unfold do_fdopen, do_close, step. cbn [fds fs tick free entropy].
  rewrite nth_error_last. cbn [fds fs tick free entropy].
  erewrite (write_fills parent tmpname data _ _ pm _ _ "");
    [| cbn [fds]; apply nth_error_last
     | cbn [fs]; apply (resolve_graft _ _ _ _ Hpar)
     | apply assoc_set_same
     | cbn [free]; lia].
  cbn [fds fs tick free entropy]. rewrite nth_error_last.
  unfold quiet. rewrite (graft_graft _ _ _ _ _ Hpar), set_set.
  unfold update, step. cbn [fds fs tick free entropy].
  assert (Hnames : String.eqb tmpname name = false)
    by (apply append_nonempty; discriminate).
  rewrite (rename_sibling parent tmpname name _ (File _ data) pm _
             (resolve_graft _ _ _ _ Hpar) (assoc_set_same _ _ _) eq_refl
             Hnames).
  2: { intros m es. rewrite assoc_set_other by
         (rewrite String.eqb_sym; exact Hnames). apply Hnodir. }
  cbn [fst snd fs]. rewrite (graft_graft _ _ _ _ _ Hpar), remove_set,
    (remove_absent _ _ Hfree), Ht0, Hf0.
  replace (S (S (S (tick w)))) with (tick w + 3) by lia.
  rewrite Hf0 in Hpar.
  split; [reflexivity|]. split; [reflexivity|]. unfold join. split.
  - rewrite (resolve_snoc _ name _ _ _ (resolve_graft _ _ _ _ Hpar)).
    now rewrite assoc_set_same.
  - rewrite (resolve_snoc _ tmpname _ _ _ (resolve_graft _ _ _ _ Hpar)).
    now rewrite (assoc_set_other _ _ _ _ Hnames), Hfree.
Qed.

Lemma write_atomic_round_trip_witness :
  resolve ["d"; "t"]
    (fs (snd (fst (write_atomic posix ["d"; "t"] "hello" Scenes.roomy))))
  = inr (File 3 "hello").
Proof.
  refine (proj1 (proj2 (proj2
            (write_atomic_round_trip ["d"] "t" "hello" Scenes.roomy 0
               [("t", File 1 "old")] _ _ _ _))));
    [reflexivity|reflexivity|intros m es H; discriminate H|cbn; lia].
Defined.


(** X11: when the temporary name is taken by a file or link of somebody
    else, [write_atomic] raises EEXIST and has unlinked what was there. *)
Theorem write_atomic_collision_unlinks_other_file (parent : path)
    (name data : string) (w : world) (pm : Z) (pes : entries) (x : node) :
  let filename := join parent name in
  let n := fst (random_randint posix 0 999999 w) in
  let tmpname := (name ++ ".tmp-" ++ str n)%string in
  resolve parent (fs w) = inr (Dir pm pes) ->
  assoc tmpname pes = Some x ->
  is_dir x = false ->
  let r := write_atomic posix filename data w in
  fst (fst r) = Raised (OSError EEXIST)
  /\ fs (snd (fst r))
     = graft parent (Dir pm (remove_entry tmpname pes)) (fs w)
  /\ resolve (join parent tmpname) (fs (snd (fst r))) = inl ENOENT
  /\ resolve filename (fs (snd (fst r))) = resolve filename (fs w).
Proof.
  intros filename n tmpname Hpar Htaken Hx.
  cbv zeta. subst n tmpname filename. unfold write_atomic. posix_calls.
  cbn [random_randint posix TreeOS] in Htaken.
  destruct (randint_world 0 999999 w) as (Hf0 & Ht0 & Hr0 & Hd0).
  destruct (do_randint quiet 0 999999 w) as [n w0]. cbn [fst snd] in *.
  rewrite add_ext_join.
  set (tmpname := (name ++ ".tmp-" ++ str n)%string) in *.
  assert (Hnames : String.eqb tmpname name = false)
    by (apply append_nonempty; discriminate).
  rewrite <- Hf0 in *.
  unfold do_open_excl, update, step, join.
  rewrite (resolve_snoc _ tmpname _ _ _ Hpar), Htaken.
  cbn [fds fs tick free entropy]. unfold quiet, fs_remove.
  rewrite (at_parent_snoc _ _ _ _ _ _ Hpar), Htaken.
  assert (E : match x with
              | Dir _ _ => inl EISDIR
              | _ => inr (remove_entry tmpname pes)
              end = @inr errno entries (remove_entry tmpname pes))
    by (destruct x; [reflexivity|reflexivity|discriminate]).
  rewrite E. cbn [fst snd fs].
  split; [reflexivity|]. split; [reflexivity|]. split.
  - rewrite (resolve_snoc _ tmpname _ _ _ (resolve_graft _ _ _ _ Hpar)).
    now rewrite assoc_remove_same.
  - rewrite (resolve_snoc _ name _ _ _ (resolve_graft _ _ _ _ Hpar)).
    rewrite (resolve_snoc _ name _ _ _ Hpar).
    rewrite assoc_remove_other; [reflexivity|].
    rewrite String.eqb_sym. exact Hnames.
Qed.

Lemma write_atomic_collision_unlinks_other_file_witness :
  resolve ["d"; "t.tmp-42"]
    (fs (snd (fst (write_atomic posix ["d"; "t"] "hello"
                     MoreScenes.collision)))) = inl ENOENT.
Proof.
  refine (proj1 (proj2 (proj2
            (write_atomic_collision_unlinks_other_file ["d"] "t" "hello"
               MoreScenes.collision 0
               [("t", File 1 "old"); ("t.tmp-42", File 2 "half")]
               (File 2 "half") _ _ _)))); reflexivity.
Defined.

(** X12: a target that is a directory: the rename fails with EISDIR, the
    temporary file is unlinked, and the tree is as it was. *)
Theorem write_atomic_onto_directory (parent : path) (name data : string)
    (w : world) (pm m : Z) (pes es : entries) :
  let filename := join parent name in
  let n := fst (random_randint posix 0 999999 w) in
  let tmpname := (name ++ ".tmp-" ++ str n)%string in
  resolve parent (fs w) = inr (Dir pm pes) ->
  assoc tmpname pes = None ->
  assoc name pes = Some (Dir m es) ->
  String.length data <= free w ->
  let r := write_atomic posix filename data w in
  fst (fst r) = Raised (OSError EISDIR)
  /\ fs (snd (fst r)) = fs w.
Proof.
  intros filename n tmpname Hpar Hfree Hdir Hroom.
  cbv zeta. subst n tmpname filename. unfold write_atomic. posix_calls.
  cbn [random_randint posix TreeOS] in Hfree.
  destruct (randint_world 0 999999 w) as (Hf0 & Ht0 & Hr0 & Hd0).
  destruct (do_randint quiet 0 999999 w) as [n w0]. cbn [fst snd] in *.
  rewrite add_ext_join.
  set (tmpname := (name ++ ".tmp-" ++ str n)%string) in *.
  rewrite <- Hf0 in *.
  rewrite (open_excl_creates _ _ _ _ _ Hpar Hfree).
  unfold do_fdopen, do_close, step. cbn [fds fs tick free entropy].
  rewrite nth_error_last. cbn [fds fs tick free entropy].
  erewrite (write_fills parent tmpname data _ _ pm _ _ "");
    [| cbn [fds]; apply nth_error_last
     | cbn [fs]; apply (resolve_graft _ _ _ _ Hpar)
     | apply assoc_set_same
     | cbn [free]; lia].
  cbn [fds fs tick free entropy]. rewrite nth_error_last.
  unfold quiet. rewrite (graft_graft _ _ _ _ _ Hpar), set_set.
  unfold update, step. cbn [fds fs tick free entropy].
  assert (Hnames : String.eqb tmpname name = false)
    by (apply append_nonempty; discriminate).
  assert (Hap : apart (join parent tmpname) (join parent name) = true)
    by now apply apart_siblings.
  destruct (apart_inv _ _ Hap) as [Hpre _].
  set (f1 := graft parent _ (fs w0)).
  assert (Hpar1 : resolve parent f1 = inr (Dir pm (set_entry tmpname
                    (File (Z.of_nat (S (S (tick w0)))) data) pes)))
    by apply (resolve_graft _ _ _ _ Hpar).
  assert (Hren : fs_rename (join parent tmpname) (join parent name) f1
                 = inl EISDIR).
  { unfold fs_rename. rewrite Hpre. unfold join.
    rewrite (resolve_snoc _ tmpname _ _ _ Hpar1), assoc_set_same.
    rewrite (resolve_snoc _ name _ _ _ Hpar1).
    rewrite assoc_set_other by (rewrite String.eqb_sym; exact Hnames).
    rewrite Hdir.
    unfold path_eqb.
    destruct (list_eq_dec string_dec (parent ++ [tmpname])
                (parent ++ [name])) as [E|_]; [|reflexivity].
    apply app_inv_head in E. inversion E as [E'].
    rewrite E' in Hnames. now rewrite String.eqb_refl in Hnames. }
  rewrite Hren. cbn [fst snd fs]. unfold quiet, fs_remove, join.
  rewrite (at_parent_snoc _ _ _ _ _ _ Hpar1), assoc_set_same.
  cbn [fst snd fs]. unfold f1.
  rewrite (graft_graft _ _ _ _ _ Hpar), remove_set,
    (remove_absent _ _ Hfree), (graft_same _ _ _ Hpar).
  now split.
Qed.

Lemma write_atomic_onto_directory_witness :
  fs (snd (fst (write_atomic posix ["d"] "hello" Scenes.roomy)))
  = fs Scenes.roomy.
Proof.
  refine (proj2 (write_atomic_onto_directory [] "d" "hello" Scenes.roomy
                   0 0 [("d", Dir 0 [("t", File 1 "old")])]
                   [("t", File 1 "old")] _ _ _ _));
    [reflexivity|reflexivity|reflexivity|cbn; lia].
Defined.

End Writes.

(** ** The cleaning of a tree nobody else touches *)
Section Sweeps.

Import TreeFS Cleaned.

Variables (T : Z) (red : bool).

Lemma sweep_Dir (m : Z) (es : entries) :
  sweep T red (Dir m es)
  = if red && nothing_left (sweep_entries T red es) then None
    else Some (Dir m (sweep_entries T red es)).
Proof.
  cbn [sweep].
  replace ((fix go (es0 : list (string * node)) : list (string * node) :=
              match es0 with
              | [] => []
              | (k, v) :: es' =>
                  match sweep T red v with
                  | Some v' => (k, v') :: go es'
                  | None => go es'
                  end
              end) es) with (sweep_entries T red es).
  - destruct (sweep_entries T red es); cbn; [|now rewrite andb_false_r].
    now destruct red.
  - induction es as [|[k v] es IH]; cbn; [reflexivity|].
    now rewrite IH.
Qed.

Lemma absent_assoc (c : string) (es : entries) :
  ~ In c (map fst es) -> assoc c es = None.
Proof.
  induction es as [|[k v] es IH]; cbn; [reflexivity|]. intro H.
  destruct (String.eqb_spec c k) as [->|_]; [tauto|].
  apply IH. tauto.
Qed.

Lemma sweep_where_none (sel : string -> bool) (es : entries) :
  (forall k, In k (map fst es) -> sel k = false) ->
  sweep_where sel T red es = es.
Proof.
  induction es as [|[k v] es IH]; cbn; [reflexivity|]. intro H.
  rewrite (H k (or_introl eq_refl)), IH; [reflexivity|].
  intros k' Hk'. apply H. now right.
Qed.

Lemma sweep_where_all (sel : string -> bool) (es : entries) :
  (forall k, In k (map fst es) -> sel k = true) ->
  sweep_where sel T red es = sweep_entries T red es.
Proof.
  induction es as [|[k v] es IH]; cbn; [reflexivity|]. intro H.
  rewrite (H k (or_introl eq_refl)), IH; [reflexivity|].
  intros k' Hk'. apply H. now right.
Qed.

Lemma sweep_where_keys (sel : string -> bool) (es : entries) (k : string) :
  In k (map fst (sweep_where sel T red es)) -> In k (map fst es).
Proof.
  induction es as [|[k0 v] es IH]; cbn; [tauto|].
  destruct (sel k0); [destruct (sweep T red v)|]; cbn; tauto.
Qed.

Lemma sweep_where_NoDup (sel : string -> bool) (es : entries) :
  NoDup (map fst es) -> NoDup (map fst (sweep_where sel T red es)).
Proof.
  induction es as [|[k v] es IH]; cbn; [trivial|]. intro H.
  inversion H as [|? ? Hk Hnd]. subst. specialize (IH Hnd).
  assert (Hk' : ~ In k (map fst (sweep_where sel T red es)))
    by (intro Hin; apply Hk; exact (sweep_where_keys _ _ _ Hin)).
  destruct (sel k); [destruct (sweep T red v)|]; cbn;
    try constructor; assumption.
Qed.

(** One step is the sweep of one name. *)
Lemma sweep_at_where (c : string) (es : entries) :
  NoDup (map fst es) ->
  sweep_at T red es c = sweep_where (String.eqb c) T red es.
Proof.
  unfold sweep_at.
  induction es as [|[k v] es IH]; cbn; [reflexivity|]. intro H.
  inversion H as [|? ? Hk Hnd]. subst.
  destruct (String.eqb_spec c k) as [->|Hck].
  - assert (E : sweep_where (String.eqb k) T red es = es).
    { apply sweep_where_none. intros k' Hk'.
      apply eqb_neq_false. intro. now subst. }
    rewrite E. destruct (sweep T red v); cbn.
    + reflexivity.
    + apply remove_absent. now apply absent_assoc.
  - rewrite <- (IH Hnd).
    destruct (assoc c es) as [x|]; [|reflexivity].
    destruct (sweep T red x); cbn;
      rewrite ?(eqb_neq_false _ _ Hck); reflexivity.
Qed.

Lemma sweep_where_twice (sel1 sel2 : string -> bool) (es : entries) :
  (forall k, sel1 k = true -> sel2 k = false) ->
  sweep_where sel2 T red (sweep_where sel1 T red es)
  = sweep_where (fun k => sel1 k || sel2 k) T red es.
Proof.
  intro H. induction es as [|[k v] es IH]; cbn; [reflexivity|].
  destruct (sel1 k) eqn:E1; cbn.
  - destruct (sweep T red v); cbn; [rewrite (H _ E1)|]; now rewrite IH.
  - destruct (sel2 k); [destruct (sweep T red v)|]; now rewrite IH.
Qed.

Lemma sweep_where_ext (sel1 sel2 : string -> bool) (es : entries) :
  (forall k, sel1 k = sel2 k) ->
  sweep_where sel1 T red es = sweep_where sel2 T red es.
Proof.
  intro H. induction es as [|[k v] es IH]; cbn; [reflexivity|].
  now rewrite H, IH.
Qed.

(** The steps for a list of names, one after the other. *)
Lemma fold_sweep_at (l : list string) (es : entries) :
  NoDup (map fst es) -> NoDup l ->
  fold_left (sweep_at T red) l es
  = sweep_where (fun k => mem k l) T red es.
Proof.
  revert es. induction l as [|c l IH]; intros es Hes Hl; cbn [fold_left].
  - symmetry. now apply sweep_where_none.
  - inversion Hl as [|? ? Hc Hl']. subst.
    rewrite (sweep_at_where _ _ Hes).
    rewrite IH; [|now apply sweep_where_NoDup|assumption].
    rewrite sweep_where_twice.
    + apply sweep_where_ext. intro k. cbn [mem].
      now rewrite (String.eqb_sym k c).
    + intros k Hk. apply String.eqb_eq in Hk. subst k.
      destruct (mem c l) eqn:E; [|reflexivity].
      exfalso. apply Hc. clear -E.
      induction l as [|x l IH]; [discriminate|]. cbn in E.
      apply orb_prop in E. destruct E as [E|E].
      * left. symmetry. now apply String.eqb_eq.
      * right. now apply IH.
Qed.


Lemma assoc_sweep_at_other (c c' : string) (es : entries) :
  c' <> c -> assoc c' (sweep_at T red es c) = assoc c' es.
Proof.
  intro H. unfold sweep_at. destruct (assoc c es) as [v|]; [|reflexivity].
  destruct (sweep T red v).
  - apply assoc_set_other. now apply eqb_neq_false.
  - apply assoc_remove_other. now apply eqb_neq_false.
Qed.

Lemma assoc_fold_sweep_at_other (l : list string) (c : string)
    (es : entries) :
  ~ In c l -> assoc c (fold_left (sweep_at T red) l es) = assoc c es.
Proof.
  revert es. induction l as [|x l IH]; intros es H; cbn; [reflexivity|].
  rewrite IH by (intro; apply H; now right).
  apply assoc_sweep_at_other. intro. apply H. now left.
Qed.

Lemma graft_snoc (p : path) (c : string) (f x v : node) (m : Z)
    (es : entries) :
  resolve p f = inr (Dir m es) -> assoc c es = Some v ->
  graft (p ++ [c]) x f = graft p (Dir m (set_entry c x es)) f.
Proof.
  revert f. induction p as [|d p IH]; intros f Hp Hc; cbn in *.
  - inversion Hp. subst f. cbn. now rewrite Hc.
  - destruct f as [| |m0 es0]; try discriminate.
    destruct (assoc d es0) as [sub|]; [|discriminate].
    now rewrite (IH _ Hp Hc).
Qed.

Lemma at_parent_fails (p : path) (e : errno) (f n : node) :
  resolve p f = inr n -> p <> [] ->
  at_parent p (fun _ _ => inl e) f = inl e.
Proof.
  revert f. induction p as [|c p IH]; intros f Hp Hne; [congruence|].
  destruct f as [| |m es]; try discriminate.
  destruct (list_eq_dec string_dec p []) as [->|Hp'].
  - reflexivity.
  - rewrite (at_parent_cons _ _ _ _ _ Hp'). cbn in Hp.
    destruct (assoc c es) as [sub|]; [|discriminate].
    now rewrite (IH _ Hp Hp').
Qed.

Lemma rmdir_not_empty (p : path) (f : node) (m : Z) (kv : string * node)
    (es : entries) :
  resolve p f = inr (Dir m (kv :: es)) -> p <> [] ->
  fs_rmdir p f = inl ENOTEMPTY.
Proof.
  intros Hp Hne. unfold fs_rmdir.
  rewrite (at_parent_ext p _ (fun _ _ => inl ENOTEMPTY) f _ Hp).
  - exact (at_parent_fails _ _ _ _ Hp Hne).
  - intros name es0 E0. now rewrite E0.
Qed.

Lemma rmdir_empty (p : path) (f f' : node) (m : Z) (es : entries) :
  resolve p f = inr (Dir m es) ->
  prune p f = inr f' ->
  fs_rmdir p (graft p (Dir m []) f) = inr f'.
Proof.
  intros Hp Hf'. unfold fs_rmdir.
  rewrite (at_parent_ext p _ (fun name es => inr (remove_entry name es))
             _ (Dir m []) (resolve_graft _ _ _ _ Hp)).
  - fold (prune p (graft p (Dir m []) f)).
    now rewrite (prune_graft _ _ _ _ Hp).
  - intros name es0 E0. now rewrite E0.
Qed.

Lemma runs_lstat (p : path) (w : world) (mt : Z) :
  fs_lstat_mtime p (fs w) = inr mt ->
  runs (lstat_mtime posix p) w mt (fs w).
Proof.
  intro H. eexists _, _. unfold lstat_mtime, fallible. cbn. unfold query.
  rewrite H. split; reflexivity.
Qed.

(** One file of the walk. *)
Lemma runs_handle_file (p : path) (c : string) (m : Z) (es : entries)
    (v : node) (w : world) :
  resolve p (fs w) = inr (Dir m es) ->
  assoc c es = Some v ->
  is_dir v = false ->
  runs (handle_file posix T (remove posix) (join p c)) w tt
    (graft p (Dir m (sweep_at T red es c)) (fs w)).
Proof.
  intros Hp Hv Hdir.
  set (f1 := graft p (Dir m (remove_entry c es)) (fs w)).
  assert (Hp1 : resolve p f1 = inr (Dir m (remove_entry c es)))
    by apply (resolve_graft _ _ _ _ Hp).
  assert (Hrm : fs_remove (join p c) (fs w) = inr f1).
  { unfold fs_remove, join. rewrite (at_parent_snoc _ _ _ _ _ _ Hp), Hv.
    destruct v; [reflexivity|reflexivity|discriminate]. }
  assert (Hgone : fs_lstat_mtime (join p c) f1 = inl ENOENT).
  { unfold fs_lstat_mtime, join.
    now rewrite (resolve_snoc _ c _ _ _ Hp1), assoc_remove_same. }
  assert (Hstat : exists mt,
            fs_lstat_mtime (join p c) (fs w) = inr mt
            /\ sweep T red v = if expired T mt then None else Some v).
  { unfold fs_lstat_mtime, join. rewrite (resolve_snoc _ c _ _ _ Hp), Hv.
    destruct v as [mt ?|mt ?|]; [| |discriminate]; now exists mt. }
  destruct Hstat as (mt & Hstat & Hsw).
  unfold sweep_at. rewrite Hv, Hsw. unfold handle_file, expired.
  destruct (T =? 0)%Z eqn:ET; cbn [orb when_].
  - eapply fails_catch with (e := ENOENT) (f := f1).
    + eapply fails_bind with (f := f1); [now apply runs_update|].
      intros w1 H1. apply fails_bind_l. rewrite <- H1.
      apply fails_lstat. now rewrite H1.
    + intros w1 H1. fold f1. rewrite <- H1. cbn. apply runs_ret.
  - apply runs_catch. eapply runs_bind with (f := fs w).
    { apply runs_ret. }
    intros w1 H1. eapply runs_bind with (a := mt) (f := fs w).
    { rewrite <- H1. apply runs_lstat. now rewrite H1. }
    intros w2 H2. destruct (mt <? T)%Z; cbn [when_].
    + apply runs_update. now rewrite H2.
    + rewrite (set_same _ _ _ Hv), (graft_same _ _ _ Hp), <- H2.
      apply runs_ret.
Qed.

Lemma runs_files_sweep (p : path) (m : Z) (fl : list string) :
  forall (es : entries) (w : world),
    resolve p (fs w) = inr (Dir m es) ->
    NoDup fl ->
    (forall c, In c fl -> exists v, assoc c es = Some v /\ is_dir v = false) ->
    runs (for_each fl (fun filename =>
            handle_file posix T (remove posix) (join p filename))) w tt
      (graft p (Dir m (fold_left (sweep_at T red) fl es)) (fs w)).
Proof.
  induction fl as [|c fl IH]; intros es w Hp Hnd Hfl; cbn [for_each].
  - cbn. rewrite (graft_same _ _ _ Hp). apply runs_ret.
  - inversion Hnd as [|? ? Hc Hnd']. subst.
    destruct (Hfl c (or_introl eq_refl)) as (v & Hv & Hdir).
    eapply runs_bind.
    + exact (runs_handle_file _ _ _ _ _ _ Hp Hv Hdir).
    + intros w1 H1. cbn [fold_left].
      assert (E : graft p (Dir m (fold_left (sweep_at T red) fl
                                    (sweep_at T red es c))) (fs w)
                  = graft p (Dir m (fold_left (sweep_at T red) fl
                                      (sweep_at T red es c))) (fs w1)).
      { rewrite H1. now rewrite (graft_graft _ _ _ _ _ Hp). }
      rewrite E. apply IH; [|assumption|].
      * rewrite H1. apply (resolve_graft _ _ _ _ Hp).
      * intros c' Hc'. destruct (Hfl c' (or_intror Hc')) as (v' & Hv' & Hd').
        exists v'. split; [|assumption].
        rewrite assoc_sweep_at_other; [assumption|]. intro. now subst.
Qed.


Section WalkSweeps.

Variable directory : path.

Local Abbreviation body := (visit posix directory T red (remove posix)).

Lemma runs_dirs_sweep (fuel : nat) (p : path) (m : Z) (ds : list string) :
  walk_sweeps T red directory fuel ->
  List.length directory <= List.length p ->
  forall (es : entries) (w : world),
    resolve p (fs w) = inr (Dir m es) ->
    NoDup ds ->
    (forall c, In c ds ->
       exists cm ces, assoc c es = Some (Dir cm ces)
                      /\ plain (Dir cm ces) = true
                      /\ height (Dir cm ces) <= fuel) ->
    runs (for_each ds (fun name =>
            l <- path_islink posix (join p name) ;;
            if l then ret_ tt
            else walk_bottom_up posix fuel (join p name) body)) w tt
      (graft p (Dir m (fold_left (sweep_at T red) ds es)) (fs w)).
Proof.
  intros IHwalk Hlen.
  induction ds as [|c ds IH]; intros es w Hp Hnd Hds; cbn [for_each].
  - cbn. rewrite (graft_same _ _ _ Hp). apply runs_ret.
  - inversion Hnd as [|? ? Hc Hnd']. subst.
    destruct (Hds c (or_introl eq_refl)) as (cm & ces & Hv & Hpl & Hh).
    assert (Hq : resolve (join p c) (fs w) = inr (Dir cm ces)).
    { unfold join. now rewrite (resolve_snoc _ c _ _ _ Hp), Hv. }
    set (f1 := graft p (Dir m (sweep_at T red es c)) (fs w)).
    eapply runs_bind with (f := f1).
    + eapply runs_bind.
      { apply (runs_query (CIslink (join p c)) RBool). }
      intros w1 H1. unfold fs_islink. rewrite Hq. cbv beta iota.
      rewrite <- H1 in Hq.
      destruct (IHwalk (join p c) w1 cm ces Hq Hpl Hh) as (f' & Hrun & Hf').
      { unfold join. rewrite length_app. cbn. lia. }
      { unfold join. now destruct p. }
      assert (Eroot : path_eqb (join p c) directory = false).
      { unfold path_eqb.
        destruct (list_eq_dec string_dec (join p c) directory) as [E|];
          [|reflexivity].
        apply (f_equal (@List.length string)) in E.
        unfold join in E. rewrite length_app in E. cbn in E. lia. }
      rewrite Eroot in Hf'. cbn [negb orb] in Hf'.
      rewrite andb_true_r in Hf'.
      assert (E : f' = f1).
      { unfold f1, sweep_at. rewrite Hv, sweep_Dir.
        destruct (red && nothing_left (sweep_entries T red ces)).
        - unfold prune, join in Hf'. rewrite H1 in Hf'.
          rewrite (at_parent_snoc _ _ _ _ _ _ Hp) in Hf'. congruence.
        - rewrite Hf', H1. unfold join. exact (graft_snoc _ _ _ _ _ _ _ Hp Hv). }
      rewrite <- E. exact Hrun.
    + intros w1 H1. cbn [fold_left].
      assert (E : graft p (Dir m (fold_left (sweep_at T red) ds
                                    (sweep_at T red es c))) (fs w)
                  = graft p (Dir m (fold_left (sweep_at T red) ds
                                      (sweep_at T red es c))) (fs w1)).
      { rewrite H1. unfold f1. now rewrite (graft_graft _ _ _ _ _ Hp). }
      rewrite E. apply IH; [|assumption|].
      * rewrite H1. apply (resolve_graft _ _ _ _ Hp).
      * intros c' Hc'.
        destruct (Hds c' (or_intror Hc')) as (cm' & ces' & Hv' & Hr).
        exists cm', ces'. split; [|assumption].
        rewrite assoc_sweep_at_other; [assumption|]. intro. now subst.
Qed.

Lemma NoDup_partition (P : string -> bool) (l : list string) :
  NoDup l -> NoDup (filter P l ++ filter (fun c => negb (P c)) l).
Proof.
  intro H. induction H as [|x l Hx Hl IH]; cbn; [constructor|].
  destruct (P x); cbn.
  - constructor; [|assumption]. intro Hin. apply in_app_or in Hin.
    destruct Hin as [Hin|Hin]; apply filter_In in Hin; tauto.
  - apply NoDup_Add with (a := x) (l := filter P l ++ filter (fun c => negb (P c)) l).
    + apply Add_app.
    + split; [assumption|]. intro Hin. apply in_app_or in Hin.
      destruct Hin as [Hin|Hin]; apply filter_In in Hin; tauto.
Qed.

Lemma In_mem (c : string) (l : list string) : In c l -> mem c l = true.
Proof.
  induction l as [|x l IH]; cbn; [tauto|]. intros [->|H].
  - now rewrite String.eqb_refl.
  - rewrite (IH H). apply orb_true_r.
Qed.

Lemma In_assoc (k : string) (v : node) (es : entries) :
  NoDup (map fst es) -> In (k, v) es -> assoc k es = Some v.
Proof.
  induction es as [|[k0 v0] es IH]; cbn; [tauto|]. intros Hnd Hin.
  inversion Hnd as [|? ? Hk Hnd']. subst.
  destruct Hin as [E|Hin].
  - inversion E. subst. now rewrite String.eqb_refl.
  - destruct (String.eqb_spec k k0) as [->|_]; [|now apply IH].
    exfalso. apply Hk. exact (in_map fst _ _ Hin).
Qed.

Lemma walk_sweeps_all (fuel : nat) : walk_sweeps T red directory fuel.
Proof.
  induction fuel as [|fuel IHfuel]; intros p w m es Hp Hpl Hh Hlen Hne.
  - cbn in Hh. lia.
  - destruct (plain_Dir _ _ Hpl) as [Hnd Hsub].
    set (names := map fst es).
    set (D := filter (fun c => fs_isdir (join p c) (fs w)) names).
    set (N := filter (fun c => negb (fs_isdir (join p c) (fs w))) names).
    assert (HD : forall c, In c D ->
              exists cm ces, assoc c es = Some (Dir cm ces)
                             /\ plain (Dir cm ces) = true
                             /\ height (Dir cm ces) <= fuel).
    { intros c Hc. apply filter_In in Hc. destruct Hc as [Hc Hb].
      destruct (assoc_names _ _ Hc) as [v Hv].
      rewrite (isdir_child _ _ _ _ _ _ Hp Hv (Hsub _ _ Hv)) in Hb.
      destruct v as [| |cm ces]; try discriminate.
      exists cm, ces. repeat split; [assumption|exact (Hsub _ _ Hv)|].
      pose proof (height_child m _ _ _ Hv). lia. }
    set (es1 := fold_left (sweep_at T red) D es).
    assert (HN : forall c, In c N ->
              exists v, assoc c es1 = Some v /\ is_dir v = false).
    { intros c Hc. apply filter_In in Hc. destruct Hc as [Hc Hb].
      destruct (assoc_names _ _ Hc) as [v Hv].
      rewrite (isdir_child _ _ _ _ _ _ Hp Hv (Hsub _ _ Hv)) in Hb.
      exists v. split; [|now destruct (is_dir v)].
      unfold es1. rewrite assoc_fold_sweep_at_other; [assumption|].
      intro HcD. apply filter_In in HcD. destruct HcD as [_ Hb'].
      rewrite (isdir_child _ _ _ _ _ _ Hp Hv (Hsub _ _ Hv)) in Hb'.
      rewrite Hb' in Hb. discriminate. }
    assert (Hall : fold_left (sweep_at T red) N es1 = sweep_entries T red es).
    { unfold es1. rewrite <- fold_left_app.
      rewrite fold_sweep_at;
        [|assumption|apply NoDup_partition; exact Hnd].
      apply sweep_where_all. intros k Hk. apply In_mem. apply in_or_app.
      destruct (fs_isdir (join p k) (fs w)) eqn:Hb.
      - left. apply filter_In. now split.
      - right. apply filter_In. split; [assumption|]. now rewrite Hb. }
    assert (Hfiles : has_files es = match N with [] => false | _ => true end).
    { unfold has_files. destruct N as [|c0 N0] eqn:EN.
      - destruct (existsb _ es) eqn:Ex; [|reflexivity].
        apply existsb_exists in Ex. destruct Ex as ([k v] & Hin & Hv).
        cbn in Hv. exfalso.
        assert (Hk : In k N).
        { apply filter_In. split; [apply (in_map fst _ _ Hin)|].
          pose proof (In_assoc _ _ _ Hnd Hin) as Hv'.
          now rewrite (isdir_child _ _ _ _ _ _ Hp Hv' (Hsub _ _ Hv')). }
        rewrite EN in Hk. destruct Hk.
      - apply existsb_exists.
        assert (Hc0 : In c0 N) by (rewrite EN; now left).
        apply filter_In in Hc0. destruct Hc0 as [Hc0 Hb].
        destruct (assoc_names _ _ Hc0) as [v Hv].
        rewrite (isdir_child _ _ _ _ _ _ Hp Hv (Hsub _ _ Hv)) in Hb.
        exists (c0, v). split; [now apply assoc_In|exact Hb]. }
    set (f1 := graft p (Dir m es1) (fs w)).
    assert (Hp1 : resolve p f1 = inr (Dir m es1))
      by (apply (resolve_graft _ _ _ _ Hp)).
    set (es2 := sweep_entries T red es) in *.
    set (f2 := graft p (Dir m es2) (fs w)).
    assert (Hp2 : resolve p f2 = inr (Dir m es2))
      by (apply (resolve_graft _ _ _ _ Hp)).
    destruct (prune_ok _ _ _ Hp Hne) as [f3 Hf3].
    assert (Hrmdir : es2 = [] -> fs_rmdir p f2 = inr f3).
    { intro E. unfold f2. rewrite E.
      exact (rmdir_empty _ _ _ _ _ Hp Hf3). }
    (* the walk up to the loop body *)
    assert (Hpre : forall k : list string * list string -> M world unit,
              forall f',
              (forall w1, fs w1 = f1 -> runs (k (D, N)) w1 tt f') ->
              runs (listed <- catch_OSError
                                (names <- listdir posix p ;;
                                 ret_ (Some names))
                                (fun _ => ret_ None) ;;
                    match listed with
                    | None => ret_ tt
                    | Some names =>
                        r <- classify posix p names ;;
                        for_each (fst r) (fun name =>
                          l <- path_islink posix (join p name) ;;
                          if l then ret_ tt
                          else walk_bottom_up posix fuel (join p name) body)
                        ;;; k r
                    end) w tt f').
    { intros k f' Hk.
      eapply runs_bind with (a := Some names) (f := fs w).
      { apply runs_catch. eapply runs_bind.
        - apply runs_listdir. unfold fs_listdir. rewrite Hp. reflexivity.
        - intros w1 H1. rewrite <- H1. apply runs_ret. }
      intros w1 H1. eapply runs_bind with (a := (D, N)) (f := fs w).
      { pose proof (runs_classify p names w1) as Hc. rewrite H1 in Hc.
        exact Hc. }
      intros w2 H2. cbn [fst snd]. eapply runs_bind with (f := f1).
      - unfold f1, es1. rewrite <- H2. apply runs_dirs_sweep; try assumption.
        + now rewrite H2.
        + apply NoDup_filter. exact Hnd.
      - exact Hk. }
    rewrite Hfiles.
    destruct N as [|c0 N0] eqn:EN.
    + (* no files *)
      cbn [fold_left] in Hall. rewrite orb_false_r.
      assert (E12 : f1 = f2) by (unfold f1, f2; now rewrite Hall).
      destruct (red && nothing_left es2 && negb (path_eqb p directory))
        eqn:Egone.
      * apply andb_prop in Egone. destruct Egone as [Egone Eroot].
        apply andb_prop in Egone. destruct Egone as [Ered Enil].
        assert (Ees2 : es2 = []) by (now destruct es2).
        exists f3. split; [|assumption].
        cbn [walk_bottom_up]. apply Hpre. intros w1 H1.
        unfold visit. rewrite Ered.
        eapply runs_bind with (a := true) (f := f2).
        -- eapply runs_bind with (a := []) (f := f2).
           ++ rewrite <- E12, <- H1. apply runs_listdir. rewrite H1, E12.
              unfold fs_listdir. now rewrite Hp2, Ees2.
           ++ intros w2 H2. rewrite Eroot. cbn. rewrite <- H2.
              apply runs_ret.
        -- intros w2 H2. cbn [when_]. apply runs_update.
           rewrite H2. now apply Hrmdir.
      * exists f2. split; [|reflexivity].
        cbn [walk_bottom_up]. apply Hpre. intros w1 H1.
        unfold visit. eapply runs_bind with (a := false) (f := f2).
        -- destruct red.
           ++ eapply runs_bind with (a := map fst es2) (f := f2).
              ** rewrite <- E12, <- H1. apply runs_listdir. rewrite H1, E12.
                 unfold fs_listdir. now rewrite Hp2.
              ** intros w2 H2. cbn [andb] in Egone.
                 replace (match map fst es2 with [] => true | _ :: _ => false
                          end) with (nothing_left es2)
                   by (now destruct es2).
                 rewrite Egone. rewrite <- H2. apply runs_ret.
           ++ rewrite <- E12, <- H1. apply runs_ret.
        -- intros w2 H2. cbn. rewrite <- H2. apply runs_ret.
    + (* files *)
      rewrite orb_true_r, andb_true_r.
      assert (Hf : forall w1, fs w1 = f1 ->
                runs (for_each (c0 :: N0) (fun filename =>
                        handle_file posix T (remove posix)
                          (join p filename))) w1 tt f2).
      { intros w1 H1.
        assert (E1 : f2 = graft p (Dir m (fold_left (sweep_at T red)
                                            (c0 :: N0) es1)) (fs w1)).
        { rewrite H1, Hall. unfold f1, f2.
          now rewrite (graft_graft _ _ _ _ _ Hp). }
        rewrite E1. apply runs_files_sweep.
        - now rewrite H1.
        - rewrite <- EN. apply NoDup_filter. exact Hnd.
        - exact HN. }
      destruct red; cbn [andb].
      * destruct es2 as [|kv es2'] eqn:Ees2; cbn [nothing_left].
        -- exists f3. split; [|assumption].
           cbn [walk_bottom_up]. apply Hpre. intros w1 H1.
           unfold visit. eapply runs_bind with (f := f2); [now apply Hf|].
           intros w2 H2. cbn [when_]. unfold remove_dir_if_emtpy.
           apply runs_catch. apply runs_update. rewrite H2.
           now apply Hrmdir.
        -- exists f2. split; [|reflexivity].
           cbn [walk_bottom_up]. apply Hpre. intros w1 H1.
           unfold visit. eapply runs_bind with (f := f2); [now apply Hf|].
           intros w2 H2. cbn [when_]. unfold remove_dir_if_emtpy.
           eapply fails_catch with (e := ENOTEMPTY) (f := f2).
           ++ rewrite <- H2. apply fails_update. rewrite H2.
              exact (rmdir_not_empty _ _ _ _ _ Hp2 Hne).
           ++ intros w3 H3. cbn. rewrite <- H3. apply runs_ret.
      * exists f2. split; [|reflexivity].
        cbn [walk_bottom_up]. apply Hpre. intros w1 H1.
        unfold visit. eapply runs_bind with (f := f2); [now apply Hf|].
        intros w2 H2. cbn [when_]. rewrite <- H2. apply runs_ret.
Qed.

End WalkSweeps.

(** The general walk leaves the swept tree. *)
Lemma general_walk_sweeps (fuel : nat) (directory : path) (w : world)
    (m : Z) (es : entries) :
  resolve directory (fs w) = inr (Dir m es) ->
  directory <> [] ->
  plain (Dir m es) = true ->
  height (Dir m es) <= fuel ->
  exists f',
    runs (general_walk posix fuel directory T red (remove posix)) w tt f'
    /\ match sweep T red (Dir m es) with
       | Some d => f' = graft directory d (fs w)
       | None => prune directory (fs w) = inr f'
       end.
Proof.
  intros Hp Hne Hpl Hh.
  destruct (prune_ok _ _ _ Hp Hne) as [f3 Hf3].
  set (es2 := sweep_entries T red es).
  set (f2 := graft directory (Dir m es2) (fs w)).
  assert (Hp2 : resolve directory f2 = inr (Dir m es2))
    by (apply (resolve_graft _ _ _ _ Hp)).
  assert (Hex : forall k f',
            (forall w1, fs w1 = fs w -> runs k w1 tt f') ->
            runs (e <- path_exists posix directory ;; when_ e k) w tt f').
  { intros k f' Hk. eapply runs_bind with (a := true) (f := fs w).
    - pose proof (runs_exists directory w) as Hq.
      unfold fs_exists in Hq at 1. rewrite Hp in Hq. exact Hq.
    - intros w1 H1. cbn [when_]. now apply Hk. }
  rewrite sweep_Dir. fold es2.
  assert (Hwalk : forall w1, fs w1 = fs w ->
            exists f',
              runs (walk_bottom_up posix fuel directory
                      (visit posix directory T red (remove posix))) w1 tt f'
              /\ if red && nothing_left es2 && has_files es
                 then f' = f3 else f' = f2).
  { intros w1 H1. rewrite <- H1 in Hp.
    destruct (walk_sweeps_all directory fuel directory w1 m es Hp Hpl Hh
                (Nat.le_refl _) Hne) as (f' & Hrun & Hf').
    exists f'. split; [assumption|].
    rewrite path_eqb_refl in Hf'. cbn [negb orb] in Hf'. fold es2 in Hf'.
    rewrite H1 in Hf'.
    destruct (red && nothing_left es2 && has_files es); [congruence|].
    exact Hf'. }
  destruct (red && nothing_left es2 && has_files es) eqn:Egone.
  - apply andb_prop in Egone. destruct Egone as [Egone _].
    rewrite Egone. apply andb_prop in Egone. destruct Egone as [Ered _].
    exists f3. split; [|assumption]. unfold general_walk. apply Hex.
    intros w1 H1. destruct (Hwalk w1 H1) as (f' & Hrun & ->).
    eapply runs_bind; [exact Hrun|]. intros w2 H2. rewrite Ered.
    cbn [when_]. unfold remove_dir_if_emtpy.
    eapply fails_catch with (e := ENOENT) (f := f3).
    + rewrite <- H2. apply fails_update. rewrite H2.
      exact (rmdir_gone _ _ _ Hf3).
    + intros w3 H3. cbn. rewrite <- H3. apply runs_ret.
  - destruct red eqn:Ered; cbn [andb].
    + destruct es2 as [|kv es2'] eqn:Ees2; cbn [nothing_left].
      * exists f3. split; [|assumption]. unfold general_walk. apply Hex.
        intros w1 H1. destruct (Hwalk w1 H1) as (f' & Hrun & ->).
        eapply runs_bind; [exact Hrun|]. intros w2 H2.
        cbn [when_]. unfold remove_dir_if_emtpy.
        apply runs_catch. apply runs_update. rewrite H2.
        unfold f2. exact (rmdir_empty _ _ _ _ _ Hp Hf3).
      * exists f2. split; [|reflexivity]. unfold general_walk. apply Hex.
        intros w1 H1. destruct (Hwalk w1 H1) as (f' & Hrun & ->).
        eapply runs_bind; [exact Hrun|]. intros w2 H2.
        cbn [when_]. unfold remove_dir_if_emtpy.
        eapply fails_catch with (e := ENOTEMPTY) (f := f2).
        -- rewrite <- H2. apply fails_update. rewrite H2.
           exact (rmdir_not_empty _ _ _ _ _ Hp2 Hne).
        -- intros w3 H3. cbn. rewrite <- H3. apply runs_ret.
    + exists f2. split; [|reflexivity]. unfold general_walk. apply Hex.
      intros w1 H1. destruct (Hwalk w1 H1) as (f' & Hrun & ->).
      eapply runs_bind; [exact Hrun|]. intros w2 H2.
      cbn [when_]. rewrite <- H2. apply runs_ret.
Qed.

End Sweeps.

(** ** cleanup_directory on a tree nobody else touches *)
Section Cleaning.

Import TreeFS Cleaned.

(** With cutoff zero and [remove_empty_dirs], nothing is left of any
    tree. *)
Lemma sweep_zero (n : node) : sweep 0 true n = None.
Proof.
  induction n as [m c|m t|m es IH] using node_induction;
    [reflexivity|reflexivity|].
  rewrite sweep_Dir.
  assert (E : sweep_entries 0 true es = []).
  { induction IH as [|[k v] es Hv _ IHes]; cbn; [reflexivity|].
    cbn in Hv. now rewrite Hv. }
  now rewrite E.
Qed.

(** [cleanup_directory] with the default handler, by either path. *)
Lemma runs_cleanup_directory (fuel : nat) (directory : path) (T : Z)
    (red : bool) (w : world) (m : Z) (es : entries) :
  resolve directory (fs w) = inr (Dir m es) ->
  directory <> [] ->
  plain (Dir m es) = true ->
  height (Dir m es) <= fuel ->
  exists f',
    runs (cleanup_directory posix fuel directory T red None) w tt f'
    /\ match sweep T red (Dir m es) with
       | Some d => f' = graft directory d (fs w)
       | None => prune directory (fs w) = inr f'
       end.
Proof.
  intros Hp Hne Hpl Hh. unfold cleanup_directory.
  destruct ((T =? 0)%Z && red) eqn:Efast.
  - apply andb_prop in Efast. destruct Efast as [ET Ered].
    apply Z.eqb_eq in ET. subst T red. rewrite sweep_zero.
    destruct (rmtree_dir _ _ _ _ Hp Hne) as (f3 & Hf3 & Hrm).
    exists f3. split; [|assumption].
    eapply runs_bind with (a := true) (f := fs w).
    + pose proof (runs_exists directory w) as Hq.
      unfold fs_exists in Hq at 1. rewrite Hp in Hq. exact Hq.
    + intros w1 H1. eexists _, _. unfold rmtree_ignore_errors. cbn.
      unfold do_rmtree. rewrite H1, Hrm. split; reflexivity.
  - destruct (general_walk_sweeps T red fuel directory w m es Hp Hne Hpl Hh)
      as (f' & Hrun & Hf').
    exists f'. split; [|assumption].
    destruct Hrun as (w2 & t & Hrun & Hfs). exists w2, t.
    unfold bind, ret_. now rewrite Hrun.
Qed.

Lemma resolve_app_fails (p q : path) (f : node) (e : errno) :
  resolve p f = inl e -> resolve (p ++ q) f = inl e.
Proof.
  revert f. induction p as [|c p IH]; intros f H; [discriminate|].
  cbn in *. destruct f as [| |m es]; try assumption.
  destruct (assoc c es); [now apply IH|assumption].
Qed.

Lemma assoc_sweep_entries (T : Z) (red : bool) (c : string)
    (es : entries) :
  NoDup (map fst es) ->
  assoc c (sweep_entries T red es)
  = match assoc c es with Some v => sweep T red v | None => None end.
Proof.
  induction es as [|[k v] es IH]; cbn; [reflexivity|]. intro H.
  inversion H as [|? ? Hk Hnd]. subst.
  destruct (String.eqb_spec c k) as [->|Hck].
  - destruct (sweep T red v); cbn.
    + now rewrite String.eqb_refl.
    + rewrite (IH Hnd). now rewrite (absent_assoc _ _ Hk).
  - destruct (sweep T red v); cbn; [|now apply IH].
    rewrite (eqb_neq_false _ _ Hck). now apply IH.
Qed.

Lemma swept_entry (T : Z) (red : bool) (c : string) (es : entries)
    (v' : node) :
  assoc c (sweep_entries T red es) = Some v' ->
  exists v, In (c, v) es /\ sweep T red v = Some v'.
Proof.
  induction es as [|[k v] es IH]; cbn; [discriminate|].
  destruct (sweep T red v) as [x|] eqn:E; cbn.
  - destruct (String.eqb_spec c k) as [->|_].
    + intro H. inversion H. subst. exists v. split; [now left|assumption].
    + intro H. destruct (IH H) as (v0 & Hin & Hs). exists v0. tauto.
  - intro H. destruct (IH H) as (v0 & Hin & Hs). exists v0. tauto.
Qed.

(** A file that has not expired is in the swept tree, at its path. *)
Lemma sweep_keeps (T : Z) (red : bool) (q : path) :
  forall (n : node) (mt : Z) (content : string),
    plain n = true ->
    resolve q n = inr (File mt content) ->
    expired T mt = false ->
    exists d, sweep T red n = Some d
              /\ resolve q d = inr (File mt content).
Proof.
  induction q as [|c q IH]; intros n mt content Hpl Hq Hexp.
  - cbn in Hq. inversion Hq. subst n. exists (File mt content).
    cbn. now rewrite Hexp.
  - cbn in Hq. destruct n as [| |m es]; try discriminate.
    destruct (assoc c es) as [v|] eqn:Hv; [|discriminate].
    destruct (plain_Dir _ _ Hpl) as [Hnd Hsub].
    destruct (IH v mt content (Hsub _ _ Hv) Hq Hexp) as (d' & Hd' & Hr).
    assert (Ha : assoc c (sweep_entries T red es) = Some d')
      by (now rewrite (assoc_sweep_entries _ _ _ _ Hnd), Hv).
    exists (Dir m (sweep_entries T red es)). split.
    + rewrite sweep_Dir. destruct (sweep_entries T red es); [discriminate|].
      cbn. now rewrite andb_false_r.
    + cbn. now rewrite Ha.
Qed.

(** An expired file is not in the swept tree. *)
Lemma sweep_drops (T : Z) (red : bool) (q : path) :
  forall (n : node) (mt : Z) (content : string),
    plain n = true ->
    resolve q n = inr (File mt content) ->
    expired T mt = true ->
    q <> [] ->
    forall d, sweep T red n = Some d -> resolve q d = inl ENOENT.
Proof.
  induction q as [|c q IH]; intros n mt content Hpl Hq Hexp Hne d Hd;
    [congruence|].
  cbn in Hq. destruct n as [| |m es]; try discriminate.
  destruct (assoc c es) as [v|] eqn:Hv; [|discriminate].
  destruct (plain_Dir _ _ Hpl) as [Hnd Hsub].
  rewrite sweep_Dir in Hd.
  destruct (red && nothing_left (sweep_entries T red es)); [discriminate|].
  inversion Hd. subst d. cbn.
  rewrite (assoc_sweep_entries _ _ _ _ Hnd), Hv.
  destruct q as [|c' q].
  - cbn in Hq. inversion Hq. subst v. cbn. now rewrite Hexp.
  - destruct (sweep T red v) as [d'|] eqn:Hd'; [|reflexivity].
    apply (IH v mt content (Hsub _ _ Hv) Hq Hexp); [discriminate|assumption].
Qed.

(** With [remove_empty_dirs], no directory of the swept tree is empty. *)
Lemma sweep_no_empty (T : Z) (q : path) :
  forall (n d : node) (m : Z),
    sweep T true n = Some d -> resolve q d <> inr (Dir m []).
Proof.
  induction q as [|c q IH]; intros n d m Hd Hq.
  - cbn in Hq. inversion Hq. subst d.
    destruct n as [mt ?|mt ?|m0 es].
    + cbn in Hd. destruct (expired T mt); discriminate.
    + cbn in Hd. destruct (expired T mt); discriminate.
    + rewrite sweep_Dir in Hd. cbn [andb] in Hd.
      destruct (sweep_entries T true es); cbn in Hd; [discriminate|].
      inversion Hd.
  - destruct n as [mt ?|mt ?|m0 es].
    + cbn in Hd. destruct (expired T mt); [discriminate|].
      inversion Hd. subst d. discriminate.
    + cbn in Hd. destruct (expired T mt); [discriminate|].
      inversion Hd. subst d. discriminate.
    + rewrite sweep_Dir in Hd.
      destruct (true && nothing_left (sweep_entries T true es));
        [discriminate|].
      inversion Hd. subst d. cbn in Hq.
      destruct (assoc c (sweep_entries T true es)) as [v'|] eqn:Hv';
        [|discriminate].
      destruct (swept_entry _ _ _ _ _ Hv') as (v & _ & Hs).
      exact (IH v v' m Hs Hq).
Qed.

(** X13: on a tree without symbolic links to directories, with enough fuel
    for its depth, [cleanup_directory] with the default handler returns
    and leaves exactly the swept tree: the expired files gone, with
    [remove_empty_dirs] the directories that have nothing left gone too,
    the rest of the file system as it was. *)
Theorem cleanup_directory_sweeps (fuel : nat) (directory : path) (T : Z)
    (red : bool) (w : world) (m : Z) (es : entries) :
  resolve directory (fs w) = inr (Dir m es) ->
  directory <> [] ->
  plain (Dir m es) = true ->
  height (Dir m es) <= fuel ->
  let r := cleanup_directory posix fuel directory T red None w in
  fst (fst r) = Done tt
  /\ match sweep T red (Dir m es) with
     | Some d => fs (snd (fst r)) = graft directory d (fs w)
     | None => prune directory (fs w) = inr (fs (snd (fst r)))
     end.
Proof.
  intros Hp Hne Hpl Hh.
  destruct (runs_cleanup_directory fuel directory T red w m es Hp Hne Hpl Hh)
    as (f' & (w' & t & Hrun & Hfs) & Hf').
  cbv zeta. rewrite Hrun. cbn [fst snd]. rewrite Hfs.
  split; [reflexivity|].
  destruct (sweep T red (Dir m es)); assumption.
Qed.

Lemma cleanup_directory_sweeps_witness :
  fs (snd (fst (cleanup_directory posix 3 ["d"] 5 true None
                  (mk Scenes.cache_tree))))
  = Dir 0 [("d", Dir 0 [("a", Dir 0 [("g", File 9 "y")])])].
Proof.
  refine (proj2 (cleanup_directory_sweeps 3 ["d"] 5 true
                   (mk Scenes.cache_tree) 0
                   [("a", Dir 0 [("f", File 1 "x"); ("g", File 9 "y")]);
                    ("e", Dir 0 [])] _ _ _ _));
    [reflexivity|discriminate|reflexivity|cbn; lia].
Defined.

(** X14: a file below the directory whose modification time is not before
    a cutoff other than zero is still there afterwards, with its time and
    content. *)
Theorem cleanup_directory_keeps_young_files (fuel : nat)
    (directory q : path) (T : Z) (red : bool) (w : world) (m mt : Z)
    (es : entries) (content : string) :
  resolve directory (fs w) = inr (Dir m es) ->
  directory <> [] ->
  plain (Dir m es) = true ->
  height (Dir m es) <= fuel ->
  resolve (directory ++ q) (fs w) = inr (File mt content) ->
  T <> 0%Z ->
  (T <= mt)%Z ->
  let r := cleanup_directory posix fuel directory T red None w in
  fst (fst r) = Done tt
  /\ resolve (directory ++ q) (fs (snd (fst r))) = inr (File mt content).
Proof.
  intros Hp Hne Hpl Hh Hq HT Hmt.
  destruct (runs_cleanup_directory fuel directory T red w m es Hp Hne Hpl Hh)
    as (f' & (w' & t & Hrun & Hfs) & Hf').
  cbv zeta. rewrite Hrun. cbn [fst snd]. rewrite Hfs.
  split; [reflexivity|].
  rewrite (resolve_app _ q _ _ Hp) in Hq.
  assert (Hexp : expired T mt = false).
  { unfold expired. apply orb_false_intro.
    - now apply Z.eqb_neq.
    - apply Z.ltb_ge. exact Hmt. }
  destruct (sweep_keeps T red q _ _ _ Hpl Hq Hexp) as (d & Hd & Hr).
  rewrite Hd in Hf'. rewrite Hf'.
  now rewrite (resolve_app _ q _ _ (resolve_graft _ _ _ d Hp)).
Qed.

Lemma cleanup_directory_keeps_young_files_witness :
  resolve ["d"; "a"; "g"]
    (fs (snd (fst (cleanup_directory posix 3 ["d"] 5 true None
                     (mk Scenes.cache_tree)))))
  = inr (File 9 "y").
Proof.
  refine (proj2 (cleanup_directory_keeps_young_files 3 ["d"] ["a"; "g"] 5
                   true (mk Scenes.cache_tree) 0 9
                   [("a", Dir 0 [("f", File 1 "x"); ("g", File 9 "y")]);
                    ("e", Dir 0 [])] "y" _ _ _ _ _ _ _));
    [reflexivity|discriminate|reflexivity|cbn; lia|reflexivity
    |discriminate|discriminate].
Defined.

(** X15: a file below the directory that is older than the cutoff, or any
    file when the cutoff is zero, is gone afterwards. *)
Theorem cleanup_directory_removes_old_files (fuel : nat)
    (directory q : path) (T : Z) (red : bool) (w : world) (m mt : Z)
    (es : entries) (content : string) :
  resolve directory (fs w) = inr (Dir m es) ->
  directory <> [] ->
  plain (Dir m es) = true ->
  height (Dir m es) <= fuel ->
  resolve (directory ++ q) (fs w) = inr (File mt content) ->
  (T = 0 \/ mt < T)%Z ->
  let r := cleanup_directory posix fuel directory T red None w in
  fst (fst r) = Done tt
  /\ resolve (directory ++ q) (fs (snd (fst r))) = inl ENOENT.
Proof.
  intros Hp Hne Hpl Hh Hq Hold.
  destruct (runs_cleanup_directory fuel directory T red w m es Hp Hne Hpl Hh)
    as (f' & (w' & t & Hrun & Hfs) & Hf').
  cbv zeta. rewrite Hrun. cbn [fst snd]. rewrite Hfs.
  split; [reflexivity|].
  rewrite (resolve_app _ q _ _ Hp) in Hq.
  assert (Hexp : expired T mt = true).
  { unfold expired. apply orb_true_intro. destruct Hold as [->|Hlt].
    - now left.
    - right. now apply Z.ltb_lt. }
  assert (Hqne : q <> []) by (intro; subst q; discriminate Hq).
  destruct (sweep T red (Dir m es)) as [d|] eqn:Hd.
  - rewrite Hf'.
    rewrite (resolve_app _ q _ _ (resolve_graft _ _ _ d Hp)).
    exact (sweep_drops T red q _ _ _ Hpl Hq Hexp Hqne d Hd).
  - apply resolve_app_fails. exact (prune_gone _ _ _ Hf').
Qed.

Lemma cleanup_directory_removes_old_files_witness :
  resolve ["d"; "a"; "f"]
    (fs (snd (fst (cleanup_directory posix 3 ["d"] 5 false None
                     (mk Scenes.cache_tree)))))
  = inl ENOENT.
Proof.
  refine (proj2 (cleanup_directory_removes_old_files 3 ["d"] ["a"; "f"] 5
                   false (mk Scenes.cache_tree) 0 1
                   [("a", Dir 0 [("f", File 1 "x"); ("g", File 9 "y")]);
                    ("e", Dir 0 [])] "x" _ _ _ _ _ _));
    [reflexivity|discriminate|reflexivity|cbn; lia|reflexivity|right; lia].
Defined.

(** X16: with [remove_empty_dirs], no directory at or below the cleaned one
    is empty afterwards. *)
Theorem cleanup_directory_leaves_no_empty_directory (fuel : nat)
    (directory q : path) (T : Z) (w : world) (m m' : Z) (es : entries) :
  resolve directory (fs w) = inr (Dir m es) ->
  directory <> [] ->
  plain (Dir m es) = true ->
  height (Dir m es) <= fuel ->
  let r := cleanup_directory posix fuel directory T true None w in
  fst (fst r) = Done tt
  /\ resolve (directory ++ q) (fs (snd (fst r))) <> inr (Dir m' []).
Proof.
  intros Hp Hne Hpl Hh.
  destruct (runs_cleanup_directory fuel directory T true w m es Hp Hne Hpl
              Hh) as (f' & (w' & t & Hrun & Hfs) & Hf').
  cbv zeta. rewrite Hrun. cbn [fst snd]. rewrite Hfs.
  split; [reflexivity|].
  destruct (sweep T true (Dir m es)) as [d|] eqn:Hd.
  - rewrite Hf'.
    rewrite (resolve_app _ q _ _ (resolve_graft _ _ _ d Hp)).
    exact (sweep_no_empty T q _ d m' Hd).
  - rewrite (resolve_app_fails _ q _ _ (prune_gone _ _ _ Hf')).
    discriminate.
Qed.

Lemma cleanup_directory_leaves_no_empty_directory_witness :
  resolve ["d"; "e"]
    (fs (snd (fst (cleanup_directory posix 3 ["d"] 5 true None
                     (mk Scenes.cache_tree)))))
  <> inr (Dir 0 []).
Proof.
  refine (proj2 (cleanup_directory_leaves_no_empty_directory 3 ["d"] ["e"]
                   5 (mk Scenes.cache_tree) 0 0
                   [("a", Dir 0 [("f", File 1 "x"); ("g", File 9 "y")]);
                    ("e", Dir 0 [])] _ _ _ _));
    [reflexivity|discriminate|reflexivity|cbn; lia].
Defined.

End Cleaning.

(** ** _force_rename_dir onto a directory that is in the way *)
Section Forced.

Import TreeFS.

(** X17: on a tree nobody else touches, [_force_rename_dir] onto a directory
    that is not empty deletes that directory with all it holds and then
    puts the source in its place; nothing else changes. *)
Theorem force_rename_dir_replaces_directory (src parent : path)
    (name : string) (w : world) (sm dm : Z) (ses des : entries)
    (d : string * node) :
  let dst := join parent name in
  resolve src (fs w) = inr (Dir sm ses) ->
  resolve dst (fs w) = inr (Dir dm (d :: des)) ->
  apart src dst = true ->
  let r := _force_rename_dir posix src dst w in
  fst (fst r) = Done tt
  /\ resolve dst (fs (snd (fst r))) = inr (Dir sm ses)
  /\ resolve src (fs (snd (fst r))) = inl ENOENT
  /\ forall q, apart src q = true -> apart dst q = true ->
               resolve q (fs (snd (fst r))) = resolve q (fs w).
Proof.
  intros dst Hsrc Hdst Hap.
  destruct (apart_inv _ _ Hap) as [Hsd Hds].
  assert (Hne : dst <> []) by (unfold dst, join; now destruct parent).
  destruct (rmtree_dir _ _ _ _ Hdst Hne) as (f1 & Hpr & Hrm).
  destruct (resolve_snoc_inv _ _ _ _ Hdst) as (pm & pes & Hpar & _).
  assert (Hpd : is_prefix dst parent = false)
    by apply not_prefix_of_parent.
  destruct (prune_dir _ _ _ _ _ _ Hpr Hpar Hpd) as [pes1 Hpar1].
  assert (Hsrc1 : resolve src f1 = inr (Dir sm ses))
    by (rewrite <- Hsrc; exact (prune_frame _ _ _ _ Hpr Hds Hsd)).
  destruct (rename_to_free_name _ _ _ _ _ _ _ _ Hsrc1 Hpar1
              (prune_gone _ _ _ Hpr) Hap)
    as (f2 & Hren & Hd2 & Hs2 & Hframe).
  assert (Hfirst : fs_rename src dst (fs w) = inl ENOTEMPTY).
  { unfold fs_rename. rewrite Hsrc, Hsd, Hdst.
    unfold path_eqb. destruct (list_eq_dec string_dec src dst) as [E|_];
      [|reflexivity].
    rewrite E in Hsd. now rewrite is_prefix_refl in Hsd. }
  assert (Hrun : runs (_force_rename_dir posix src dst) w tt f2).
  { unfold _force_rename_dir.
    change (rename_loop posix 10 src dst)
      with (success <- catch_OSError
              (rename posix src dst ;;; ret_ true)
              (fun e =>
                 if occupied e then
                   when_ (0 <? 0) (sleep posix (backoff 0)) ;;;
                   rmtree posix dst ;;;
                   ret_ false
                 else throw (OSError e)) ;;
            if success then ret_ tt else rename_loop posix 9 src dst).
    eapply runs_bind with (a := false) (f := f1).
    - eapply fails_catch with (e := ENOTEMPTY) (f := fs w).
      + apply fails_bind_l. now apply fails_update.
      + intros w1 H1. cbn [occupied errno_eqb orb Nat.ltb Nat.leb when_].
        eapply runs_bind with (f := fs w1); [apply runs_ret|].
        intros w2 H2. eapply runs_bind with (f := f1).
        * apply runs_rmtree. now rewrite H2, H1.
        * intros w3 H3. rewrite <- H3. apply runs_ret.
    - intros w1 H1. cbn [rename_loop].
      eapply runs_bind with (a := true) (f := f2).
      + apply runs_catch. eapply runs_bind with (f := f2).
        * apply runs_update. now rewrite H1.
        * intros w3 H3. rewrite <- H3. apply runs_ret.
      + intros w3 H3. rewrite <- H3. apply runs_ret. }
  destruct Hrun as (w' & t & Hrun & Hfs).
  cbv zeta. rewrite Hrun. cbn [fst snd]. rewrite Hfs.
  repeat split; try assumption.
  intros q Hq1 Hq2. rewrite (Hframe q Hq1 Hq2).
  destruct (apart_inv _ _ Hq2) as [Hq3 Hq4].
  exact (prune_frame _ _ _ _ Hpr Hq3 Hq4).
Qed.

Lemma force_rename_dir_replaces_directory_witness :
  resolve ["cache"]
    (fs (snd (fst (_force_rename_dir posix ["new"] ["cache"]
                     (mk Scenes.published)))))
  = inr (Dir 0 [("tile", File 5 "x")]).
Proof.
  refine (proj1 (proj2
            (force_rename_dir_replaces_directory ["new"] [] "cache"
               (mk Scenes.published) 0 0 [("tile", File 5 "x")] []
               ("old", File 1 "o") _ _ _))); reflexivity.
Defined.

End Forced.

(** ** write_atomic when it fails *)
Section WriteFails.

Import TreeFS.

Lemma at_parent_weaken (p : path)
    (g1 g2 : string -> entries -> errno + entries) :
  (forall name es es', g1 name es = inr es' -> g2 name es = inr es') ->
  forall f f', at_parent p g1 f = inr f' -> at_parent p g2 f = inr f'.
Proof.
  intro Hg. induction p as [|c p IH]; intros f f' H; [discriminate|].
  destruct f as [| |m es]; try discriminate.
  destruct (list_eq_dec string_dec p []) as [->|Hp].
  - cbn in *. destruct (g1 c es) as [e|es'] eqn:E; [discriminate|].
    now rewrite (Hg _ _ _ E).
  - rewrite (at_parent_cons _ _ _ _ _ Hp) in H.
    rewrite (at_parent_cons _ _ _ _ _ Hp).
    destruct (assoc c es) as [sub|]; [|discriminate H].
    destruct (at_parent p g1 sub) as [e|sub'] eqn:E; [discriminate H|].
    now rewrite (IH _ _ E).
Qed.

Lemma remove_frame (p q : path) (f f' : node) :
  fs_remove p f = inr f' -> apart p q = true ->
  resolve q f' = resolve q f.
Proof.
  intros H Hap. destruct (apart_inv _ _ Hap) as [H1 H2].
  apply (prune_frame p q f f'); [|assumption..].
  unfold prune. revert H. unfold fs_remove. apply at_parent_weaken.
  intros name es es' E. destruct (assoc name es) as [[]|]; congruence.
Qed.

(** What the calls of [write_atomic] leave of a path that is not the
    temporary one. *)
Lemma unlink_frame (p q : path) (w : world) :
  apart p q = true ->
  resolve q (fs (snd (update quiet (fs_remove p) w))) = resolve q (fs w).
Proof.
  intro Hap. unfold update.
  destruct (fs_remove p (fs w)) as [e|f'] eqn:E; cbn; unfold quiet;
    [reflexivity|]. exact (remove_frame _ _ _ _ E Hap).
Qed.

Lemma open_excl_frame (p q : path) (w : world) :
  apart p q = true ->
  let r := do_open_excl quiet p w in
  resolve q (fs (snd r)) = resolve q (fs w)
  /\ forall fd, fst r = inr fd -> nth_error (fds (snd r)) fd = Some p.
Proof.
  intro Hap. unfold do_open_excl.
  destruct (resolve p (fs w)) as [e|n]; [|now split].
  destruct (at_parent p _ (fs w)) as [e'|f'] eqn:E.
  - destruct e; now split.
  - assert (Hf : resolve q f' = resolve q (fs w))
      by exact (put_frame _ _ _ _ _ E Hap).
    destruct e; cbn; unfold quiet; (split; [first [exact Hf|reflexivity]|]);
      intros fd Hfd; try discriminate; inversion Hfd;
      apply nth_error_last.
Qed.

Lemma write_frame (p q : path) (fd : nat) (data : string) (w : world) :
  apart p q = true ->
  nth_error (fds w) fd = Some p ->
  let r := do_write quiet fd data w in
  resolve q (fs (snd r)) = resolve q (fs w).
Proof.
  intros Hap Hfd. unfold do_write. rewrite Hfd.
  destruct (free w <? String.length data); [reflexivity|].
  cbn. unfold quiet.
  destruct (resolve p (fs w)) as [e|[| |]]; try reflexivity.
  destruct (at_parent p _ (fs w)) as [e'|f'] eqn:E; [reflexivity|].
  exact (put_frame _ _ _ _ _ E Hap).
Qed.

Lemma update_fails (u : node -> errno + node) (w : world) (e : errno) :
  fst (update quiet u w) = inl e -> fs (snd (update quiet u w)) = fs w.
Proof.
  unfold update. destruct (u (fs w)); [reflexivity|discriminate].
Qed.

(** X18: on a POSIX tree nobody else touches, whenever [write_atomic] does
    not return normally, whatever the reason, the target path is as it was
    before the call: old content or absence. *)
Theorem write_atomic_failure_leaves_target (parent : path)
    (name data : string) (w : world) :
  let filename := join parent name in
  let r := write_atomic posix filename data w in
  fst (fst r) <> Done tt ->
  resolve filename (fs (snd (fst r))) = resolve filename (fs w).
Proof.
  cbv zeta. unfold write_atomic. posix_calls.
  destruct (randint_world 0 999999 w) as (Hf0 & _).
  destruct (do_randint quiet 0 999999 w) as [n w0]. cbn [fst snd] in *.
  rewrite add_ext_join. rewrite <- Hf0. clear Hf0 w.
  set (tmp := join parent (name ++ ".tmp-" ++ str n)%string).
  set (filename := join parent name).
  assert (Hap : apart tmp filename = true).
  { apply apart_siblings. apply append_nonempty. discriminate. }
  destruct (open_excl_frame tmp filename w0 Hap) as [Hf1 Hfd1].
  pose proof (unlink_frame tmp filename) as Hun.
  destruct (do_open_excl quiet tmp w0) as [[e1|fd] w1]; cbn [fst snd] in *.
  - intros _. rewrite <- Hf1.
    specialize (Hun w1 Hap).
    destruct (update quiet (fs_remove tmp) w1) as [[e9|[]] w9]; exact Hun.
  - specialize (Hfd1 fd eq_refl).
    unfold do_fdopen, do_close. rewrite Hfd1. cbn [fst snd].
    assert (Hfd2 : nth_error (fds (step quiet w1 (fs w1))) fd = Some tmp)
      by exact Hfd1.
    pose proof (write_frame tmp filename fd data _ Hap Hfd2) as Hf3.
    assert (Hfd3 : nth_error
                     (fds (snd (do_write quiet fd data
                                  (step quiet w1 (fs w1))))) fd = Some tmp).
    { unfold do_write. rewrite Hfd2.
      destruct (free _ <? String.length data); exact Hfd1. }
    destruct (do_write quiet fd data (step quiet w1 (fs w1)))
      as [[e3|[]] w3]; cbn [fst snd] in *; rewrite Hfd3; cbn [fst snd].
    + intros _. cbn. unfold quiet. rewrite Hf3. exact Hf1.
    + assert (Hf4 : resolve filename (fs (step quiet w3 (fs w3)))
                    = resolve filename (fs w0))
        by (cbn; unfold quiet; rewrite Hf3; exact Hf1).
      generalize dependent (step quiet w3 (fs w3)). intros w4 Hf4.
      pose proof (update_fails (fs_rename tmp filename) w4) as Hrn.
      destruct (update quiet (fs_rename tmp filename) w4) as [[e5|[]] w5];
        cbn [fst snd] in *.
      * intros _. specialize (Hrn e5 eq_refl). specialize (Hun w5 Hap).
        rewrite <- Hf4, <- Hrn.
        destruct (update quiet (fs_remove tmp) w5) as [[e9|[]] w9];
          exact Hun.
      * intro H. now destruct H.
Qed.

Lemma write_atomic_failure_leaves_target_witness :
  resolve ["d"; "t"]
    (fs (snd (fst (write_atomic posix ["d"; "t"] "hello"
                     Scenes.nearly_full))))
  = inr (File 1 "old").
Proof.
  refine (write_atomic_failure_leaves_target ["d"] "t" "hello"
            Scenes.nearly_full _).
  vm_compute. discriminate.
Defined.


(** X19: the fallback for Windows gives no such guarantee: when the device
    has no room for the data, the write fails with [IOError] after the
    target has been opened for writing, and the old content is lost. *)
Theorem write_atomic_windows_failed_write_empties_target (parent : path)
    (name data : string) (w : world) (pm m : Z) (pes : entries)
    (old : string) :
  let filename := join parent name in
  resolve parent (fs w) = inr (Dir pm pes) ->
  assoc name pes = Some (File m old) ->
  free w < String.length data ->
  let r := write_atomic (TreeOS quiet true) filename data w in
  fst (fst r) = Raised (IOError ENOSPC)
  /\ resolve filename (fs (snd (fst r)))
     = inr (File (Z.of_nat (tick w)) "").
Proof.
  intros filename Hpar Hname Hfull. cbv zeta. subst filename.
  unfold write_atomic. posix_calls.
  unfold do_open_wb, join.
  rewrite (resolve_snoc _ name _ _ _ Hpar), Hname.
  rewrite (at_parent_snoc _ _ _ _ _ _ Hpar).
  unfold do_write, do_close. cbn [fds free fs tick fst snd].
  rewrite nth_error_last.
  destruct (Nat.ltb_spec (free w) (String.length data)) as [_|H]; [|lia].
  cbn [fds free fs tick fst snd step]. rewrite nth_error_last.
  cbn [fds free fs tick fst snd]. unfold quiet.
  split; [reflexivity|]. unfold step. cbn [fs].
  rewrite (resolve_snoc _ name _ _ _ (resolve_graft _ _ _ _ Hpar)).
  now rewrite assoc_set_same.
Qed.

Lemma write_atomic_windows_failed_write_empties_target_witness :
  resolve ["d"; "t"]
    (fs (snd (fst (write_atomic (TreeOS quiet true) ["d"; "t"] "hello"
                     Scenes.nearly_full))))
  = inr (File 0 "").
Proof.
  refine (proj2 (write_atomic_windows_failed_write_empties_target ["d"]
                   "t" "hello" Scenes.nearly_full 0 1
                   [("t", File 1 "old")] "old" _ _ _));
    [reflexivity|reflexivity|cbn; lia].
Defined.

End WriteFails.

(** ** cleanup_directory: every file of the walk *)

Section EveryFile.

Import TreeFS Cleaned.

(** The files of a directory below [directory], on a tree nobody else
    touches, with the handler the source gives by default. *)
Lemma general_walk_by_timestamp (fuel : nat) (directory q : path)
    (before_timestamp : Z) (remove_empty_dirs : bool) (w : world)
    (m mt : Z) (es : entries) (content : string) :
  resolve directory (fs w) = inr (Dir m es) ->
  directory <> [] ->
  plain (Dir m es) = true ->
  height (Dir m es) <= fuel ->
  resolve (directory ++ q) (fs w) = inr (File mt content) ->
  let r := general_walk posix fuel directory before_timestamp
             remove_empty_dirs (remove posix) w in
  fst (fst r) = Done tt
  /\ resolve (directory ++ q) (fs (snd (fst r)))
     = if (before_timestamp =? 0)%Z || (mt <? before_timestamp)%Z
       then inl ENOENT else inr (File mt content).
Proof.
  intros Hp Hne Hpl Hh Hq.
  destruct (general_walk_sweeps before_timestamp remove_empty_dirs fuel
              directory w m es Hp Hne Hpl Hh)
    as (f' & (w' & t & Hrun & Hfs) & Hf').
  cbv zeta. rewrite Hrun. cbn [fst snd]. rewrite Hfs.
  split; [reflexivity|].
  rewrite (resolve_app _ q _ _ Hp) in Hq.
  assert (Hqne : q <> []) by (intro; subst q; discriminate Hq).
  fold (expired before_timestamp mt).
  destruct (expired before_timestamp mt) eqn:Hexp.
  - destruct (sweep before_timestamp remove_empty_dirs (Dir m es))
      as [d|] eqn:Hd.
    + rewrite Hf'.
      rewrite (resolve_app _ q _ _ (resolve_graft _ _ _ d Hp)).
      exact (sweep_drops before_timestamp remove_empty_dirs q _ _ _ Hpl Hq
               Hexp Hqne d Hd).
    + apply resolve_app_fails. exact (prune_gone _ _ _ Hf').
  - destruct (sweep_keeps before_timestamp remove_empty_dirs q _ _ _ Hpl Hq
                Hexp) as (d & Hd & Hr).
    rewrite Hd in Hf'. rewrite Hf'.
    now rewrite (resolve_app _ q _ _ (resolve_graft _ _ _ d Hp)).
Qed.

Context {W : Type} (os : OS W).

(** C5. Every file the general walk visits, on any operating system and
    with any handler.  One file: with a cutoff of zero the handler is
    applied first thing, whatever the file; with another cutoff the time of
    last modification is fetched and the handler applied exactly when that
    time is below the cutoff, the world being left as [lstat] left it
    otherwise; of what the handler or [lstat] raise, [OSError] with ENOENT
    ends the file quietly and everything else reaches the caller.  (With a
    cutoff of zero the time is fetched as well, after the handler: for a
    file the handler removed that is the ENOENT swallowed here.)  The loop
    body deals so with every file of the directory it is given, in the
    order of the listing, until one of them raises; and the walk hands to
    the loop body every directory it lists, with the names it has found to
    be no directories.  On a tree nobody else touches, without symbolic
    links to directories, with the handler [os.remove]: after the walk a
    file below the directory is gone when the cutoff is zero or its time
    is below the cutoff, and is as it was otherwise. *)
Theorem handle_file_by_timestamp (before_timestamp : Z)
    (file_handler : path -> M W unit) :
  (forall filename w,
     before_timestamp = 0%Z ->
     handle_file os before_timestamp file_handler filename w =
     match file_handler filename w with
     | (Done _, w1, t1) =>
         match os_lstat_mtime os filename w1 with
         | (inl e, w2) =>
             (absorb_ENOENT (Raised (OSError e)), w2,
              t1 ++ [(CLstat filename, RErr e)])
         | (inr mtime, w2) =>
             if (mtime <? 0)%Z
             then after (t1 ++ [(CLstat filename, RInt mtime)])
                    (swallow (file_handler filename w2))
             else (Done tt, w2, t1 ++ [(CLstat filename, RInt mtime)])
         end
     | (o, w1, t1) => (absorb_ENOENT o, w1, t1)
     end)
  /\
  (forall filename w,
     before_timestamp <> 0%Z ->
     handle_file os before_timestamp file_handler filename w =
     match os_lstat_mtime os filename w with
     | (inl e, w1) =>
         (absorb_ENOENT (Raised (OSError e)), w1, [(CLstat filename, RErr e)])
     | (inr mtime, w1) =>
         if (mtime <? before_timestamp)%Z
         then after [(CLstat filename, RInt mtime)]
                (swallow (file_handler filename w1))
         else (Done tt, w1, [(CLstat filename, RInt mtime)])
     end)
  /\
  (forall directory remove_empty_dirs dirpath dirnames name names w,
     visit os directory before_timestamp remove_empty_dirs file_handler
       dirpath dirnames (name :: names) w
     = match handle_file os before_timestamp file_handler
               (join dirpath name) w with
       | (Done _, w1, t1) =>
           after t1
             (match names with
              | [] =>
                  when_ remove_empty_dirs (remove_dir_if_emtpy os dirpath) w1
              | _ :: _ =>
                  visit os directory before_timestamp remove_empty_dirs
                    file_handler dirpath dirnames names w1
              end)
       | (Raised e, w1, t1) => (Raised e, w1, t1)
       | (Starved, w1, t1) => (Starved, w1, t1)
       end)
  /\
  (forall fuel directory remove_empty_dirs top w names w1 dirnames filenames
          w2 tc w3 ts,
     os_listdir os top w = (inr names, w1) ->
     classify os top names w1 = (Done (dirnames, filenames), w2, tc) ->
     for_each dirnames
       (fun name =>
          l <- path_islink os (join top name) ;;
          if l then ret_ tt
          else walk_bottom_up os fuel (join top name)
                 (visit os directory before_timestamp remove_empty_dirs
                    file_handler)) w2
     = (Done tt, w3, ts) ->
     walk_bottom_up os (S fuel) top
       (visit os directory before_timestamp remove_empty_dirs file_handler) w
     = after ((CListdir top, RNames names) :: tc ++ ts)
         (visit os directory before_timestamp remove_empty_dirs file_handler
            top dirnames filenames w3))
  /\
  (forall fuel directory q remove_empty_dirs (tw : world) m mt es content,
     resolve directory (fs tw) = inr (Dir m es) ->
     directory <> [] ->
     plain (Dir m es) = true ->
     height (Dir m es) <= fuel ->
     resolve (directory ++ q) (fs tw) = inr (File mt content) ->
     let r := general_walk posix fuel directory before_timestamp
                remove_empty_dirs (remove posix) tw in
     fst (fst r) = Done tt
     /\ resolve (directory ++ q) (fs (snd (fst r)))
        = if (before_timestamp =? 0)%Z || (mt <? before_timestamp)%Z
          then inl ENOENT else inr (File mt content)).
Proof.
  split; [|split; [|split; [|split]]].
  - intros filename w. exact (proj1 (handle_file_cases os
      before_timestamp file_handler filename w)).
  - intros filename w. exact (proj2 (handle_file_cases os
      before_timestamp file_handler filename w)).
  - intros directory red dirpath dirnames name names w.
    unfold visit.
    generalize (when_ red (remove_dir_if_emtpy os dirpath)). intro R.
    set (h := fun filename : string =>
                handle_file os before_timestamp file_handler
                  (join dirpath filename)).
    change (handle_file os before_timestamp file_handler (join dirpath name))
      with (h name).
    clearbody h.
    destruct names as [|g names]; cbn [for_each]; unfold bind, after, ret_;
      destruct (h name w) as [[[[]|e|] w1] t1]; try reflexivity.
    + destruct (R w1) as [[o w2] t2]. rewrite app_nil_r. reflexivity.
    + destruct (h g w1) as [[[[]|e|] w2] t2]; try reflexivity.
      destruct (for_each names h w2) as [[[[]|e|] w3] t3];
        [destruct (R w3) as [[o w4] t4]| |];
        rewrite <- ?app_assoc; reflexivity.
  - intros fuel directory red top w names w1 dirnames filenames w2 tc w3 ts
      Hl Hc Hd.
    cbn [walk_bottom_up].
    unfold catch_OSError, bind at 1 2, listdir, fallible, ret_.
    rewrite Hl. cbn. unfold bind at 1. rewrite Hc. cbn [fst snd].
    unfold ret_ in Hd. unfold bind at 1. rewrite Hd. unfold after.
    destruct (visit os directory before_timestamp red file_handler top
                dirnames filenames w3) as [[o w4] t4].
    cbn. rewrite <- !app_assoc. reflexivity.
  - intros fuel directory q red tw m mt es content.
    apply general_walk_by_timestamp.
Qed.

End EveryFile.

(** C5 at a file older than the cutoff: the handler, [os.remove], is
    applied after the [lstat]. *)
Lemma handle_file_by_timestamp_witness :
  handle_file TreeFS.posix 5 (remove TreeFS.posix) ["d"; "f"]
    (TreeFS.mk Scenes.flat_tree)
  = (Done tt,
     {| TreeFS.fs := TreeFS.Dir 0 [("d", TreeFS.Dir 0 [])];
        TreeFS.tick := 2; TreeFS.free := 4096; TreeFS.fds := [];
        TreeFS.entropy := [] |},
     [(CLstat ["d"; "f"], RInt 1); (CRemove ["d"; "f"], RUnit)]).
Proof.
  rewrite (proj1 (proj2 (handle_file_by_timestamp TreeFS.posix 5
                           (remove TreeFS.posix)))
             ["d"; "f"] (TreeFS.mk Scenes.flat_tree));
    [reflexivity | discriminate].
Defined.
